(** * Virtual try-on: face-transform estimation, smoothing and overlay

    A shallow embedding of the pose pipeline of the virtual glasses
    try-on application:

    - [Face]   : face.js   (landmark topology, [detectFace],
                            [extractFaceTransform]);
    - [Render] : render.js (anchor constants, [splitGlassesImage],
                            [drawGlasses]);
    - [Main]   : main.js   (the [state] object, [applySmoothing],
                            [runDetection], [renderLoop]).

    Two further modules follow the same conventions:
    - [Render3D] : render3d.js (the Three.js renderer of a GLB model);
    - [Editor] : editor.js (history, view, eraser and auto-crop of the
                            image editor).

    Number model.  JavaScript numbers are modelled by the real numbers
    of the Standard Library: [+], [-], [*] are exact, [Math.hypot] is
    the square root of the sum of squares, [Math.max] / [Math.min] are
    [Rmax] / [Rmin], and rounding and overflow of binary64 are left
    out.  In exact arithmetic on finite inputs the only way to leave
    the finite numbers is to divide by zero, so a quotient whose
    divisor is a computed value goes through the checked division
    [Js.div], which reports [DivByZero] instead of producing
    [Infinity] or [NaN].  Reading a property of [undefined] is the
    other failure of the code and is reported as [TypeError].

    The module [Binary64] repeats the scalar formulas on the machine
    numbers themselves, to run the concrete cases of the statements in
    the arithmetic the browser uses, and the cases in which that
    arithmetic and the exact one part.

    Asynchrony.  The page is single-threaded: every callback runs to
    completion before the next one starts.  A callback is a function
    from the page ([Main.world]) to the page and the calls it makes on
    the outside ([Main.effect]); the browser is the transition system
    [Main.step] that runs callbacks in any order.  [Main.effect] holds
    the calls of [renderLoop] and [runDetection]; the status line, the
    buttons, the slider labels, and what [stopCamera] does to the canvas
    and to the info panel are not recorded.  The one [async]
    function that matters, [runDetection], is cut at its [await]:
    [Main.runDetection] is the part that runs inside [renderLoop], and
    [Main.runDetection_resume] the continuation that runs when the
    detector has answered. *)

From Stdlib Require Import Reals Lra Lia List ZArith Bool Arith.
From Stdlib Require PrimFloat.
Import ListNotations.

Open Scope R_scope.

(* ================================================================== *)
(** ** JavaScript values *)
(* ================================================================== *)

(** Outcome of running a piece of JavaScript in the model. *)
Inductive outcome (A : Type) : Type :=
| Ok (a : A)
| TypeError      (* a property of [undefined] was read *)
| DivByZero.     (* a quotient with divisor 0 was taken *)

Arguments Ok {A} a.
Arguments TypeError {A}.
Arguments DivByZero {A}.

Definition bind {A B : Type} (m : outcome A) (k : A -> outcome B) : outcome B :=
  match m with
  | Ok a => k a
  | TypeError => TypeError
  | DivByZero => DivByZero
  end.

Notation "x <- m ;; k" := (bind m (fun x => k))
  (at level 61, m at next level, right associativity).
Notation "' p <- m ;; k" := (bind m (fun p => k))
  (at level 61, p pattern, m at next level, right associativity).

Module Js.

(** [a / b] where [b] is a computed value. *)
Definition div (a b : R) : outcome R :=
  if Req_dec_T b 0 then DivByZero else Ok (a / b).

(** [arr[i]] followed by a property read: [undefined] past the end. *)
Definition index {A : Type} (arr : list A) (i : nat) : outcome A :=
  match nth_error arr i with
  | Some a => Ok a
  | None => TypeError
  end.

(** [Math.hypot(x, y)]. *)
Definition hypot (x y : R) : R := sqrt (x * x + y * y).

(** [Math.atan2(y, x)], signed zeros left out. *)
Definition atan2 (y x : R) : R :=
  if Rlt_dec 0 x then atan (y / x)
  else if Rlt_dec x 0 then
    if Rle_dec 0 y then atan (y / x) + PI else atan (y / x) - PI
  else if Rlt_dec 0 y then PI / 2
  else if Rlt_dec y 0 then - (PI / 2)
  else 0.

(** [a % n === 0] on non-negative integers; [a % 0] is [NaN]. *)
Definition mod_is_zero (a n : nat) : bool :=
  match n with
  | O => false
  | S _ => Nat.eqb (Nat.modulo a n) 0
  end.

End Js.

Infix "//" := Js.div (at level 40, left associativity).

(** A keypoint, or any [{x, y, z}] object; [z] may be [undefined]. *)
Module Point.
Record t : Type := make { x : R; y : R; z : option R }.
End Point.

(** The pose descriptor handed to the renderer:
    [{ center, eyeDistance, roll, yaw, keypoints }]. *)
Module Pose.
Record t : Type := make {
  center : Point.t;
  eyeDistance : R;
  roll : R;
  yaw : R;
  keypoints : list Point.t
}.
End Pose.

(** The object returned by [extractFaceTransform]:
    [{ center, leftEye, rightEye, eyeDistance, roll, yaw, keypoints }]. *)
Module Transform.
Record t : Type := make {
  center : Point.t;
  leftEye : Point.t;
  rightEye : Point.t;
  eyeDistance : R;
  roll : R;
  yaw : R;
  keypoints : list Point.t
}.
End Transform.

(* ================================================================== *)
(** ** face.js *)
(* ================================================================== *)

Module Face.

(** Key landmark indices (MediaPipe FaceMesh 478-point topology). *)
Module LM.
Definition LEFT_EYE_OUTER : nat := 33.
Definition LEFT_EYE_INNER : nat := 133.
Definition RIGHT_EYE_INNER : nat := 362.
Definition RIGHT_EYE_OUTER : nat := 263.
Definition LEFT_IRIS : nat := 468.
Definition RIGHT_IRIS : nat := 473.
Definition NOSE_TIP : nat := 1.
Definition LEFT_FACE_EDGE : nat := 234.
Definition RIGHT_FACE_EDGE : nat := 454.
Definition FOREHEAD : nat := 10.
Definition CHIN : nat := 152.
End LM.

Definition midpoint (a b : Point.t) : Point.t :=
  {| Point.x := (Point.x a + Point.x b) / 2;
     Point.y := (Point.y a + Point.y b) / 2;
     Point.z := match Point.z a, Point.z b with
                | Some az, Some bz => Some ((az + bz) / 2)
                | _, _ => None
                end |}.

Definition dist (a b : Point.t) : R :=
  Js.hypot (Point.x a - Point.x b) (Point.y a - Point.y b).

Definition clamp (v lo hi : R) : R := Rmax lo (Rmin hi v).

Definition extractFaceTransform (keypoints : list Point.t)
  : outcome Transform.t :=
  '(leftEye, rightEye) <-
    (if Nat.ltb 473 (length keypoints) then
       l <- Js.index keypoints LM.LEFT_IRIS ;;
       r <- Js.index keypoints LM.RIGHT_IRIS ;;
       Ok (l, r)
     else
       lo <- Js.index keypoints LM.LEFT_EYE_OUTER ;;
       li <- Js.index keypoints LM.LEFT_EYE_INNER ;;
       ri <- Js.index keypoints LM.RIGHT_EYE_INNER ;;
       ro <- Js.index keypoints LM.RIGHT_EYE_OUTER ;;
       Ok (midpoint lo li, midpoint ri ro)) ;;
  let center := midpoint leftEye rightEye in
  let eyeDistance := dist leftEye rightEye in
  (* Roll (in-plane rotation) *)
  let roll := Js.atan2 (Point.y rightEye - Point.y leftEye)
                       (Point.x rightEye - Point.x leftEye) in
  (* Yaw (horizontal head turn) from nose-to-face-edge distances *)
  noseTip <- Js.index keypoints LM.NOSE_TIP ;;
  leftEdge <- Js.index keypoints LM.LEFT_FACE_EDGE ;;
  rightEdge <- Js.index keypoints LM.RIGHT_FACE_EDGE ;;
  let dLeft := dist noseTip leftEdge in
  let dRight := dist noseTip rightEdge in
  yaw0 <- (if Rlt_dec 0 (dLeft + dRight)
           then (dLeft - dRight) // (dLeft + dRight)
           else Ok 0) ;;
  (* Blend in z-depth signal if available *)
  yaw1 <- match Point.z leftEye, Point.z rightEye with
          | Some lz, Some rz =>
              let zDiff := rz - lz in
              zYaw <- zDiff // Rmax (eyeDistance * 0.5) 1 ;;
              Ok (yaw0 * 0.55 + zYaw * 0.45)
          | _, _ => Ok yaw0
          end ;;
  Ok {| Transform.center := center;
        Transform.leftEye := leftEye;
        Transform.rightEye := rightEye;
        Transform.eyeDistance := eyeDistance;
        Transform.roll := roll;
        Transform.yaw := clamp yaw1 (-1) 1;
        Transform.keypoints := keypoints |}.

(** *** The detector (tasks-vision runtime) *)

(** [diag.lastError], one constructor per message of the source. *)
Inductive last_error : Type :=
| NoError
| NoDetector
| VideoNotReady (readyState : nat)
| DuplicateFrame
| NoFaceInFrame
| DetectionError.

Record diag_t : Type := mkDiag {
  attempts : nat;
  successes : nat;
  errors : nat;
  lastError : last_error
}.

Record video_t : Type := mkVideo {
  readyState : nat;
  currentTime : R;
  videoWidth : R;
  videoHeight : R
}.

(** A normalised landmark of the detector, coordinates in [0, 1]. *)
Record landmark : Type := mkLandmark { lm_x : R; lm_y : R; lm_z : R }.

(** What [faceLandmarker.detectForVideo] does on this frame. *)
Inductive detector_result : Type :=
| Result (faceLandmarks : option (list (list landmark)))
| Throws.

(** Module-level variables of face.js. *)
Record detector_state : Type := mkDetector {
  faceLandmarker : bool;      (* [faceLandmarker !== null] *)
  lastVideoTime : R;
  diag : diag_t
}.

(** The object [{ keypoints }] returned by [detectFace]. *)
Record face : Type := mkFace { keypoints : list Point.t }.

Definition set_lastError (e : last_error) (d : detector_state) : detector_state :=
  {| faceLandmarker := faceLandmarker d;
     lastVideoTime := lastVideoTime d;
     diag := {| attempts := attempts (diag d);
                successes := successes (diag d);
                errors := errors (diag d);
                lastError := e |} |}.

Definition detectFace (video : video_t) (run : detector_result)
           (d : detector_state) : detector_state * option face :=
  if negb (faceLandmarker d) then (set_lastError NoDetector d, None)
  else if Nat.ltb (readyState video) 2 then
    (set_lastError (VideoNotReady (readyState video)) d, None)
  else if Req_dec_T (currentTime video) (lastVideoTime d) then
    (set_lastError DuplicateFrame d, None)
  else
    let d1 := {| faceLandmarker := faceLandmarker d;
                 lastVideoTime := currentTime video;
                 diag := {| attempts := S (attempts (diag d));
                            successes := successes (diag d);
                            errors := errors (diag d);
                            lastError := lastError (diag d) |} |} in
    match run with
    | Result (Some (first :: _)) =>
        let w := videoWidth video in
        let h := videoHeight video in
        let keypoints :=
          map (fun lm => {| Point.x := lm_x lm * w;
                            Point.y := lm_y lm * h;
                            Point.z := Some (lm_z lm * w) |}) first in
        ({| faceLandmarker := faceLandmarker d1;
            lastVideoTime := lastVideoTime d1;
            diag := {| attempts := attempts (diag d1);
                       successes := S (successes (diag d1));
                       errors := errors (diag d1);
                       lastError := lastError (diag d1) |} |},
         Some {| keypoints := keypoints |})
    | Result _ => (set_lastError NoFaceInFrame d1, None)
    | Throws =>
        ({| faceLandmarker := faceLandmarker d1;
            lastVideoTime := lastVideoTime d1;
            diag := {| attempts := attempts (diag d1);
                       successes := successes (diag d1);
                       errors := S (errors (diag d1));
                       lastError := DetectionError |} |},
         None)
    end.

(** *** The detector (tfjs runtime) *)

(** The other revision of face.js: [detector.estimateFaces] hands back
    the faces themselves and there is no time stamp check.  Its
    variable [detector] is the field [faceLandmarker] here. *)
Module Tfjs.

(** What [detector.estimateFaces] does on this frame. *)
Inductive estimate_result : Type :=
| Faces (faces : list face)
| Rejects.

Definition detectFace (video : video_t) (run : estimate_result)
           (d : detector_state) : detector_state * option face :=
  if negb (faceLandmarker d) then (set_lastError NoDetector d, None)
  else if Nat.ltb (readyState video) 2 then
    (set_lastError (VideoNotReady (readyState video)) d, None)
  else
    let d1 := {| faceLandmarker := faceLandmarker d;
                 lastVideoTime := lastVideoTime d;
                 diag := {| attempts := S (attempts (diag d));
                            successes := successes (diag d);
                            errors := errors (diag d);
                            lastError := lastError (diag d) |} |} in
    match run with
    | Faces (first :: _) =>
        ({| faceLandmarker := faceLandmarker d1;
            lastVideoTime := lastVideoTime d1;
            diag := {| attempts := attempts (diag d1);
                       successes := S (successes (diag d1));
                       errors := errors (diag d1);
                       lastError := lastError (diag d1) |} |},
         Some first)
    | Faces [] => (set_lastError NoFaceInFrame d1, None)
    | Rejects =>
        ({| faceLandmarker := faceLandmarker d1;
            lastVideoTime := lastVideoTime d1;
            diag := {| attempts := attempts (diag d1);
                       successes := successes (diag d1);
                       errors := S (errors (diag d1));
                       lastError := DetectionError |} |},
         None)
    end.

End Tfjs.

(** *** Observations used by the statements below *)

(** A run of calls of a detector, one after the other, each on the
    module variables the one before has left. *)
Fixpoint detectAll {C : Type}
         (detect : C -> detector_state -> detector_state * option face)
         (calls : list C) (d : detector_state)
  : detector_state * list (option face) :=
  match calls with
  | [] => (d, [])
  | c :: rest =>
      let '(d1, r) := detect c d in
      let '(d2, rs) := detectAll detect rest d1 in
      (d2, r :: rs)
  end.

(** The number of calls that handed back a face. *)
Definition found (results : list (option face)) : nat :=
  length (filter (fun r => match r with Some _ => true | None => false end)
                 results).

(** What one call may do to the counters: a success is counted exactly
    when a face is handed back, at most one attempt is counted, and the
    successes and errors gained do not exceed the attempts gained. *)
Definition counted (d : detector_state) (out : detector_state * option face)
  : Prop :=
  (successes (diag (fst out)) =
   successes (diag d) + match snd out with Some _ => 1 | None => 0 end)%nat /\
  (attempts (diag d) <= attempts (diag (fst out)) <= S (attempts (diag d)))%nat /\
  (errors (diag d) <= errors (diag (fst out)))%nat /\
  (attempts (diag d) + successes (diag (fst out)) + errors (diag (fst out)) <=
   attempts (diag (fst out)) + successes (diag d) + errors (diag d))%nat.

End Face.

(* ================================================================== *)
(** ** render.js *)
(* ================================================================== *)

Module Render.

(** Glasses PNG anchor constants (ratios relative to image size). *)
Definition ANCHOR_LEFT_X : R := 0.30.
Definition ANCHOR_RIGHT_X : R := 0.70.
Definition ANCHOR_Y : R := 0.45.

(** 2.5D tuning knobs. *)
Definition YAW_WIDTH_FACTOR : R := 0.40.
Definition YAW_HEIGHT_FACTOR : R := 0.12.

(** An image or an offscreen canvas: only its pixel size matters here. *)
Record image : Type := mkImage { width : Z; height : Z }.

Record halves_t : Type := mkHalves { left : image; right : image }.

(** Calls on the 2D context, in the order they are made. *)
Inductive canvas_op : Type :=
| Save
| Translate (x y : R)
| Rotate (angle : R)
| DrawImage (source : image) (sx sy sw sh dx dy dw dh : R)
| Restore.

(** [Math.ceil(img.width / 2)] on an integer width. *)
Definition splitGlassesImage (img : image) : halves_t :=
  let halfW := ((width img + 1) / 2)%Z in
  let rightW := (width img - halfW)%Z in
  {| left := {| width := halfW; height := height img |};
     right := {| width := rightW; height := height img |} |}.

(** [generateFallbackGlasses(style)]: a 400 x 160 canvas whatever the
    style, which only changes what is painted on it. *)
Definition generateFallbackGlasses : image := {| width := 400; height := 160 |}.

(** The locals of [drawGlasses], in the order of the source. *)

Definition anchorSpan (glassesImg : image) : R :=
  (ANCHOR_RIGHT_X - ANCHOR_LEFT_X) * IZR (width glassesImg).

Definition baseScale (eyeDistance : R) (glassesImg : image)
           (scaleMultiplier : R) : outcome R :=
  q <- eyeDistance // anchorSpan glassesImg ;;
  Ok (q * scaleMultiplier).

Definition lWidthScale (yaw : R) : R := 1 + yaw * YAW_WIDTH_FACTOR.
Definition rWidthScale (yaw : R) : R := 1 - yaw * YAW_WIDTH_FACTOR.
Definition lHeightScale (yaw : R) : R := 1 + yaw * YAW_HEIGHT_FACTOR.
Definition rHeightScale (yaw : R) : R := 1 - yaw * YAW_HEIGHT_FACTOR.

Definition drawGlasses (halves : halves_t) (transform : Pose.t)
           (glassesImg : image) (scaleMultiplier verticalOffset : R)
  : outcome (list canvas_op) :=
  let center := Pose.center transform in
  let eyeDistance := Pose.eyeDistance transform in
  let roll := Pose.roll transform in
  let yaw := Pose.yaw transform in
  baseScale <- baseScale eyeDistance glassesImg scaleMultiplier ;;
  let glassesW := IZR (width glassesImg) * baseScale in
  let glassesH := IZR (height glassesImg) * baseScale in
  let halfW := glassesW / 2 in
  let anchorOffsetY := (ANCHOR_Y - 0.5) * glassesH in
  (* Left half (extends from centre to the left) *)
  let lw := halfW * lWidthScale yaw in
  let lh := glassesH * lHeightScale yaw in
  (* Right half (extends from centre to the right) *)
  let rw := halfW * rWidthScale yaw in
  let rh := glassesH * rHeightScale yaw in
  Ok [ Save;
       Translate (Point.x center) (Point.y center + verticalOffset);
       Rotate roll;
       DrawImage (left halves) 0 0
                 (IZR (width (left halves))) (IZR (height (left halves)))
                 (- lw) (- lh / 2 + anchorOffsetY) lw lh;
       DrawImage (right halves) 0 0
                 (IZR (width (right halves))) (IZR (height (right halves)))
                 0 (- rh / 2 + anchorOffsetY) rw rh;
       Restore ].

(** The two [drawImage] calls of [splitGlassesImage], one on each of
    the new canvases: the source rectangle is cut out of [img] and
    painted at the origin of the half. *)
Definition splitGlassesImage_calls (img : image) : canvas_op * canvas_op :=
  let halfW := ((width img + 1) / 2)%Z in
  let rightW := (width img - halfW)%Z in
  (DrawImage img 0 0 (IZR halfW) (IZR (height img))
             0 0 (IZR halfW) (IZR (height img)),
   DrawImage img (IZR halfW) 0 (IZR rightW) (IZR (height img))
             0 0 (IZR rightW) (IZR (height img))).

(** *** Debug landmarks *)

(** Highlight keypoint indices considered important for glasses
    placement. *)
Definition KEY_INDICES : list nat :=
  [33; 133; 362; 263; 468; 473; 1; 234; 454; 10; 152]%nat.

(** The calls [drawDebugLandmarks] makes on the 2D context. *)
Inductive path_op : Type :=
| FillStyle (r g b : Z) (a : R)
| BeginPath
| Arc (x y radius startAngle endAngle : R)
| Fill.

(** One dot: [beginPath], a full circle, [fill]. *)
Definition dot (x y radius : R) : list path_op :=
  [BeginPath; Arc x y radius 0 (PI * 2); Fill].

(** The second loop: a larger dot on every key index the sequence
    holds. *)
Fixpoint highlight (keypoints : list Point.t) (indices : list nat)
  : outcome (list path_op) :=
  match indices with
  | [] => Ok []
  | idx :: rest =>
      ops <- (if Nat.ltb idx (length keypoints)
              then kp <- Js.index keypoints idx ;;
                   Ok (dot (Point.x kp) (Point.y kp) 3)
              else Ok []) ;;
      more <- highlight keypoints rest ;;
      Ok (ops ++ more)
  end.

Definition drawDebugLandmarks (keypoints : list Point.t)
  : outcome (list path_op) :=
  (* All points: small green dots *)
  let small :=
    flat_map (fun kp => dot (Point.x kp) (Point.y kp) 1.2) keypoints in
  (* Key points: larger red dots *)
  large <- highlight keypoints KEY_INDICES ;;
  Ok (FillStyle 0 255 128 0.45 :: small ++ FillStyle 255 60 60 0.9 :: large).

(** *** Observations used by the statements below *)



(** The radii of the circles drawn, in the order they are drawn. *)
Definition arc_radii (ops : list path_op) : list R :=
  flat_map (fun op => match op with
                      | Arc _ _ radius _ _ => [radius]
                      | _ => []
                      end) ops.

End Render.

(* ================================================================== *)
(** ** main.js *)
(* ================================================================== *)

Module Main.

(** [state.smooth] once seeded.  The standalone entry point also keeps
    the keypoints in it; the embedded (PNG) entry point does not. *)
Module Smooth.
Record t : Type := make {
  centerX : R;
  centerY : R;
  eyeDistance : R;
  roll : R;
  yaw : R;
  keypoints : option (list Point.t)
}.
End Smooth.

(** The [state] object ([stream], the camera handle, is left out). *)
Record state : Type := mkState {
  running : bool;
  frameCount : nat;
  detectionInterval : nat;
  debugMode : bool;
  frameScaleMultiplier : R;
  verticalOffset : R;
  currentFrameIndex : nat;
  smooth : option Smooth.t;
  smoothingFactor : R;
  lastFaceTime : R;
  faceTimeoutMs : R;
  lastRawTransform : option Pose.t;
  fpsCount : nat;
  fpsLast : R;
  fps : nat
}.

(** An entry of [glassesAssets]. *)
Record asset : Type := mkAsset { img : Render.image; halves : Render.halves_t }.

(** The page: [state], the module-level variables [modelReady] and
    [detecting], the loaded assets, and the number of [detectFace]
    calls whose continuation has not run yet (a ghost counter). *)
Record world : Type := mkWorld {
  st : state;
  modelReady : bool;
  detecting : bool;
  glassesAssets : list asset;
  inflight : nat
}.

(** What a callback does to the world outside [state]: the calls of
    [renderLoop] and [runDetection].  The texts of the status line and
    of the slider labels, the buttons, and the clearing of the canvas
    and of the info panel by [stopCamera] are not recorded. *)
Inductive effect : Type :=
| DrawVideoFrame
| DetectFace
| DrawGlasses (halves : Render.halves_t) (transform : Pose.t)
              (glassesImg : Render.image) (scaleMultiplier verticalOffset : R)
| InfoPanel (t : Pose.t)
| DrawDebugLandmarks (keypoints : list Point.t)
| InfoFps (fps : nat)
| RequestAnimationFrame.

(** *** Field updates *)

Definition set_running (v : bool) (s : state) : state :=
  mkState v (frameCount s) (detectionInterval s) (debugMode s)
          (frameScaleMultiplier s) (verticalOffset s) (currentFrameIndex s)
          (smooth s) (smoothingFactor s) (lastFaceTime s) (faceTimeoutMs s)
          (lastRawTransform s) (fpsCount s) (fpsLast s) (fps s).

Definition set_frameCount (v : nat) (s : state) : state :=
  mkState (running s) v (detectionInterval s) (debugMode s)
          (frameScaleMultiplier s) (verticalOffset s) (currentFrameIndex s)
          (smooth s) (smoothingFactor s) (lastFaceTime s) (faceTimeoutMs s)
          (lastRawTransform s) (fpsCount s) (fpsLast s) (fps s).

Definition set_debugMode (v : bool) (s : state) : state :=
  mkState (running s) (frameCount s) (detectionInterval s) v
          (frameScaleMultiplier s) (verticalOffset s) (currentFrameIndex s)
          (smooth s) (smoothingFactor s) (lastFaceTime s) (faceTimeoutMs s)
          (lastRawTransform s) (fpsCount s) (fpsLast s) (fps s).

Definition set_frameScaleMultiplier (v : R) (s : state) : state :=
  mkState (running s) (frameCount s) (detectionInterval s) (debugMode s)
          v (verticalOffset s) (currentFrameIndex s)
          (smooth s) (smoothingFactor s) (lastFaceTime s) (faceTimeoutMs s)
          (lastRawTransform s) (fpsCount s) (fpsLast s) (fps s).

Definition set_verticalOffset (v : R) (s : state) : state :=
  mkState (running s) (frameCount s) (detectionInterval s) (debugMode s)
          (frameScaleMultiplier s) v (currentFrameIndex s)
          (smooth s) (smoothingFactor s) (lastFaceTime s) (faceTimeoutMs s)
          (lastRawTransform s) (fpsCount s) (fpsLast s) (fps s).

Definition set_currentFrameIndex (v : nat) (s : state) : state :=
  mkState (running s) (frameCount s) (detectionInterval s) (debugMode s)
          (frameScaleMultiplier s) (verticalOffset s) v
          (smooth s) (smoothingFactor s) (lastFaceTime s) (faceTimeoutMs s)
          (lastRawTransform s) (fpsCount s) (fpsLast s) (fps s).

Definition set_smooth (v : option Smooth.t) (s : state) : state :=
  mkState (running s) (frameCount s) (detectionInterval s) (debugMode s)
          (frameScaleMultiplier s) (verticalOffset s) (currentFrameIndex s)
          v (smoothingFactor s) (lastFaceTime s) (faceTimeoutMs s)
          (lastRawTransform s) (fpsCount s) (fpsLast s) (fps s).

Definition set_lastFaceTime (v : R) (s : state) : state :=
  mkState (running s) (frameCount s) (detectionInterval s) (debugMode s)
          (frameScaleMultiplier s) (verticalOffset s) (currentFrameIndex s)
          (smooth s) (smoothingFactor s) v (faceTimeoutMs s)
          (lastRawTransform s) (fpsCount s) (fpsLast s) (fps s).

Definition set_lastRawTransform (v : option Pose.t) (s : state) : state :=
  mkState (running s) (frameCount s) (detectionInterval s) (debugMode s)
          (frameScaleMultiplier s) (verticalOffset s) (currentFrameIndex s)
          (smooth s) (smoothingFactor s) (lastFaceTime s) (faceTimeoutMs s)
          v (fpsCount s) (fpsLast s) (fps s).

Definition set_fps (count : nat) (last : R) (v : nat) (s : state) : state :=
  mkState (running s) (frameCount s) (detectionInterval s) (debugMode s)
          (frameScaleMultiplier s) (verticalOffset s) (currentFrameIndex s)
          (smooth s) (smoothingFactor s) (lastFaceTime s) (faceTimeoutMs s)
          (lastRawTransform s) count last v.

Definition set_st (s : state) (w : world) : world :=
  mkWorld s (modelReady w) (detecting w) (glassesAssets w) (inflight w).

Definition set_modelReady (v : bool) (w : world) : world :=
  mkWorld (st w) v (detecting w) (glassesAssets w) (inflight w).

(** [detecting = v], with the ghost counter moved along. *)
Definition set_detecting (v : bool) (n : nat) (w : world) : world :=
  mkWorld (st w) (modelReady w) v (glassesAssets w) n.

(** *** Transform smoothing *)

Definition lerp (a b t : R) : R := a + (b - a) * t.

Definition buildSmoothed (s : Smooth.t) (keypoints : list Point.t) : Pose.t :=
  {| Pose.center := {| Point.x := Smooth.centerX s;
                       Point.y := Smooth.centerY s;
                       Point.z := None |};
     Pose.eyeDistance := Smooth.eyeDistance s;
     Pose.roll := Smooth.roll s;
     Pose.yaw := Smooth.yaw s;
     Pose.keypoints := keypoints |}.

(** [applySmoothing] of the standalone entry point. *)
Definition applySmoothing (raw : Transform.t) (s : state) : state * Pose.t :=
  let a := smoothingFactor s in
  match smooth s with
  | None =>
      (* First frame: seed with raw values. *)
      let seeded :=
        {| Smooth.centerX := Point.x (Transform.center raw);
           Smooth.centerY := Point.y (Transform.center raw);
           Smooth.eyeDistance := Transform.eyeDistance raw;
           Smooth.roll := Transform.roll raw;
           Smooth.yaw := Transform.yaw raw;
           Smooth.keypoints := Some (Transform.keypoints raw) |} in
      (set_smooth (Some seeded) s, buildSmoothed seeded (Transform.keypoints raw))
  | Some s0 =>
      let s1 :=
        {| Smooth.centerX := lerp (Smooth.centerX s0) (Point.x (Transform.center raw)) a;
           Smooth.centerY := lerp (Smooth.centerY s0) (Point.y (Transform.center raw)) a;
           Smooth.eyeDistance := lerp (Smooth.eyeDistance s0) (Transform.eyeDistance raw) a;
           Smooth.roll := lerp (Smooth.roll s0) (Transform.roll raw) a;
           Smooth.yaw := lerp (Smooth.yaw s0) (Transform.yaw raw) a;
           Smooth.keypoints := Some (Transform.keypoints raw) |} in
      (set_smooth (Some s1) s, buildSmoothed s1 (Transform.keypoints raw))
  end.

(** [applySmoothing] of the embedded (PNG) entry point: the same, but
    [state.smooth] never gets a [keypoints] property. *)
Definition applySmoothing_png (raw : Transform.t) (s : state) : state * Pose.t :=
  let a := smoothingFactor s in
  match smooth s with
  | None =>
      let seeded :=
        {| Smooth.centerX := Point.x (Transform.center raw);
           Smooth.centerY := Point.y (Transform.center raw);
           Smooth.eyeDistance := Transform.eyeDistance raw;
           Smooth.roll := Transform.roll raw;
           Smooth.yaw := Transform.yaw raw;
           Smooth.keypoints := None |} in
      (set_smooth (Some seeded) s, buildSmoothed seeded (Transform.keypoints raw))
  | Some s0 =>
      let s1 :=
        {| Smooth.centerX := lerp (Smooth.centerX s0) (Point.x (Transform.center raw)) a;
           Smooth.centerY := lerp (Smooth.centerY s0) (Point.y (Transform.center raw)) a;
           Smooth.eyeDistance := lerp (Smooth.eyeDistance s0) (Transform.eyeDistance raw) a;
           Smooth.roll := lerp (Smooth.roll s0) (Transform.roll raw) a;
           Smooth.yaw := lerp (Smooth.yaw s0) (Transform.yaw raw) a;
           Smooth.keypoints := Smooth.keypoints s0 |} in
      (set_smooth (Some s1) s, buildSmoothed s1 (Transform.keypoints raw))
  end.

(** *** Glasses assets *)

(** [loaded] is what [loadImage] resolved to, if it did.  An image
    smaller than 20 px either way counts as missing. *)
Definition tryLoadImage (loaded : option Render.image)
           (fallback : Render.image) : Render.image :=
  match loaded with
  | Some image =>
      if Z.ltb (Render.width image) 20 || Z.ltb (Render.height image) 20
      then fallback
      else image
  | None => fallback
  end.

(** One entry per URL that was tried. *)
Definition loadGlassesAssets (loaded : list (option Render.image)) : list asset :=
  map (fun l =>
         let image := tryLoadImage l Render.generateFallbackGlasses in
         {| img := image; halves := Render.splitGlassesImage image |})
      loaded.

(** *** Render loop *)

(** [runDetection] up to its [await]: the guard, then the call of
    [detectFace]. *)
Definition runDetection (w : world) : world * list effect :=
  if negb (running (st w)) || negb (modelReady w) || detecting w then (w, [])
  else (set_detecting true (S (inflight w)) w, [DetectFace]).

(** [runDetection] from its [await] on: [face] is what [detectFace]
    resolved to and [now] is the clock at that moment.  An exception of
    [extractFaceTransform] skips the two assignments; the [finally]
    block runs in every case. *)
Definition runDetection_resume (face : option Face.face) (now : R) (w : world)
  : world :=
  let w1 :=
    match face with
    | Some f =>
        match Face.extractFaceTransform (Face.keypoints f) with
        | Ok raw =>
            let '(s1, smoothed) := applySmoothing raw (st w) in
            set_st (set_lastFaceTime now
                      (set_lastRawTransform (Some smoothed) s1)) w
        | _ => w
        end
    | None => w
    end in
  set_detecting false (Nat.pred (inflight w1)) w1.

(** One run of [renderLoop]; [now] is [performance.now()]. *)
Definition renderLoop (now : R) (w : world) : world * list effect :=
  if negb (running (st w)) then (w, [])
  else
    (* 1. Draw video frame: the first effect of the list below *)
    (* 2. Kick off detection (non-blocking) *)
    let w1 := set_st (set_frameCount (S (frameCount (st w))) (st w)) w in
    let '(w2, detection) :=
      if Js.mod_is_zero (frameCount (st w1)) (detectionInterval (st w1))
      then runDetection w1
      else (w1, []) in
    (* 3. Glasses overlay *)
    let elapsed := now - lastFaceTime (st w2) in
    let overlay :=
      match lastRawTransform (st w2) with
      | Some t =>
          if Rlt_dec elapsed (faceTimeoutMs (st w2)) then
            match nth_error (glassesAssets w2) (currentFrameIndex (st w2)) with
            | Some gl =>
                [DrawGlasses (halves gl) t (img gl)
                             (frameScaleMultiplier (st w2))
                             (verticalOffset (st w2))]
            | None => []
            end
            ++ [InfoPanel t]
            ++ (if debugMode (st w2)
                then [DrawDebugLandmarks (Pose.keypoints t)]
                else [])
          else []
      | None => []
      end in
    (* 4. FPS counter *)
    let count := S (fpsCount (st w2)) in
    let '(s3, info) :=
      if Rle_dec 1000 (now - fpsLast (st w2))
      then (set_fps 0 now count (st w2), [InfoFps count])
      else (set_fps count (fpsLast (st w2)) (fps (st w2)) (st w2), []) in
    (set_st s3 w2,
     [DrawVideoFrame] ++ detection ++ overlay ++ info ++ [RequestAnimationFrame]).

Definition startCamera (w : world) : world * list effect :=
  (set_st (set_frameCount 0 (set_running true (st w))) w,
   [RequestAnimationFrame]).

Definition stopCamera (w : world) : world :=
  set_st (set_lastRawTransform None
            (set_smooth None (set_running false (st w)))) w.

(** *** The page as a transition system *)

Definition initial_state (t0 : R) : state :=
  {| running := false;
     frameCount := 0;
     detectionInterval := 2;
     debugMode := false;
     frameScaleMultiplier := 1.0;
     verticalOffset := 0;
     currentFrameIndex := 0;
     smooth := None;
     smoothingFactor := 0.35;
     lastFaceTime := 0;
     faceTimeoutMs := 500;
     lastRawTransform := None;
     fpsCount := 0;
     fpsLast := t0;
     fps := 0 |}.

(** The page when the script has been loaded at clock [t0]. *)
Definition initial (t0 : R) : world :=
  {| st := initial_state t0;
     modelReady := false;
     detecting := false;
     glassesAssets := [];
     inflight := 0 |}.

(** The callbacks the browser may run.  An animation frame, a click
    or a slider move may come at any time; a detection can only
    complete when one is outstanding. *)
Inductive event : Type :=
| Init (loaded : list (option Render.image))
| StartCamera
| StopCamera
| AnimationFrame (now : R)
| DetectionDone (face : option Face.face) (now : R)
| DebugToggle (checked : bool)
| ScaleSlider (value : R)
| OffsetSlider (value : R)
| FrameSelect (index : nat).

Definition step (e : event) (w : world) : option (world * list effect) :=
  match e with
  | Init loaded =>
      Some (mkWorld (st w) true (detecting w)
                    (glassesAssets w ++ loadGlassesAssets loaded)
                    (inflight w), [])
  | StartCamera => Some (startCamera w)
  | StopCamera => Some (stopCamera w, [])
  | AnimationFrame now => Some (renderLoop now w)
  | DetectionDone face now =>
      match inflight w with
      | O => None
      | S _ => Some (runDetection_resume face now w, [])
      end
  | DebugToggle b => Some (set_st (set_debugMode b (st w)) w, [])
  | ScaleSlider v => Some (set_st (set_frameScaleMultiplier v (st w)) w, [])
  | OffsetSlider v => Some (set_st (set_verticalOffset v (st w)) w, [])
  | FrameSelect i => Some (set_st (set_currentFrameIndex i (st w)) w, [])
  end.

Inductive reachable (t0 : R) : world -> Prop :=
| reachable_initial : reachable t0 (initial t0)
| reachable_step : forall w e w' effects,
    reachable t0 w -> step e w = Some (w', effects) -> reachable t0 w'.

(** The page after a sequence of callbacks; one that cannot run (a
    completion with nothing outstanding) is passed over. *)
Fixpoint after (events : list event) (w : world) : world :=
  match events with
  | [] => w
  | e :: rest =>
      match step e w with
      | Some (w', _) => after rest w'
      | None => after rest w
      end
  end.

(** *** Observations used by the statements below *)

(** The overlay is drawn by this run of the loop. *)
Definition is_DrawGlasses (e : effect) : bool :=
  match e with
  | DrawGlasses _ _ _ _ _ => true
  | _ => false
  end.

Definition overlay_drawn (effects : list effect) : bool :=
  existsb is_DrawGlasses effects.

(** What the loop needs to draw the overlay at clock [now]: it runs,
    a pose is held, the pose is younger than the grace period, and the
    selected glasses are loaded. *)
Definition overlay_visible (now : R) (w : world) : Prop :=
  running (st w) = true /\
  (exists t, lastRawTransform (st w) = Some t) /\
  now - lastFaceTime (st w) < faceTimeoutMs (st w) /\
  (exists gl, nth_error (glassesAssets w) (currentFrameIndex (st w)) = Some gl).

(** A detection is started by this run of the loop. *)
Definition is_DetectFace (e : effect) : bool :=
  match e with
  | DetectFace => true
  | _ => false
  end.

Definition detection_started (effects : list effect) : bool :=
  existsb is_DetectFace effects.

(** Every loaded asset is at least 20 px wide and high and carries the
    halves of its own image. *)
Definition assets_sized (w : world) : Prop :=
  Forall (fun gl => (20 <= Render.width (img gl))%Z /\
                    (20 <= Render.height (img gl))%Z /\
                    halves gl = Render.splitGlassesImage (img gl))
         (glassesAssets w).

(** The tuning constants have the values the script gave them. *)
Definition tuned (s : state) : Prop :=
  detectionInterval s = 2%nat /\ smoothingFactor s = 0.35 /\ faceTimeoutMs s = 500.

(** The guard flag tells whether a detection is outstanding. *)
Definition guard_consistent (w : world) : Prop :=
  inflight w = if detecting w then 1%nat else 0%nat.

(** The state after [n] more calls of [applySmoothing] on the same raw
    pose. *)
Fixpoint feed (raw : Transform.t) (n : nat) (s : state) : state :=
  match n with
  | O => s
  | S k => fst (applySmoothing raw (feed raw k s))
  end.

(** The five persisted scalar fields. *)
Inductive scalar : Type := CenterX | CenterY | EyeDistance | Roll | Yaw.

Definition smoothed_field (f : scalar) (s : Smooth.t) : R :=
  match f with
  | CenterX => Smooth.centerX s
  | CenterY => Smooth.centerY s
  | EyeDistance => Smooth.eyeDistance s
  | Roll => Smooth.roll s
  | Yaw => Smooth.yaw s
  end.

Definition raw_field (f : scalar) (raw : Transform.t) : R :=
  match f with
  | CenterX => Point.x (Transform.center raw)
  | CenterY => Point.y (Transform.center raw)
  | EyeDistance => Transform.eyeDistance raw
  | Roll => Transform.roll raw
  | Yaw => Transform.yaw raw
  end.

Definition pose_field (f : scalar) (p : Pose.t) : R :=
  match f with
  | CenterX => Point.x (Pose.center p)
  | CenterY => Point.y (Pose.center p)
  | EyeDistance => Pose.eyeDistance p
  | Roll => Pose.roll p
  | Yaw => Pose.yaw p
  end.

(** Distance between a smoothed field and the raw one; 0 before the
    state is seeded, when nothing is smoothed yet. *)
Definition field_distance (f : scalar) (raw : Transform.t) (s : state) : R :=
  match smooth s with
  | Some sm => Rabs (smoothed_field f sm - raw_field f raw)
  | None => 0
  end.

(** The descriptors produced by a run of detections: every keypoint
    sequence goes through the extractor, and what it returns through
    the smoother; a sequence the extractor fails on is skipped. *)
Fixpoint descriptors (frames : list (list Point.t)) (s : state)
  : list (Transform.t * Pose.t) :=
  match frames with
  | [] => []
  | keypoints :: rest =>
      match Face.extractFaceTransform keypoints with
      | Ok raw =>
          let '(s1, smoothed) := applySmoothing raw s in
          (raw, smoothed) :: descriptors rest s1
      | _ => descriptors rest s
      end
  end.

(** The calls made on the outside by a sequence of callbacks, in
    order. *)
Fixpoint effects_of (events : list event) (w : world) : list effect :=
  match events with
  | [] => []
  | e :: rest =>
      match step e w with
      | Some (w', out) => out ++ effects_of rest w'
      | None => effects_of rest w
      end
  end.

Definition is_DetectionDone (e : event) : bool :=
  match e with
  | DetectionDone _ _ => true
  | _ => false
  end.

Definition is_StartCamera (e : event) : bool :=
  match e with
  | StartCamera => true
  | _ => false
  end.

(** The calls that keep the loop going: painting on the canvas, calling
    the detector, asking for the next animation frame.  The lines of
    the info panel are not among them. *)
Definition is_loop_call (e : effect) : bool :=
  match e with
  | DrawVideoFrame | DetectFace | DrawGlasses _ _ _ _ _
  | DrawDebugLandmarks _ | RequestAnimationFrame => true
  | InfoPanel _ | InfoFps _ => false
  end.

(** The descriptors handed back for a run of raw transforms, by either
    revision of [applySmoothing]. *)
Fixpoint smoothAll (apply : Transform.t -> state -> state * Pose.t)
         (raws : list Transform.t) (s : state) : list Pose.t :=
  match raws with
  | [] => []
  | raw :: rest =>
      let '(s1, smoothed) := apply raw s in
      smoothed :: smoothAll apply rest s1
  end.

(** Two states that smooth alike: same blend factor, same persisted
    scalars. *)
Definition same_scalars (s s' : state) : Prop :=
  smoothingFactor s = smoothingFactor s' /\
  forall f, option_map (smoothed_field f) (smooth s) =
            option_map (smoothed_field f) (smooth s').

End Main.

(* ================================================================== *)
(** ** render3d.js *)
(* ================================================================== *)

(** The Three.js renderer of a GLB glasses model.  The library objects
    are records of the properties this module reads or writes; what
    [renderer.render] paints is the model as it stands, when the scene
    holds it. *)
Module Render3D.

Record vec3 : Type := mkVec3 { vx : R; vy : R; vz : R }.

(** A [THREE.Object3D]. *)
Record object3d : Type := mkObject3d {
  position : vec3;
  scale : vec3;
  rotation : vec3       (* Euler angles x, y, z *)
}.

(** A [THREE.OrthographicCamera] and its [position.z]. *)
Record camera_t : Type := mkCamera {
  cam_left : R;
  cam_right : R;
  cam_top : R;
  cam_bottom : R;
  cam_near : R;
  cam_far : R;
  cam_z : R
}.

Record canvas_t : Type := mkCanvas { canvas_width : R; canvas_height : R }.

Record renderer_t : Type := mkRenderer {
  size_width : R;
  size_height : R;
  pixelRatio : R
}.

Record light : Type := mkLight {
  intensity : R;
  light_position : option vec3     (* directional lights only *)
}.

(** The scene: its lights, and whether the object [glassesModel] refers
    to is one of its children (the only object this module ever adds
    besides the lights). *)
Record scene_t : Type := mkScene { lights : list light; holds_model : bool }.

(** The module-level singletons. *)
Record t : Type := mkT {
  scene : option scene_t;
  camera : option camera_t;
  renderer : option renderer_t;
  glassesModel : option object3d;
  overlayCanvas : option canvas_t;
  normalizedWidthUnit : R
}.

(** The module as it is loaded. *)
Definition initial : t :=
  {| scene := None;
     camera := None;
     renderer := None;
     glassesModel := None;
     overlayCanvas := None;
     normalizedWidthUnit := 1 |}.

(** What reaches the WebGL canvas. *)
Inductive draw : Type :=
| Render (model : option object3d)     (* [renderer.render(scene, camera)] *)
| Clear.                               (* [renderer.clear()] *)

(** Fully tear down Three.js resources and remove the overlay canvas. *)
Definition dispose3DRenderer (s : t) : t :=
  let s1 :=
    match glassesModel s with
    | Some _ =>
        {| scene := option_map (fun sc => {| lights := lights sc;
                                             holds_model := false |}) (scene s);
           camera := camera s;
           renderer := renderer s;
           glassesModel := None;
           overlayCanvas := overlayCanvas s;
           normalizedWidthUnit := normalizedWidthUnit s |}
    | None => s
    end in
  let s2 :=
    match renderer s1 with
    | Some _ =>
        {| scene := scene s1;
           camera := camera s1;
           renderer := None;
           glassesModel := glassesModel s1;
           overlayCanvas := overlayCanvas s1;
           normalizedWidthUnit := normalizedWidthUnit s1 |}
    | None => s1
    end in
  {| scene := None;
     camera := None;
     renderer := renderer s2;
     glassesModel := glassesModel s2;
     overlayCanvas := None;
     normalizedWidthUnit := 1 |}.

(** Create the Three.js WebGL canvas; [devicePixelRatio] is the
    window's. *)
Definition init3DRenderer (width height devicePixelRatio : R) (s : t) : t :=
  (* Clean up any previous instance first *)
  let s0 := match renderer s with
            | Some _ => dispose3DRenderer s
            | None => s
            end in
  {| overlayCanvas := Some {| canvas_width := width; canvas_height := height |};
     (* Three.js orthographic camera in pixel-space *)
     camera := Some {| cam_left := - width / 2;
                       cam_right := width / 2;
                       cam_top := height / 2;
                       cam_bottom := - height / 2;
                       cam_near := 1;
                       cam_far := 2000;
                       cam_z := 1000 |};
     scene := Some {| lights :=
                        [ {| intensity := 1.4; light_position := None |};
                          {| intensity := 0.9;
                             light_position := Some (mkVec3 50 100 200) |};
                          {| intensity := 0.4;
                             light_position := Some (mkVec3 (-50) (-50) 100) |} ];
                      holds_model := false |};
     renderer := Some {| size_width := width;
                         size_height := height;
                         pixelRatio := Rmin devicePixelRatio 2 |};
     glassesModel := glassesModel s0;
     normalizedWidthUnit := normalizedWidthUnit s0 |}.

(** The [onLoad] callback of [loadGLBModel]: [gltf_scene] is the loaded
    group, [size] and [centre] are what its bounding box measures.  The
    first component is the module as the callback leaves it, also when
    it throws. *)
Definition loadGLBModel (gltf_scene : object3d) (size centre : vec3) (s : t)
  : t * outcome object3d :=
  (* Dispose previous model *)
  let removed :=
    match glassesModel s with
    | Some _ =>
        match scene s with
        | Some sc =>
            Ok {| scene := Some {| lights := lights sc; holds_model := false |};
                  camera := camera s;
                  renderer := renderer s;
                  glassesModel := glassesModel s;
                  overlayCanvas := overlayCanvas s;
                  normalizedWidthUnit := normalizedWidthUnit s |}
        | None => TypeError
        end
    | None => Ok s
    end in
  match removed with
  | Ok s1 =>
      (* Measure natural width and normalise to 1 unit: [size.x || 1] *)
      match 1 // (if Req_dec_T (vx size) 0 then 1 else vx size) with
      | Ok unit =>
          (* Centre the model on its local origin *)
          let model :=
            {| position :=
                 {| vx := vx (position gltf_scene) - vx centre;
                    vy := vy (position gltf_scene) - vy centre;
                    vz := vz (position gltf_scene) - vz centre |};
               scale := scale gltf_scene;
               rotation := rotation gltf_scene |} in
          match scene s1 with
          | Some sc =>
              ({| scene := Some {| lights := lights sc; holds_model := true |};
                  camera := camera s1;
                  renderer := renderer s1;
                  glassesModel := Some model;
                  overlayCanvas := overlayCanvas s1;
                  normalizedWidthUnit := unit |},
               Ok model)
          | None =>
              ({| scene := None;
                  camera := camera s1;
                  renderer := renderer s1;
                  glassesModel := Some model;
                  overlayCanvas := overlayCanvas s1;
                  normalizedWidthUnit := unit |},
               TypeError)
          end
      | TypeError =>
          ({| scene := scene s1;
              camera := camera s1;
              renderer := renderer s1;
              glassesModel := Some gltf_scene;
              overlayCanvas := overlayCanvas s1;
              normalizedWidthUnit := normalizedWidthUnit s1 |}, TypeError)
      | DivByZero =>
          ({| scene := scene s1;
              camera := camera s1;
              renderer := renderer s1;
              glassesModel := Some gltf_scene;
              overlayCanvas := overlayCanvas s1;
              normalizedWidthUnit := normalizedWidthUnit s1 |}, DivByZero)
      end
  | TypeError => (s, TypeError)
  | DivByZero => (s, DivByZero)
  end.

(** Position and orient the loaded GLB to match the current face
    transform; a parameter left out takes its default. *)
Definition update3DGlasses (transform : Pose.t) (canvasWidth canvasHeight : R)
           (scaleMultiplier verticalOffset : option R) (s : t) : t * list draw :=
  let scaleMultiplier := match scaleMultiplier with Some v => v | None => 1.0 end in
  let verticalOffset := match verticalOffset with Some v => v | None => 0 end in
  match glassesModel s, renderer s, scene s, camera s with
  | Some model, Some _, Some sc, Some _ =>
      let center := Pose.center transform in
      let eyeDistance := Pose.eyeDistance transform in
      let roll := Pose.roll transform in
      let yaw := Pose.yaw transform in
      (* Convert top-left pixel coords to orthographic centre-origin space *)
      let x := Point.x center - canvasWidth / 2 in
      let y := - (Point.y center + verticalOffset - canvasHeight / 2) in
      let scale := eyeDistance * normalizedWidthUnit s * 2.4 * scaleMultiplier in
      let model1 :=
        {| position := {| vx := x; vy := y; vz := 0 |};
           scale := {| vx := scale; vy := scale; vz := scale |};
           rotation := {| vx := vx (rotation model);
                          vy := - yaw * PI * 0.28;
                          vz := - roll |} |} in
      ({| scene := scene s;
          camera := camera s;
          renderer := renderer s;
          glassesModel := Some model1;
          overlayCanvas := overlayCanvas s;
          normalizedWidthUnit := normalizedWidthUnit s |},
       [Render (if holds_model sc then Some model1 else None)])
  | _, _, _, _ => (s, [])
  end.

(** Clear the overlay canvas. *)
Definition clear3DOverlay (s : t) : list draw :=
  match renderer s with
  | Some _ => [Clear]
  | None => []
  end.

(** True if a model is loaded and ready to render. *)
Definition is3DReady (s : t) : bool :=
  match renderer s, glassesModel s with
  | Some _, Some _ => true
  | _, _ => false
  end.

(** *** The module under any sequence of calls *)

Inductive call : Type :=
| Init3DRenderer (width height devicePixelRatio : R)
| LoadGLBModel (gltf_scene : object3d) (size centre : vec3)
| Update3DGlasses (transform : Pose.t) (canvasWidth canvasHeight : R)
                  (scaleMultiplier verticalOffset : option R)
| Clear3DOverlay
| Dispose3DRenderer.

Definition run_call (c : call) (s : t) : t :=
  match c with
  | Init3DRenderer width height dpr => init3DRenderer width height dpr s
  | LoadGLBModel gltf_scene size centre =>
      fst (loadGLBModel gltf_scene size centre s)
  | Update3DGlasses transform w h sm vo =>
      fst (update3DGlasses transform w h sm vo s)
  | Clear3DOverlay => s
  | Dispose3DRenderer => dispose3DRenderer s
  end.

Fixpoint run (calls : list call) (s : t) : t :=
  match calls with
  | [] => s
  | c :: rest => run rest (run_call c s)
  end.

(** The renderer, the scene, the camera and the canvas exist together,
    and a scene that holds the model implies there is a model. *)
Definition consistent (s : t) : Prop :=
  (renderer s = None <-> scene s = None) /\
  (renderer s = None <-> camera s = None) /\
  (renderer s = None <-> overlayCanvas s = None) /\
  (forall sc, scene s = Some sc -> holds_model sc = true ->
              glassesModel s <> None).

End Render3D.

(* ================================================================== *)
(** ** editor.js *)
(* ================================================================== *)

(** The image editor: the work canvas and its history, the view (zoom
    and pan), the brushes that act on pixels, auto-crop.  An
    [ImageData] is the flat array of RGBA bytes the code indexes with
    [(y * w + x) * 4 + c]; the bitmap of a canvas is held the same way.
    The tool state, panning and the file, download and AI calls are
    left out. *)
Module Editor.

Record ImageData : Type := mkImageData {
  width : nat;
  height : nat;
  data : list Z
}.

(** [(y * w + x) * 4 + c]. *)
Definition offset (w x y c : nat) : nat := (y * w + x) * 4 + c.

(** *** The canvas calls the code relies on

    A bitmap holds the bytes that were written to it.  A browser
    keeps colours premultiplied by alpha, so the colour bytes of a
    pixel that is not opaque may come back changed from
    [putImageData] (all zero when its alpha is 0); this is left out,
    and the statement on [eraseCircle], which writes such pixels, is
    about alpha alone. *)

(** Channel [c] of the pixel [(x, y)] of a bitmap; transparent black
    outside it. *)
Definition channel (img : ImageData) (x y c : nat) : Z :=
  if Nat.ltb x (width img) && Nat.ltb y (height img)
  then nth (offset (width img) x y c) (data img) 0%Z
  else 0%Z.

(** The bitmap [w] wide and [h] high whose channels are given by [f]. *)
Definition bitmap (w h : nat) (f : nat -> nat -> nat -> Z) : ImageData :=
  {| width := w;
     height := h;
     data := flat_map (fun y =>
               flat_map (fun x => map (f x y) [0; 1; 2; 3]%nat) (seq 0 w))
               (seq 0 h) |}.

(** [ctx.getImageData(sx, sy, sw, sh)]. *)
Definition getImageData (canvas : ImageData) (sx sy sw sh : nat) : ImageData :=
  bitmap sw sh (fun x y c => channel canvas (sx + x) (sy + y) c).

(** [ctx.putImageData(img, dx, dy)]: the pixels of [img] that fall on
    the canvas replace what was there. *)
Definition putImageData (img : ImageData) (dx dy : nat) (canvas : ImageData)
  : ImageData :=
  bitmap (width canvas) (height canvas)
         (fun x y c =>
            if Nat.leb dx x && Nat.ltb x (dx + width img) &&
               Nat.leb dy y && Nat.ltb y (dy + height img)
            then channel img (x - dx) (y - dy) c
            else channel canvas x y c).

(** [canvas.width = w; canvas.height = h]: a cleared bitmap. *)
Definition resized (w h : nat) : ImageData := bitmap w h (fun _ _ _ => 0%Z).

Definition ceil (x : R) : Z := (- Int_part (- x))%Z.
Definition round (x : R) : Z := Int_part (x + 0.5).

(** *** State *)

(** View state (zoom + pan applied to the display canvas). *)
Record view_t : Type := mkView {
  scale : R;
  minScale : R;
  maxScale : R;
  panX : R;
  panY : R
}.

Record editor : Type := mkEditor {
  workCanvas : ImageData;
  originalImageData : option ImageData;
  history : list ImageData;
  histIndex : Z;
  view : view_t;
  imageLoaded : bool;
  editorCanvas_width : Z;
  editorCanvas_height : Z
}.

Definition MAX_HISTORY : nat := 30.

Definition set_workCanvas (c : ImageData) (e : editor) : editor :=
  mkEditor c (originalImageData e) (history e) (histIndex e) (view e)
           (imageLoaded e) (editorCanvas_width e) (editorCanvas_height e).

Definition set_originalImageData (o : option ImageData) (e : editor) : editor :=
  mkEditor (workCanvas e) o (history e) (histIndex e) (view e)
           (imageLoaded e) (editorCanvas_width e) (editorCanvas_height e).

Definition set_history (h : list ImageData) (i : Z) (e : editor) : editor :=
  mkEditor (workCanvas e) (originalImageData e) h i (view e)
           (imageLoaded e) (editorCanvas_width e) (editorCanvas_height e).

Definition set_histIndex (i : Z) (e : editor) : editor :=
  mkEditor (workCanvas e) (originalImageData e) (history e) i (view e)
           (imageLoaded e) (editorCanvas_width e) (editorCanvas_height e).

Definition set_view (v : view_t) (e : editor) : editor :=
  mkEditor (workCanvas e) (originalImageData e) (history e) (histIndex e) v
           (imageLoaded e) (editorCanvas_width e) (editorCanvas_height e).

Definition set_imageLoaded (b : bool) (e : editor) : editor :=
  mkEditor (workCanvas e) (originalImageData e) (history e) (histIndex e)
           (view e) b (editorCanvas_width e) (editorCanvas_height e).

Definition set_editorCanvas (w h : Z) (e : editor) : editor :=
  mkEditor (workCanvas e) (originalImageData e) (history e) (histIndex e)
           (view e) (imageLoaded e) w h.

(** *** What the functions do outside the state *)

Inductive shade : Type := Dark | Light.      (* '#c0c0c0' and '#ebebeb' *)

(** Calls on the 2D context of the display canvas. *)
Inductive display_op : Type :=
| FillRect (fillStyle : shade) (x y w h : R)
| Save
| Translate (x y : R)
| Scale (x y : R)
| DrawWorkCanvas (x y : R)           (* [drawImage(workCanvas, x, y)] *)
| Restore
| StrokeRect (x y w h : R)
| ZoomLabel (percent : Z).

(** The [disabled] flags [updateButtons] sets. *)
Record buttons : Type := mkButtons {
  btnUndo : bool;
  btnRedo : bool;
  btnAutoRemove : bool;
  btnDownload : bool;
  btnAutoCrop : bool
}.

Inductive effect : Type :=
| Display (op : display_op)
| Buttons (disabled : buttons)
| Alert
| Throws.

(** *** Display rendering *)

(** The checkerboard: squares of 14 px over the whole display canvas. *)
Definition checkerboard (cw ch : Z) : list display_op :=
  let sq := 14%Z in
  flat_map (fun j =>
    map (fun i =>
           FillRect (if Nat.even (i + j) then Dark else Light)
                    (IZR (Z.of_nat i * sq)) (IZR (Z.of_nat j * sq))
                    (IZR sq) (IZR sq))
        (seq 0 (Z.to_nat ((cw + sq - 1) / sq))))
    (seq 0 (Z.to_nat ((ch + sq - 1) / sq))).

(** Draw the current work canvas onto the display canvas with zoom/pan;
    [cw] and [ch] are the client size of the container. *)
Definition redraw (cw ch : Z) (e : editor) : editor * list effect :=
  if negb (imageLoaded e) then (e, [])
  else
    (* Fill display canvas to container size *)
    let e1 := set_editorCanvas cw ch e in
    let W := INR (width (workCanvas e1)) in
    let H := INR (height (workCanvas e1)) in
    let v := view e1 in
    (* Thin border around the image *)
    let iw := W * scale v in
    let ih := H * scale v in
    let ix := panX v + IZR cw / 2 - iw / 2 in
    let iy := panY v + IZR ch / 2 - ih / 2 in
    (e1,
     map Display
       (checkerboard cw ch ++
        (* Work canvas with transform (pan + zoom, origin at display centre) *)
        [ Save;
          Translate (panX v + IZR cw / 2) (panY v + IZR ch / 2);
          Scale (scale v) (scale v);
          DrawWorkCanvas (- W / 2) (- H / 2);
          Restore;
          StrokeRect ix iy iw ih;
          (* Update zoom badge *)
          ZoomLabel (round (scale v * 100)) ])).

(** *** Coordinate mapping (display canvas to work canvas pixels) *)


(** *** History (undo / redo) *)

Definition updateButtons (e : editor) : buttons :=
  {| btnUndo := Z.leb (histIndex e) 0;
     btnRedo := Z.leb (Z.of_nat (length (history e)) - 1) (histIndex e);
     btnAutoRemove := negb (imageLoaded e);
     btnDownload := negb (imageLoaded e);
     btnAutoCrop := negb (imageLoaded e) |}.

(** What [arr.splice(start)] leaves in the array. *)
Definition splice {A : Type} (start : Z) (arr : list A) : list A :=
  if Z.ltb start 0
  then firstn (Z.to_nat (Z.max (Z.of_nat (length arr) + start) 0)) arr
  else firstn (Z.to_nat start) arr.

Definition saveHistory (e : editor) : editor * list effect :=
  (* Drop any forward states *)
  let kept := splice (histIndex e + 1) (history e) in
  let pushed :=
    kept ++ [getImageData (workCanvas e) 0 0
                          (width (workCanvas e)) (height (workCanvas e))] in
  let h := if Nat.ltb MAX_HISTORY (length pushed) then tl pushed else pushed in
  let e1 := set_history h (Z.of_nat (length h) - 1) e in
  (e1, [Buttons (updateButtons e1)]).

Definition undo (cw ch : Z) (e : editor) : editor * list effect :=
  if Z.leb (histIndex e) 0 then (e, [])
  else
    let e1 := set_histIndex (histIndex e - 1) e in
    match nth_error (history e1) (Z.to_nat (histIndex e1)) with
    | Some img =>
        let e2 := set_workCanvas (putImageData img 0 0 (workCanvas e1)) e1 in
        let '(e3, painted) := redraw cw ch e2 in
        (e3, painted ++ [Buttons (updateButtons e3)])
    | None => (e1, [Throws])
    end.

Definition redo (cw ch : Z) (e : editor) : editor * list effect :=
  if Z.leb (Z.of_nat (length (history e)) - 1) (histIndex e) then (e, [])
  else
    let e1 := set_histIndex (histIndex e + 1) e in
    match (if Z.ltb (histIndex e1) 0 then None
           else nth_error (history e1) (Z.to_nat (histIndex e1))) with
    | Some img =>
        let e2 := set_workCanvas (putImageData img 0 0 (workCanvas e1)) e1 in
        let '(e3, painted) := redraw cw ch e2 in
        (e3, painted ++ [Buttons (updateButtons e3)])
    | None => (e1, [Throws])
    end.

(** *** Zoom and pan *)

Definition fitToView (cw ch : Z) (e : editor) : outcome (editor * list effect) :=
  if negb (imageLoaded e) then Ok (e, [])
  else
    fx <- (IZR cw * 0.9) // INR (width (workCanvas e)) ;;
    fy <- (IZR ch * 0.9) // INR (height (workCanvas e)) ;;
    let v := view e in
    Ok (redraw cw ch
          (set_view {| scale := Rmin (Rmin fx fy) 1;
                       minScale := minScale v;
                       maxScale := maxScale v;
                       panX := 0;
                       panY := 0 |} e)).


(** *** Image loading *)

(** [loadImageFile]: [bitmap] is what [createImageBitmap] decodes the
    file to, [None] when the file is not an image. *)
Definition loadImageFile (bitmap : option ImageData) (cw ch : Z) (e : editor)
  : outcome (editor * list effect) :=
  match bitmap with
  | None => Ok (e, [Alert])
  | Some bm =>
      let canvas := putImageData bm 0 0 (resized (width bm) (height bm)) in
      let e1 := set_workCanvas canvas e in
      (* Keep an untouched copy for the Restore brush *)
      let e2 := set_originalImageData
                  (Some (getImageData canvas 0 0 (width canvas) (height canvas)))
                  e1 in
      (* Reset history *)
      let e3 := set_history [] (-1) e2 in
      let '(e4, saved) := saveHistory e3 in
      let e5 := set_imageLoaded true e4 in
      '(e6, fitted) <- fitToView cw ch e5 ;;
      Ok (e6, saved ++ fitted ++ [Buttons (updateButtons e6)])
  end.

(** *** Brush tools *)




(** *** Auto-crop *)

(** The object [{ x, y, w, h }]. *)
Record bounds : Type := mkBounds { b_x : Z; b_y : Z; b_w : Z; b_h : Z }.

(** The four running extremes of [getContentBounds]. *)
Record extent : Type := mkExtent { minX : Z; minY : Z; maxX : Z; maxY : Z }.

(** The body of its inner loop. *)
Definition grow (d : list Z) (W : nat) (a : extent) (x y : nat) : extent :=
  match nth_error d (offset W x y 3) with
  | Some alpha =>
      if Z.ltb 8 alpha then
        {| minX := if Z.ltb (Z.of_nat x) (minX a) then Z.of_nat x else minX a;
           maxX := if Z.ltb (maxX a) (Z.of_nat x) then Z.of_nat x else maxX a;
           minY := if Z.ltb (Z.of_nat y) (minY a) then Z.of_nat y else minY a;
           maxY := if Z.ltb (maxY a) (Z.of_nat y) then Z.of_nat y else maxY a |}
      else a
  | None => a
  end.

Definition scan (d : list Z) (W H : nat) (a : extent) : extent :=
  fold_left (fun a y => fold_left (fun a x => grow d W a x y) (seq 0 W) a)
            (seq 0 H) a.

Definition getContentBounds (e : editor) : option bounds :=
  let W := width (workCanvas e) in
  let H := height (workCanvas e) in
  let imgData := getImageData (workCanvas e) 0 0 W H in
  let a := scan (data imgData) W H
                {| minX := Z.of_nat W; minY := Z.of_nat H; maxX := 0; maxY := 0 |} in
  if Z.ltb (maxX a) (minX a) then None
  else Some {| b_x := minX a;
               b_y := minY a;
               b_w := maxX a - minX a + 1;
               b_h := maxY a - minY a + 1 |}.

(** The rectangle [autoCrop] keeps: the content with 5 % padding,
    inside the canvas. *)
Definition crop_rect (b : bounds) (W H : Z) : bounds :=
  let pad := ceil (IZR (Z.max (b_w b) (b_h b)) * 0.05) in
  let x := Z.max 0 (b_x b - pad) in
  let y := Z.max 0 (b_y b - pad) in
  let w := Z.min (W - x) (b_w b + pad * 2) in
  let h := Z.min (H - y) (b_h b + pad * 2) in
  {| b_x := x; b_y := y; b_w := w; b_h := h |}.

Definition autoCrop (cw ch : Z) (e : editor) : outcome (editor * list effect) :=
  match getContentBounds e with
  | None => Ok (e, [Alert])
  | Some b =>
      let c := crop_rect b (Z.of_nat (width (workCanvas e)))
                           (Z.of_nat (height (workCanvas e))) in
      let cropped := getImageData (workCanvas e)
                       (Z.to_nat (b_x c)) (Z.to_nat (b_y c))
                       (Z.to_nat (b_w c)) (Z.to_nat (b_h c)) in
      let e1 := set_workCanvas
                  (putImageData cropped 0 0
                     (resized (Z.to_nat (b_w c)) (Z.to_nat (b_h c)))) e in
      (* Original image data is now invalid after crop *)
      let e2 := set_originalImageData None e1 in
      let '(e3, saved) := saveHistory e2 in
      '(e4, fitted) <- fitToView cw ch e3 ;;
      Ok (e4, saved ++ fitted)
  end.

(** *** Observations used by the statements below *)





(** The history holds between 1 and [MAX_HISTORY] snapshots and
    [histIndex] points at one of them. *)
Definition history_ok (e : editor) : Prop :=
  (0 <= histIndex e < Z.of_nat (length (history e)))%Z /\
  (length (history e) <= MAX_HISTORY)%nat.

(** The snapshot [saveHistory] takes of the work canvas. *)
Definition snapshot (e : editor) : ImageData :=
  getImageData (workCanvas e) 0 0 (width (workCanvas e)) (height (workCanvas e)).

(** The calls a user can make on the history, and the editor after a
    sequence of them. *)
Inductive edit : Type :=
| SaveHistory (canvas : ImageData)       (* an edit, then [saveHistory] *)
| Undo
| Redo.

Definition run_edit (cw ch : Z) (c : edit) (e : editor) : editor :=
  match c with
  | SaveHistory canvas => fst (saveHistory (set_workCanvas canvas e))
  | Undo => fst (undo cw ch e)
  | Redo => fst (redo cw ch e)
  end.

Fixpoint run (cw ch : Z) (edits : list edit) (e : editor) : editor :=
  match edits with
  | [] => e
  | c :: rest => run cw ch rest (run_edit cw ch c e)
  end.

End Editor.

(* ================================================================== *)
(** ** The scalar formulas on binary64 *)
(* ================================================================== *)

(** The same expressions as in [Main] and [Render], on IEEE 754
    binary64 numbers: every decimal constant is the nearest double and
    every operation rounds to nearest, as in the browser. *)
Module Binary64.

Import PrimFloat.
#[local] Set Warnings "-inexact-float".

Definition lerp (a b t : float) : float := (a + (b - a) * t)%float.

(** One scalar field of [state.smooth] after [n] more calls of
    [applySmoothing] on the same raw value [raw], with blend factor
    [a]. *)
Fixpoint feed (n : nat) (s raw a : float) : float :=
  match n with
  | O => s
  | S k => lerp (feed k s raw a) raw a
  end.

(** Distance between a smoothed field and the raw one. *)
Definition distance (s raw : float) : float := abs (s - raw)%float.

Definition anchorSpan (width : float) : float := ((0.70 - 0.30) * width)%float.

Definition baseScale (eyeDistance width scaleMultiplier : float) : float :=
  ((eyeDistance / anchorSpan width) * scaleMultiplier)%float.

Definition lWidthScale (yaw : float) : float := (1 + yaw * 0.40)%float.
Definition rWidthScale (yaw : float) : float := (1 - yaw * 0.40)%float.
Definition lHeightScale (yaw : float) : float := (1 + yaw * 0.12)%float.
Definition rHeightScale (yaw : float) : float := (1 - yaw * 0.12)%float.

(** [now - state.lastFaceTime < state.faceTimeoutMs]. *)
Definition within_grace (now lastFaceTime faceTimeoutMs : float) : bool :=
  ltb (now - lastFaceTime) faceTimeoutMs.

End Binary64.

(* ================================================================== *)
(** ** The specification's formulas *)
(* ================================================================== *)

(** The yaw estimate in the words of the design document, to be
    compared with what [Face.extractFaceTransform] computes. *)
Module Spec.

(** Euclidean distance between two points of the image plane. *)
Definition euclid (a b : Point.t) : R :=
  sqrt ((Point.x a - Point.x b) ^ 2 + (Point.y a - Point.y b) ^ 2).

(** Base estimate: the symmetry ratio when the distances do not both
    vanish, else 0. *)
Definition yaw0 (dLeft dRight : R) : R :=
  if Rlt_dec 0 (dLeft + dRight)
  then (dLeft - dRight) / (dLeft + dRight)
  else 0.

(** Depth-based signal. *)
Definition zYaw (leftEyeZ rightEyeZ eyeDistance : R) : R :=
  (rightEyeZ - leftEyeZ) / Rmax (eyeDistance * 0.5) 1.

(** Yaw before clamping. *)
Definition yaw (dLeft dRight eyeDistance : R) (leftEyeZ rightEyeZ : option R) : R :=
  match leftEyeZ, rightEyeZ with
  | Some lz, Some rz => yaw0 dLeft dRight * 0.55 + zYaw lz rz eyeDistance * 0.45
  | _, _ => yaw0 dLeft dRight
  end.

(** Clamping to the interval [[lo, hi]]. *)
Definition clamp (v lo hi : R) : R :=
  if Rlt_dec v lo then lo else if Rlt_dec hi v then hi else v.

(** The point half way between two points, coordinate by coordinate;
    it has a depth when both points have one. *)
Definition halfway (a b : Point.t) : Point.t :=
  {| Point.x := (Point.x a + Point.x b) / 2;
     Point.y := (Point.y a + Point.y b) / 2;
     Point.z := match Point.z a, Point.z b with
                | Some az, Some bz => Some ((az + bz) / 2)
                | _, _ => None
                end |}.

(** Eye-centre selection, the length being read the way the code reads
    it.  A sequence of more than 473 points holds the iris centres,
    landmarks 468 and 473, and these are the eye positions; a shorter
    one that holds the eye corners gives the points half way between
    the corners of each eye, landmarks 33 and 133 for the left eye, 362
    and 263 for the right one. *)
Definition eye_positions (keypoints : list Point.t) : option (Point.t * Point.t) :=
  if Nat.ltb 473 (length keypoints) then
    match nth_error keypoints 468, nth_error keypoints 473 with
    | Some l, Some r => Some (l, r)
    | _, _ => None
    end
  else
    match nth_error keypoints 33, nth_error keypoints 133,
          nth_error keypoints 362, nth_error keypoints 263 with
    | Some lo, Some li, Some ri, Some ro => Some (halfway lo li, halfway ri ro)
    | _, _, _, _ => None
    end.

End Spec.

(* ================================================================== *)
(** ** Sample inputs *)
(* ================================================================== *)

Module Sample.

(** Landmark [i] of a synthetic face, with and without depth. *)
Definition point (i : nat) : Point.t :=
  {| Point.x := INR i; Point.y := 2 * INR i; Point.z := Some (INR i) |}.

Definition flat_point (i : nat) : Point.t :=
  {| Point.x := INR i; Point.y := 2 * INR i; Point.z := None |}.

(** The 478-point topology (iris points present), with depth. *)
Definition mesh478 : list Point.t := map point (seq 0 478).

(** The base 468-point topology, without depth. *)
Definition mesh468 : list Point.t := map flat_point (seq 0 468).



(** A raw pose and a state seeded with another one. *)
Definition raw : Transform.t :=
  {| Transform.center := {| Point.x := 320; Point.y := 240; Point.z := None |};
     Transform.leftEye := {| Point.x := 280; Point.y := 240; Point.z := None |};
     Transform.rightEye := {| Point.x := 360; Point.y := 240; Point.z := None |};
     Transform.eyeDistance := 80;
     Transform.roll := 0;
     Transform.yaw := 0.5;
     Transform.keypoints := mesh468 |}.

Definition seeded : Main.state :=
  Main.set_smooth
    (Some {| Main.Smooth.centerX := 300;
             Main.Smooth.centerY := 200;
             Main.Smooth.eyeDistance := 100;
             Main.Smooth.roll := 0.25;
             Main.Smooth.yaw := -0.5;
             Main.Smooth.keypoints := Some mesh478 |})
    (Main.initial_state 0).

(** The asset loaded when the PNG is missing: the fallback image with
    its halves. *)
Definition glasses : Main.asset :=
  {| Main.img := Render.generateFallbackGlasses;
     Main.halves := Render.splitGlassesImage Render.generateFallbackGlasses |}.

(** A smoothed pose, and a running page that shows it: the pose was
    stamped at clock 0 and no detection is outstanding. *)
Definition pose : Pose.t :=
  {| Pose.center := {| Point.x := 320; Point.y := 240; Point.z := None |};
     Pose.eyeDistance := 80;
     Pose.roll := 0;
     Pose.yaw := 0.5;
     Pose.keypoints := mesh468 |}.

Definition tracking : Main.world :=
  {| Main.st :=
       Main.set_lastRawTransform (Some pose)
         (Main.set_running true (Main.initial_state 0));
     Main.modelReady := true;
     Main.detecting := false;
     Main.glassesAssets := Main.loadGlassesAssets [None];
     Main.inflight := 0 |}.

(** A session: the model and the fallback glasses are loaded, the
    camera starts, and the second animation frame starts a detection. *)
Definition startup : list Main.event :=
  [Main.Init [None]; Main.StartCamera;
   Main.AnimationFrame 0; Main.AnimationFrame 16].

(** The page while that detection is outstanding. *)
Definition busy : Main.world := Main.after startup (Main.initial 0).

(** The page once the detection has resolved to the 478-point face. *)
Definition tracked : Main.world :=
  Main.after [Main.DetectionDone (Some (Face.mkFace mesh478)) 20] busy.

End Sample.

(** Further inputs: a camera frame, a detector and what it sees. *)
Module Fixture.

(** A 640 x 480 frame of a playing video at media time 1. *)
Definition video : Face.video_t :=
  {| Face.readyState := 4;
     Face.currentTime := 1;
     Face.videoWidth := 640;
     Face.videoHeight := 480 |}.

(** The module variables of face.js once the model is loaded. *)
Definition detector : Face.detector_state :=
  {| Face.faceLandmarker := true;
     Face.lastVideoTime := -1;
     Face.diag := {| Face.attempts := 0;
                     Face.successes := 0;
                     Face.errors := 0;
                     Face.lastError := Face.NoError |} |}.

(** 478 normalised landmarks, with depth. *)
Definition landmark (i : nat) : Face.landmark :=
  {| Face.lm_x := INR i / 1000; Face.lm_y := INR i / 500; Face.lm_z := INR i / 2000 |}.

Definition landmarks : list Face.landmark := map landmark (seq 0 478).

(** The face [detectFace] makes of them on [video]. *)
Definition detected : Face.face :=
  {| Face.keypoints :=
       map (fun lm => {| Point.x := Face.lm_x lm * 640;
                         Point.y := Face.lm_y lm * 480;
                         Point.z := Some (Face.lm_z lm * 640) |}) landmarks |}.

(** Two 2 x 1 bitmaps: an opaque red pixel beside a transparent one,
    and a fully transparent one. *)
Definition dots : Editor.ImageData :=
  {| Editor.width := 2;
     Editor.height := 1;
     Editor.data := [255; 0; 0; 255; 0; 0; 0; 0]%Z |}.

Definition blank : Editor.ImageData :=
  {| Editor.width := 2;
     Editor.height := 1;
     Editor.data := [0; 0; 0; 0; 0; 0; 0; 0]%Z |}.

(** The editor with [dots] loaded in an 800 x 600 container, after two
    edits. *)
Definition editing : Editor.editor :=
  {| Editor.workCanvas := dots;
     Editor.originalImageData := Some dots;
     Editor.history := [dots; blank; dots];
     Editor.histIndex := 2;
     Editor.view := {| Editor.scale := 1;
                       Editor.minScale := 0.05;
                       Editor.maxScale := 12;
                       Editor.panX := 0;
                       Editor.panY := 0 |};
     Editor.imageLoaded := true;
     Editor.editorCanvas_width := 800;
     Editor.editorCanvas_height := 600 |}.

End Fixture.

(* ================================================================== *)
(** ** Properties of face.js *)
(* ================================================================== *)

Section JsFacts.

Lemma div_nonzero (a b : R) : b <> 0 -> a // b = Ok (a / b).
Proof.
  intros Hb. unfold Js.div.
  destruct (Req_dec_T b 0) as [E | _]; [contradiction | reflexivity].
Qed.

Lemma index_nth_error {A : Type} (arr : list A) (i : nat) (a : A) :
  nth_error arr i = Some a -> Js.index arr i = Ok a.
Proof. intros H. unfold Js.index. now rewrite H. Qed.

Lemma index_in_range {A : Type} (arr : list A) (i : nat) :
  (i < length arr)%nat -> exists a, nth_error arr i = Some a.
Proof.
  intros H. destruct (nth_error arr i) as [a |] eqn:E.
  - now exists a.
  - apply nth_error_None in E. lia.
Qed.

Lemma nth_error_in_range {A : Type} (arr : list A) (i : nat) (a : A) :
  nth_error arr i = Some a -> (i < length arr)%nat.
Proof.
  intros H. apply nth_error_Some. congruence.
Qed.

Lemma hypot_nonneg (x y : R) : 0 <= Js.hypot x y.
Proof. unfold Js.hypot. apply sqrt_pos. Qed.

Lemma dist_euclid (a b : Point.t) : Face.dist a b = Spec.euclid a b.
Proof.
  unfold Face.dist, Js.hypot, Spec.euclid. f_equal. ring.
Qed.

Lemma dist_nonneg (a b : Point.t) : 0 <= Face.dist a b.
Proof. apply hypot_nonneg. Qed.

Lemma clamp_bounds (v lo hi : R) :
  lo <= hi -> lo <= Face.clamp v lo hi <= hi.
Proof.
  intros H. unfold Face.clamp, Rmax, Rmin.
  destruct (Rle_dec hi v); destruct (Rle_dec lo _); lra.
Qed.

Lemma clamp_inside (v lo hi : R) :
  lo <= v <= hi -> Face.clamp v lo hi = v.
Proof.
  intros H. unfold Face.clamp, Rmax, Rmin.
  destruct (Rle_dec hi v); destruct (Rle_dec lo _); lra.
Qed.

Lemma depth_divisor_positive (eyeDistance : R) :
  1 <= Rmax (eyeDistance * 0.5) 1.
Proof. apply Rmax_r. Qed.

End JsFacts.

Section ExtractFacts.

Import Face.

(** The guarded quotient of the source is the base estimate: the guard
    keeps the divisor away from 0. *)
Lemma yaw0_checked (dLeft dRight : R) :
  (if Rlt_dec 0 (dLeft + dRight)
   then (dLeft - dRight) // (dLeft + dRight)
   else Ok 0) = Ok (Spec.yaw0 dLeft dRight).
Proof.
  unfold Spec.yaw0. destruct (Rlt_dec 0 (dLeft + dRight)) as [Hpos | _].
  - apply div_nonzero. lra.
  - reflexivity.
Qed.

(** So is the depth quotient: its divisor is at least 1. *)
Lemma zYaw_checked (lz rz eyeDistance : R) :
  (rz - lz) // Rmax (eyeDistance * 0.5) 1 = Ok (Spec.zYaw lz rz eyeDistance).
Proof.
  unfold Spec.zYaw. apply div_nonzero.
  pose proof (depth_divisor_positive eyeDistance). lra.
Qed.

(** What [extractFaceTransform] returns once the eye positions and the
    three landmarks of the yaw estimate have been read. *)
Lemma extract_after_reads (keypoints : list Point.t)
      (leftEye rightEye noseTip leftEdge rightEdge : Point.t) :
  (if Nat.ltb 473 (length keypoints) then
     l <- Js.index keypoints LM.LEFT_IRIS ;;
     r <- Js.index keypoints LM.RIGHT_IRIS ;;
     Ok (l, r)
   else
     lo <- Js.index keypoints LM.LEFT_EYE_OUTER ;;
     li <- Js.index keypoints LM.LEFT_EYE_INNER ;;
     ri <- Js.index keypoints LM.RIGHT_EYE_INNER ;;
     ro <- Js.index keypoints LM.RIGHT_EYE_OUTER ;;
     Ok (midpoint lo li, midpoint ri ro)) = Ok (leftEye, rightEye) ->
  nth_error keypoints LM.NOSE_TIP = Some noseTip ->
  nth_error keypoints LM.LEFT_FACE_EDGE = Some leftEdge ->
  nth_error keypoints LM.RIGHT_FACE_EDGE = Some rightEdge ->
  extractFaceTransform keypoints =
  Ok {| Transform.center := midpoint leftEye rightEye;
        Transform.leftEye := leftEye;
        Transform.rightEye := rightEye;
        Transform.eyeDistance := dist leftEye rightEye;
        Transform.roll := Js.atan2 (Point.y rightEye - Point.y leftEye)
                                   (Point.x rightEye - Point.x leftEye);
        Transform.yaw :=
          clamp (Spec.yaw (dist noseTip leftEdge) (dist noseTip rightEdge)
                          (dist leftEye rightEye)
                          (Point.z leftEye) (Point.z rightEye)) (-1) 1;
        Transform.keypoints := keypoints |}.
Proof.
  intros Heyes Hn Hl Hr. unfold extractFaceTransform.
  rewrite Heyes. cbn [bind].
  rewrite (index_nth_error _ _ _ Hn), (index_nth_error _ _ _ Hl),
    (index_nth_error _ _ _ Hr). cbn [bind].
  rewrite yaw0_checked. cbn [bind].
  unfold Spec.yaw.
  destruct (Point.z leftEye) as [lz |]; [destruct (Point.z rightEye) as [rz |] |];
    try reflexivity.
  rewrite zYaw_checked. reflexivity.
Qed.

(** The eye positions of a sequence that holds every landmark up to the
    right face edge. *)
Lemma eyes_selected (keypoints : list Point.t) :
  (454 < length keypoints)%nat ->
  exists leftEye rightEye,
    (if Nat.ltb 473 (length keypoints) then
       l <- Js.index keypoints LM.LEFT_IRIS ;;
       r <- Js.index keypoints LM.RIGHT_IRIS ;;
       Ok (l, r)
     else
       lo <- Js.index keypoints LM.LEFT_EYE_OUTER ;;
       li <- Js.index keypoints LM.LEFT_EYE_INNER ;;
       ri <- Js.index keypoints LM.RIGHT_EYE_INNER ;;
       ro <- Js.index keypoints LM.RIGHT_EYE_OUTER ;;
       Ok (midpoint lo li, midpoint ri ro)) = Ok (leftEye, rightEye)
    /\ ((473 < length keypoints)%nat ->
        nth_error keypoints LM.LEFT_IRIS = Some leftEye /\
        nth_error keypoints LM.RIGHT_IRIS = Some rightEye)
    /\ ((length keypoints <= 473)%nat ->
        exists lo li ri ro,
          nth_error keypoints LM.LEFT_EYE_OUTER = Some lo /\
          nth_error keypoints LM.LEFT_EYE_INNER = Some li /\
          nth_error keypoints LM.RIGHT_EYE_INNER = Some ri /\
          nth_error keypoints LM.RIGHT_EYE_OUTER = Some ro /\
          leftEye = midpoint lo li /\ rightEye = midpoint ri ro).
Proof.
  intros Hlen.
  destruct (Nat.ltb 473 (length keypoints)) eqn:E.
  - apply Nat.ltb_lt in E.
    destruct (index_in_range keypoints LM.LEFT_IRIS) as [l Hl];
      [unfold LM.LEFT_IRIS; lia |].
    destruct (index_in_range keypoints LM.RIGHT_IRIS) as [r Hr];
      [unfold LM.RIGHT_IRIS; lia |].
    exists l, r.
    rewrite (index_nth_error _ _ _ Hl), (index_nth_error _ _ _ Hr).
    repeat split; auto; lia.
  - apply Nat.ltb_ge in E.
    destruct (index_in_range keypoints LM.LEFT_EYE_OUTER) as [lo Hlo];
      [unfold LM.LEFT_EYE_OUTER; lia |].
    destruct (index_in_range keypoints LM.LEFT_EYE_INNER) as [li Hli];
      [unfold LM.LEFT_EYE_INNER; lia |].
    destruct (index_in_range keypoints LM.RIGHT_EYE_INNER) as [ri Hri];
      [unfold LM.RIGHT_EYE_INNER; lia |].
    destruct (index_in_range keypoints LM.RIGHT_EYE_OUTER) as [ro Hro];
      [unfold LM.RIGHT_EYE_OUTER; lia |].
    exists (midpoint lo li), (midpoint ri ro).
    rewrite (index_nth_error _ _ _ Hlo), (index_nth_error _ _ _ Hli),
      (index_nth_error _ _ _ Hri), (index_nth_error _ _ _ Hro).
    split; [reflexivity |]. split; [lia |].
    intros _. exists lo, li, ri, ro. auto 10.
Qed.

(** The extractor accepts every sequence that reaches the right face
    edge. *)
Lemma extract_full_mesh (keypoints : list Point.t) :
  (454 < length keypoints)%nat ->
  exists t, extractFaceTransform keypoints = Ok t.
Proof.
  intros Hlen.
  destruct (eyes_selected keypoints Hlen) as (leftEye & rightEye & Heyes & _).
  destruct (index_in_range keypoints LM.NOSE_TIP) as [noseTip Hn];
    [unfold LM.NOSE_TIP; lia |].
  destruct (index_in_range keypoints LM.LEFT_FACE_EDGE) as [leftEdge Hl];
    [unfold LM.LEFT_FACE_EDGE; lia |].
  destruct (index_in_range keypoints LM.RIGHT_FACE_EDGE) as [rightEdge Hr];
    [unfold LM.RIGHT_FACE_EDGE; lia |].
  eexists. apply (extract_after_reads _ _ _ _ _ _ Heyes Hn Hl Hr).
Qed.

End ExtractFacts.

Section ExtractorClaims.

Import Face.

Lemma index_never_divides {A : Type} (arr : list A) (i : nat) :
  Js.index arr i <> DivByZero.
Proof. unfold Js.index. destruct (nth_error arr i); discriminate. Qed.

Lemma bind_never_divides {A B : Type} (m : outcome A) (k : A -> outcome B) :
  m <> DivByZero -> (forall a, k a <> DivByZero) -> bind m k <> DivByZero.
Proof. intros Hm Hk. destruct m; cbn; auto; discriminate. Qed.

(** No run of the extractor divides by zero, whatever the sequence. *)
Lemma extract_never_divides (keypoints : list Point.t) :
  extractFaceTransform keypoints <> DivByZero.
Proof.
  unfold extractFaceTransform.
  apply bind_never_divides.
  - destruct (Nat.ltb 473 (length keypoints));
      repeat (apply bind_never_divides;
              [apply index_never_divides | intros ?]);
      discriminate.
  - intros [leftEye rightEye].
    repeat (apply bind_never_divides;
            [apply index_never_divides | intros ?]).
    rewrite yaw0_checked. cbn [bind].
    destruct (Point.z leftEye); [destruct (Point.z rightEye) |];
      cbn [bind]; try discriminate.
    rewrite zYaw_checked. discriminate.
Qed.

(** A transform comes back only when the right face edge, the last
    landmark read, is there. *)
Lemma extract_ok_long (keypoints : list Point.t) (t : Transform.t) :
  extractFaceTransform keypoints = Ok t -> (454 < length keypoints)%nat.
Proof.
  unfold extractFaceTransform.
  match goal with
  | |- context [bind ?m _] => destruct m as [[leftEye rightEye] | |]
  end; cbn [bind]; try discriminate.
  destruct (Js.index keypoints LM.NOSE_TIP); cbn [bind]; try discriminate.
  destruct (Js.index keypoints LM.LEFT_FACE_EDGE); cbn [bind]; try discriminate.
  unfold Js.index at 1.
  destruct (nth_error keypoints LM.RIGHT_FACE_EDGE) eqn:E;
    cbn [bind]; try discriminate.
  intros _. exact (nth_error_in_range _ _ _ E).
Qed.

Lemma extract_short (keypoints : list Point.t) :
  (length keypoints <= 454)%nat -> extractFaceTransform keypoints = TypeError.
Proof.
  intros Hlen.
  destruct (extractFaceTransform keypoints) as [t | |] eqn:E.
  - apply extract_ok_long in E. lia.
  - reflexivity.
  - now apply extract_never_divides in E.
Qed.

(** The transform carries the sequence it was made from. *)
Lemma extract_keypoints (keypoints : list Point.t) (t : Transform.t) :
  extractFaceTransform keypoints = Ok t -> Transform.keypoints t = keypoints.
Proof.
  intros Hok. pose proof (extract_ok_long _ _ Hok) as Hlen.
  destruct (eyes_selected keypoints Hlen) as (l & r & Heyes & _).
  destruct (index_in_range keypoints LM.NOSE_TIP) as [noseTip Hn];
    [unfold LM.NOSE_TIP; lia |].
  destruct (index_in_range keypoints LM.LEFT_FACE_EDGE) as [leftEdge Hl];
    [unfold LM.LEFT_FACE_EDGE; lia |].
  destruct (index_in_range keypoints LM.RIGHT_FACE_EDGE) as [rightEdge Hr];
    [unfold LM.RIGHT_FACE_EDGE; lia |].
  rewrite (extract_after_reads _ _ _ _ _ _ Heyes Hn Hl Hr) in Hok.
  injection Hok as <-. reflexivity.
Qed.

Lemma clamp_spec (v lo hi : R) :
  lo <= hi -> clamp v lo hi = Spec.clamp v lo hi.
Proof.
  intros H. unfold clamp, Spec.clamp, Rmax, Rmin.
  destruct (Rlt_dec v lo), (Rlt_dec hi v), (Rle_dec hi v);
    destruct (Rle_dec lo _); lra.
Qed.


(** The eye positions the extractor reads off a sequence are the ones
    of the eye-centre selection. *)
Lemma eye_positions_selected (keypoints : list Point.t) :
  (454 < length keypoints)%nat ->
  exists leftEye rightEye,
    (if Nat.ltb 473 (length keypoints) then
       l <- Js.index keypoints LM.LEFT_IRIS ;;
       r <- Js.index keypoints LM.RIGHT_IRIS ;;
       Ok (l, r)
     else
       lo <- Js.index keypoints LM.LEFT_EYE_OUTER ;;
       li <- Js.index keypoints LM.LEFT_EYE_INNER ;;
       ri <- Js.index keypoints LM.RIGHT_EYE_INNER ;;
       ro <- Js.index keypoints LM.RIGHT_EYE_OUTER ;;
       Ok (midpoint lo li, midpoint ri ro)) = Ok (leftEye, rightEye)
    /\ Spec.eye_positions keypoints = Some (leftEye, rightEye).
Proof.
  intros Hlen.
  destruct (eyes_selected keypoints Hlen) as (l & r & Heyes & Hiris & Hmid).
  exists l, r. split; [exact Heyes |].
  unfold Spec.eye_positions.
  destruct (Nat.ltb 473 (length keypoints)) eqn:E.
  - apply Nat.ltb_lt in E. destruct (Hiris E) as [El Er].
    unfold LM.LEFT_IRIS in El. unfold LM.RIGHT_IRIS in Er.
    now rewrite El, Er.
  - apply Nat.ltb_ge in E.
    destruct (Hmid E) as (lo & li & ri & ro & Elo & Eli & Eri & Ero & -> & ->).
    unfold LM.LEFT_EYE_OUTER in Elo. unfold LM.LEFT_EYE_INNER in Eli.
    unfold LM.RIGHT_EYE_INNER in Eri. unfold LM.RIGHT_EYE_OUTER in Ero.
    now rewrite Elo, Eli, Eri, Ero.
Qed.

(** The yaw estimate stays within [[-1, 1]] once clamped. *)
Lemma spec_clamp_bounds (v lo hi : R) : lo <= hi -> lo <= Spec.clamp v lo hi <= hi.
Proof.
  intros H. unfold Spec.clamp.
  destruct (Rlt_dec v lo); [lra |]. destruct (Rlt_dec hi v); lra.
Qed.

(** C1.  For a keypoint sequence that holds the nose tip and both face
    edges, [extractFaceTransform] returns a transform (so no quotient
    of the run had a zero divisor) whose yaw is a function of the input
    alone: with the eye positions of the eye-centre selection, it is
    the clamp to [[-1, 1]] of the documented estimate, that is the base
    estimate [(dLeft - dRight) / (dLeft + dRight)] (0 when the sum is
    not positive) of the Euclidean distances from the nose tip to the
    face edges, blended as [yaw0 * 0.55 + zYaw * 0.45] with
    [zYaw = (rightEyeZ - leftEyeZ) / max (eyeDistance * 0.5, 1)] when
    both eye positions carry a depth, left as it is otherwise.  The
    divisor of the depth signal is at least 1. *)
Theorem extractFaceTransform_yaw
        (keypoints : list Point.t) (noseTip leftEdge rightEdge : Point.t) :
  nth_error keypoints LM.NOSE_TIP = Some noseTip ->
  nth_error keypoints LM.LEFT_FACE_EDGE = Some leftEdge ->
  nth_error keypoints LM.RIGHT_FACE_EDGE = Some rightEdge ->
  exists t leftEye rightEye,
    extractFaceTransform keypoints = Ok t /\
    Spec.eye_positions keypoints = Some (leftEye, rightEye) /\
    Transform.yaw t =
      Spec.clamp (Spec.yaw (Spec.euclid noseTip leftEdge)
                           (Spec.euclid noseTip rightEdge)
                           (Spec.euclid leftEye rightEye)
                           (Point.z leftEye) (Point.z rightEye)) (-1) 1 /\
    -1 <= Transform.yaw t <= 1 /\
    1 <= Rmax (Spec.euclid leftEye rightEye * 0.5) 1.
Proof.
  intros Hn Hl Hr.
  pose proof (nth_error_in_range _ _ _ Hr) as Hlen.
  unfold LM.RIGHT_FACE_EDGE in Hlen.
  destruct (eye_positions_selected keypoints Hlen)
    as (leftEye & rightEye & Heyes & Hsel).
  eexists. exists leftEye, rightEye.
  split; [apply (extract_after_reads _ _ _ _ _ _ Heyes Hn Hl Hr) |].
  split; [exact Hsel |].
  cbn [Transform.yaw]. rewrite !dist_euclid, clamp_spec by lra.
  split; [reflexivity |].
  split; [apply spec_clamp_bounds; lra | apply depth_divisor_positive].
Qed.

Lemma extractFaceTransform_yaw_witness :
  exists t,
    extractFaceTransform Sample.mesh478 = Ok t /\
    Transform.yaw t =
      Spec.clamp (Spec.yaw (Spec.euclid (Sample.point 1) (Sample.point 234))
                           (Spec.euclid (Sample.point 1) (Sample.point 454))
                           (Spec.euclid (Sample.point 468) (Sample.point 473))
                           (Some (INR 468)) (Some (INR 473))) (-1) 1.
Proof.
  destruct (extractFaceTransform_yaw Sample.mesh478
              (Sample.point 1) (Sample.point 234) (Sample.point 454))
    as (t & leftEye & rightEye & Hok & Hsel & Hyaw & _); try reflexivity.
  assert (E : Spec.eye_positions Sample.mesh478 =
              Some (Sample.point 468, Sample.point 473)) by reflexivity.
  rewrite E in Hsel. injection Hsel as <- <-.
  exists t. split; [exact Hok | exact Hyaw].
Defined.




End ExtractorClaims.

(* ================================================================== *)
(** ** Properties of main.js *)
(* ================================================================== *)

Section SmoothingFacts.

Import Main.

(** [applySmoothing] writes [state.smooth] and nothing else. *)
Lemma applySmoothing_frame (raw : Transform.t) (s : state) :
  fst (applySmoothing raw s) = set_smooth (smooth (fst (applySmoothing raw s))) s.
Proof. unfold applySmoothing. destruct (smooth s); reflexivity. Qed.

Lemma applySmoothing_tuned (raw : Transform.t) (s : state) :
  tuned s -> tuned (fst (applySmoothing raw s)).
Proof. rewrite applySmoothing_frame. unfold tuned. auto. Qed.

Lemma applySmoothing_smoothingFactor (raw : Transform.t) (s : state) :
  smoothingFactor (fst (applySmoothing raw s)) = smoothingFactor s.
Proof. now rewrite applySmoothing_frame. Qed.

(** After a call the state is seeded, and the descriptor handed back is
    a copy of the persisted scalars with the raw keypoints. *)
Lemma applySmoothing_returns_state (raw : Transform.t) (s : state) :
  exists s1,
    smooth (fst (applySmoothing raw s)) = Some s1 /\
    snd (applySmoothing raw s) = buildSmoothed s1 (Transform.keypoints raw).
Proof.
  unfold applySmoothing. destruct (smooth s); eexists; split; reflexivity.
Qed.

(** The two entry points smooth alike: same descriptor, same persisted
    scalars. *)
Lemma applySmoothing_png_agrees (raw : Transform.t) (s : state) :
  snd (applySmoothing_png raw s) = snd (applySmoothing raw s) /\
  forall f,
    option_map (smoothed_field f) (smooth (fst (applySmoothing_png raw s))) =
    option_map (smoothed_field f) (smooth (fst (applySmoothing raw s))).
Proof.
  unfold applySmoothing_png, applySmoothing.
  destruct (smooth s); split; try reflexivity; intros []; reflexivity.
Qed.

Lemma pose_field_buildSmoothed (f : scalar) (s1 : Smooth.t) (k : list Point.t) :
  pose_field f (buildSmoothed s1 k) = smoothed_field f s1.
Proof. destruct f; reflexivity. Qed.

(** The seeding call. *)
Lemma applySmoothing_seed (raw : Transform.t) (s : state) :
  smooth s = None ->
  exists s1,
    smooth (fst (applySmoothing raw s)) = Some s1 /\
    forall f, smoothed_field f s1 = raw_field f raw.
Proof.
  intros E. unfold applySmoothing. rewrite E. eexists. split; [reflexivity |].
  intros []; reflexivity.
Qed.

(** Every later call. *)
Lemma applySmoothing_lerp (raw : Transform.t) (s : state) (s0 : Smooth.t) :
  smooth s = Some s0 ->
  exists s1,
    smooth (fst (applySmoothing raw s)) = Some s1 /\
    forall f,
      smoothed_field f s1 =
      lerp (smoothed_field f s0) (raw_field f raw) (smoothingFactor s).
Proof.
  intros E. unfold applySmoothing. rewrite E. eexists. split; [reflexivity |].
  intros []; reflexivity.
Qed.

End SmoothingFacts.

(** Case analysis on the branches a run of [renderLoop] can take. *)
Ltac loop_cases now w :=
  unfold Main.renderLoop, Main.runDetection;
  destruct (Main.running (Main.st w)) eqn:Erun; cbn [negb orb fst snd];
  [ destruct (Js.mod_is_zero
                (Main.frameCount (Main.st (Main.set_st (Main.set_frameCount
                   (S (Main.frameCount (Main.st w))) (Main.st w)) w)))
                (Main.detectionInterval (Main.st (Main.set_st (Main.set_frameCount
                   (S (Main.frameCount (Main.st w))) (Main.st w)) w)))) eqn:Emod;
    cbn [Main.set_st Main.set_frameCount Main.st Main.running Main.modelReady
         Main.detecting negb orb];
    try rewrite Erun; cbn [negb orb];
    try (destruct (Main.modelReady w) eqn:Eready; cbn [negb orb];
         try (destruct (Main.detecting w) eqn:Edet; cbn [negb orb]));
    cbn [Main.set_st Main.set_frameCount Main.set_detecting Main.st
         Main.fpsLast Main.fpsCount Main.fps];
    destruct (Rle_dec 1000 (now - Main.fpsLast (Main.st w))) as [Hfps | Hfps];
    cbn [fst snd Main.set_st Main.set_frameCount Main.set_detecting
         Main.set_fps Main.st Main.modelReady Main.detecting
         Main.glassesAssets Main.inflight Main.running Main.frameCount
         Main.detectionInterval Main.debugMode Main.frameScaleMultiplier
         Main.verticalOffset Main.currentFrameIndex Main.smooth
         Main.smoothingFactor Main.lastFaceTime Main.faceTimeoutMs
         Main.lastRawTransform Main.fpsCount Main.fpsLast Main.fps]
  | ].

(** Case analysis on what the overlay part of a run draws. *)
Ltac overlay_cases :=
  repeat match goal with
    | |- context [match Main.lastRawTransform ?s with _ => _ end] =>
        destruct (Main.lastRawTransform s)
    | |- context [Rlt_dec ?a ?b] => destruct (Rlt_dec a b)
    | |- context [match nth_error ?l ?i with _ => _ end] =>
        destruct (nth_error l i)
    | |- context [if Main.debugMode ?s then _ else _] =>
        destruct (Main.debugMode s)
    end.

Section LoopFacts.

Import Main.

(** A run of the loop leaves the smoothing state, the last pose and its
    time stamp alone. *)
Lemma renderLoop_keeps_pose (now : R) (w : world) :
  smooth (st (fst (renderLoop now w))) = smooth (st w) /\
  lastRawTransform (st (fst (renderLoop now w))) = lastRawTransform (st w) /\
  lastFaceTime (st (fst (renderLoop now w))) = lastFaceTime (st w).
Proof. loop_cases now w; auto. Qed.

Lemma renderLoop_tuned (now : R) (w : world) :
  tuned (st w) -> tuned (st (fst (renderLoop now w))).
Proof. unfold tuned. loop_cases now w; auto. Qed.

Lemma renderLoop_guard (now : R) (w : world) :
  guard_consistent w -> guard_consistent (fst (renderLoop now w)).
Proof.
  unfold guard_consistent. loop_cases now w; cbn; auto;
    try rewrite Edet; intros ->; reflexivity.
Qed.

(** The overlay is drawn exactly when [overlay_visible] holds, and then
    with the pose held in [state.lastRawTransform]. *)
Lemma overlay_drawn_iff (now : R) (w : world) :
  overlay_drawn (snd (renderLoop now w)) = true <-> overlay_visible now w.
Proof.
  unfold overlay_visible.
  loop_cases now w;
    cbn [set_st set_frameCount set_detecting set_fps st lastRawTransform
         lastFaceTime faceTimeoutMs glassesAssets currentFrameIndex debugMode
         frameScaleMultiplier verticalOffset];
    try (split; [discriminate | intros (? & _); discriminate]).
  all: destruct (lastRawTransform (st w)) as [t |];
    [ destruct (Rlt_dec (now - lastFaceTime (st w)) (faceTimeoutMs (st w)))
        as [Hlt | Hge];
      [ destruct (nth_error (glassesAssets w) (currentFrameIndex (st w)))
          as [gl |];
        destruct (debugMode (st w)); cbn;
        (split; [intros H; try discriminate; repeat split; eauto
                | intros (_ & _ & _ & gl' & Hgl); try discriminate; reflexivity])
      | cbn; split; [discriminate | intros (_ & _ & Hlt & _); contradiction] ]
    | cbn; split; [discriminate | intros (_ & (t & Ht) & _); discriminate] ].
Qed.

Lemma overlay_uses_held_pose (now : R) (w : world) (t : Pose.t) (gl : asset) :
  running (st w) = true ->
  lastRawTransform (st w) = Some t ->
  nth_error (glassesAssets w) (currentFrameIndex (st w)) = Some gl ->
  now - lastFaceTime (st w) < faceTimeoutMs (st w) ->
  filter is_DrawGlasses (snd (renderLoop now w)) =
  [DrawGlasses (halves gl) t (img gl)
               (frameScaleMultiplier (st w)) (verticalOffset (st w))].
Proof.
  intros Hrun Ht Hgl Hlt.
  loop_cases now w; try discriminate;
    cbn [set_st set_frameCount set_detecting set_fps st lastRawTransform
         lastFaceTime faceTimeoutMs glassesAssets currentFrameIndex debugMode
         frameScaleMultiplier verticalOffset];
    rewrite Ht, Hgl;
    destruct (Rlt_dec (now - lastFaceTime (st w)) (faceTimeoutMs (st w)));
    try contradiction;
    destruct (debugMode (st w)); reflexivity.
Qed.

End LoopFacts.

Section DetectionFacts.

Import Main.

(** A detection that resolves to [null] only clears the guard. *)
Lemma resume_none (now : R) (w : world) :
  runDetection_resume None now w =
  set_detecting false (Nat.pred (inflight w)) w.
Proof. reflexivity. Qed.

(** A detection that resolves to a face the extractor accepts. *)
Lemma resume_face (face : Face.face) (raw : Transform.t) (now : R) (w : world) :
  Face.extractFaceTransform (Face.keypoints face) = Ok raw ->
  st (runDetection_resume (Some face) now w) =
  set_lastFaceTime now
    (set_lastRawTransform (Some (snd (applySmoothing raw (st w))))
       (fst (applySmoothing raw (st w)))).
Proof.
  intros E. unfold runDetection_resume. rewrite E.
  destruct (applySmoothing raw (st w)) as [s1 smoothed]. reflexivity.
Qed.

(** What a completed detection leaves outside [state]. *)
Lemma resume_guard_cleared (face : option Face.face) (now : R) (w : world) :
  detecting (runDetection_resume face now w) = false /\
  inflight (runDetection_resume face now w) = Nat.pred (inflight w) /\
  modelReady (runDetection_resume face now w) = modelReady w /\
  glassesAssets (runDetection_resume face now w) = glassesAssets w.
Proof.
  unfold runDetection_resume.
  destruct face as [f |]; [| cbn; auto].
  destruct (Face.extractFaceTransform (Face.keypoints f)); cbn; auto.
  destruct (applySmoothing a (st w)); cbn; auto.
Qed.

Lemma resume_tuned (face : option Face.face) (now : R) (w : world) :
  tuned (st w) -> tuned (st (runDetection_resume face now w)).
Proof.
  intros H. destruct face as [f |]; [| exact H].
  destruct (Face.extractFaceTransform (Face.keypoints f)) as [raw | |] eqn:E;
    [| unfold runDetection_resume; rewrite E; exact H ..].
  rewrite (resume_face _ _ _ _ E).
  apply (applySmoothing_tuned raw) in H. unfold tuned in *. exact H.
Qed.

(** Every page the browser can reach keeps the tuning constants and a
    guard flag that agrees with the outstanding detections. *)
Lemma reachable_invariant (t0 : R) (w : world) :
  reachable t0 w -> tuned (st w) /\ guard_consistent w.
Proof.
  induction 1 as [| w e w' effects Hreach [Htuned Hguard] Hstep].
  - unfold tuned, guard_consistent. cbn. auto.
  - destruct e; cbn in Hstep.
    + inversion Hstep; subst; clear Hstep. split; assumption.
    + inversion Hstep; subst; clear Hstep. split; assumption.
    + inversion Hstep; subst; clear Hstep. split; assumption.
    + replace w' with (fst (renderLoop now w))
        by (injection Hstep as Hs; now rewrite Hs).
      split; [now apply renderLoop_tuned | now apply renderLoop_guard].
    + destruct (inflight w) as [| k] eqn:Ein; [discriminate |].
      inversion Hstep; subst; clear Hstep.
      split; [now apply resume_tuned |].
      destruct (resume_guard_cleared face now w) as (Hd & Hi & _).
      unfold guard_consistent in *. rewrite Hd, Hi.
      destruct (detecting w); rewrite Hguard in *; [reflexivity | discriminate].
    + inversion Hstep; subst; clear Hstep. split; assumption.
    + inversion Hstep; subst; clear Hstep. split; assumption.
    + inversion Hstep; subst; clear Hstep. split; assumption.
    + inversion Hstep; subst; clear Hstep. split; assumption.
Qed.

Lemma tryLoadImage_sized (loaded : option Render.image) :
  (20 <= Render.width (tryLoadImage loaded Render.generateFallbackGlasses))%Z /\
  (20 <= Render.height (tryLoadImage loaded Render.generateFallbackGlasses))%Z.
Proof.
  unfold tryLoadImage. destruct loaded as [image |]; [| cbn; lia].
  destruct (Z.ltb (Render.width image) 20) eqn:Ew;
    destruct (Z.ltb (Render.height image) 20) eqn:Eh;
    cbn [orb]; cbn; lia.
Qed.

Lemma renderLoop_keeps_assets (now : R) (w : world) :
  glassesAssets (fst (renderLoop now w)) = glassesAssets w.
Proof. loop_cases now w; reflexivity. Qed.

(** The size guard of the loader holds for every asset of every page
    the browser can reach, so no overlay image has width 0. *)
Lemma reachable_assets_sized (t0 : R) (w : world) :
  reachable t0 w -> assets_sized w.
Proof.
  unfold assets_sized.
  induction 1 as [| w e w' effects Hreach IH Hstep]; [constructor |].
  destruct e; cbn in Hstep;
    try (injection Hstep as <- _; exact IH).
  - injection Hstep as <- _. cbn [glassesAssets].
    apply Forall_app. split; [exact IH |].
    unfold loadGlassesAssets. apply Forall_map, Forall_forall.
    intros l _. cbn [img halves].
    destruct (tryLoadImage_sized l). auto.
  - injection Hstep as Hloop.
    replace w' with (fst (renderLoop now w)) by (now rewrite Hloop).
    now rewrite renderLoop_keeps_assets.
  - destruct (inflight w); [discriminate |]. injection Hstep as <- _.
    destruct (resume_guard_cleared face now w) as (_ & _ & _ & E).
    now rewrite E.
Qed.

End DetectionFacts.

Section Session.

Import Main.

Lemma after_reachable (t0 : R) (events : list event) :
  forall w, reachable t0 w -> reachable t0 (after events w).
Proof.
  induction events as [| e rest IH]; intros w Hw; cbn [after]; [exact Hw |].
  destruct (step e w) as [[w' effects] |] eqn:E; [| now apply IH].
  apply IH. exact (reachable_step t0 w e w' effects Hw E).
Qed.

Lemma after_step (e : event) (rest : list event) (w w' : world)
      (effects : list effect) :
  step e w = Some (w', effects) -> after (e :: rest) w = after rest w'.
Proof. intros E. cbn [after]. now rewrite E. Qed.

Lemma after_frame (now : R) (rest : list event) (w : world) :
  after (AnimationFrame now :: rest) w = after rest (fst (renderLoop now w)).
Proof. cbn [after step]. now destruct (renderLoop now w). Qed.

(** A frame off the detection cadence only counts. *)
Lemma renderLoop_off_cadence (now : R) (w : world) :
  running (st w) = true ->
  Js.mod_is_zero (S (frameCount (st w))) (detectionInterval (st w)) = false ->
  exists count last rate,
    fst (renderLoop now w) =
    set_st (set_fps count last rate
              (set_frameCount (S (frameCount (st w))) (st w))) w.
Proof.
  intros Hrun Hmod.
  loop_cases now w; try discriminate; cbn in Emod;
    try congruence; do 3 eexists; reflexivity.
Qed.

(** A frame on the cadence, with the model loaded and the guard clear,
    starts a detection. *)
Lemma renderLoop_on_cadence (now : R) (w : world) :
  running (st w) = true ->
  Js.mod_is_zero (S (frameCount (st w))) (detectionInterval (st w)) = true ->
  modelReady w = true ->
  detecting w = false ->
  exists count last rate,
    fst (renderLoop now w) =
    set_st (set_fps count last rate
              (set_frameCount (S (frameCount (st w))) (st w)))
           (set_detecting true (S (inflight w)) w).
Proof.
  intros Hrun Hmod Hready Hdet.
  loop_cases now w; try discriminate; cbn in Emod;
    try congruence; do 3 eexists; reflexivity.
Qed.

(** In the sample session the page is reachable, runs, and has exactly
    one detection outstanding, with the guard set. *)
Lemma busy_page :
  reachable 0 Sample.busy /\
  running (st Sample.busy) = true /\
  detecting Sample.busy = true /\
  inflight Sample.busy = 1%nat /\
  smooth (st Sample.busy) = None.
Proof.
  split; [apply after_reachable, reachable_initial |].
  unfold Sample.busy, Sample.startup.
  erewrite after_step by reflexivity.
  erewrite after_step by reflexivity.
  rewrite !after_frame. cbn [after].
  match goal with
  | |- context [renderLoop 0 ?w] =>
      destruct (renderLoop_off_cadence 0 w) as (c1 & l1 & r1 & E1);
      [reflexivity | reflexivity | rewrite E1]
  end.
  match goal with
  | |- context [renderLoop 16 ?w] =>
      destruct (renderLoop_on_cadence 16 w) as (c2 & l2 & r2 & E2);
      [reflexivity | reflexivity | reflexivity | reflexivity | rewrite E2]
  end.
  repeat split; reflexivity.
Qed.

(** Once the detection has resolved to a face the page is still
    reachable and the smoothing state is seeded. *)
Lemma tracked_page :
  reachable 0 Sample.tracked /\
  exists s0, smooth (st Sample.tracked) = Some s0.
Proof.
  destruct busy_page as (Hreach & _ & _ & Hin & _).
  split; [apply after_reachable; exact Hreach |].
  unfold Sample.tracked. cbn [after step]. rewrite Hin.
  destruct (extract_full_mesh Sample.mesh478) as (raw & Hraw);
    [assert (L : length Sample.mesh478 = 478%nat) by reflexivity;
     rewrite L; lia |].
  rewrite (resume_face (Face.mkFace Sample.mesh478) raw 20 Sample.busy Hraw).
  cbn [set_lastFaceTime set_lastRawTransform smooth].
  destruct (applySmoothing_returns_state raw (st Sample.busy)) as (s1 & Hs1 & _).
  now exists s1.
Qed.

End Session.

Section SmoothingClaims.

Import Main.

(** C3.  On every page the browser can reach, a call of
    [applySmoothing] hands back the raw keypoints and a copy of the
    scalars it has just persisted.  When the smoothing state is empty
    (as it is when the script starts and after [stopCamera]) these
    scalars are the raw ones, unchanged; otherwise each of them is
    [s + (raw.s - s) * 0.35], the blend factor being the constant of
    the [state] object.  The embedded entry point hands back the same
    descriptor. *)
Theorem applySmoothing_seed_then_blend (t0 : R) (w : world) (raw : Transform.t) :
  reachable t0 w ->
  Pose.keypoints (snd (applySmoothing raw (st w))) = Transform.keypoints raw /\
  (exists s1,
      smooth (fst (applySmoothing raw (st w))) = Some s1 /\
      forall f, smoothed_field f s1 = pose_field f (snd (applySmoothing raw (st w)))) /\
  (smooth (st w) = None ->
   forall f, pose_field f (snd (applySmoothing raw (st w))) = raw_field f raw) /\
  (forall s0, smooth (st w) = Some s0 ->
   forall f,
     pose_field f (snd (applySmoothing raw (st w))) =
     smoothed_field f s0 + (raw_field f raw - smoothed_field f s0) * 0.35) /\
  smooth (st (initial t0)) = None /\
  smooth (st (stopCamera w)) = None /\
  snd (applySmoothing_png raw (st w)) = snd (applySmoothing raw (st w)).
Proof.
  intros Hreach.
  destruct (reachable_invariant t0 w Hreach) as [(_ & Halpha & _) _].
  destruct (applySmoothing_returns_state raw (st w)) as (s1 & Hs1 & Hpose).
  rewrite Hpose.
  split; [reflexivity |].
  split.
  { exists s1. split; [exact Hs1 |]. intros f.
    now rewrite pose_field_buildSmoothed. }
  split.
  { intros Hnone f. rewrite pose_field_buildSmoothed.
    destruct (applySmoothing_seed raw (st w) Hnone) as (s1' & Hs1' & Hseed).
    rewrite Hs1 in Hs1'. injection Hs1' as <-. apply Hseed. }
  split.
  { intros s0 Hsome f. rewrite pose_field_buildSmoothed.
    destruct (applySmoothing_lerp raw (st w) s0 Hsome) as (s1' & Hs1' & Hlerp).
    rewrite Hs1 in Hs1'. injection Hs1' as <-.
    rewrite Hlerp, Halpha. reflexivity. }
  split; [reflexivity |]. split; [reflexivity |].
  rewrite <- Hpose. apply applySmoothing_png_agrees.
Qed.

Lemma applySmoothing_seed_then_blend_witness :
  (Pose.keypoints (snd (applySmoothing Sample.raw (st Sample.busy))) =
     Sample.mesh468 /\
   forall f,
     pose_field f (snd (applySmoothing Sample.raw (st Sample.busy))) =
     raw_field f Sample.raw) /\
  (exists s0,
      smooth (st Sample.tracked) = Some s0 /\
      forall f,
        pose_field f (snd (applySmoothing Sample.raw (st Sample.tracked))) =
        smoothed_field f s0 + (raw_field f Sample.raw - smoothed_field f s0) * 0.35).
Proof.
  destruct busy_page as (Hbusy & _ & _ & _ & Hempty).
  destruct tracked_page as (Htracked & s0 & Hseeded).
  split.
  - destruct (applySmoothing_seed_then_blend 0 Sample.busy Sample.raw Hbusy)
      as (Hk & _ & Hseed & _).
    split; [exact Hk | exact (Hseed Hempty)].
  - destruct (applySmoothing_seed_then_blend 0 Sample.tracked Sample.raw Htracked)
      as (_ & _ & _ & Hblend & _).
    exists s0. split; [exact Hseeded | exact (Hblend s0 Hseeded)].
Defined.

Lemma lerp_error (a b t : R) : lerp a b t - b = (a - b) * (1 - t).
Proof. unfold lerp. ring. Qed.

Lemma feed_smoothingFactor (raw : Transform.t) (n : nat) (s : state) :
  smoothingFactor (feed raw n s) = smoothingFactor s.
Proof.
  induction n as [| n IH]; [reflexivity |].
  cbn [feed]. now rewrite applySmoothing_smoothingFactor.
Qed.

(** One more call on the same raw pose multiplies the distance of every
    field by [1 - alpha]. *)
Lemma field_distance_step (f : scalar) (raw : Transform.t) (s : state) (s0 : Smooth.t) :
  smooth s = Some s0 ->
  0 < smoothingFactor s <= 1 ->
  field_distance f raw (fst (applySmoothing raw s)) =
  field_distance f raw s * (1 - smoothingFactor s).
Proof.
  intros Hs Ha.
  destruct (applySmoothing_lerp raw s s0 Hs) as (s1 & Hs1 & Hlerp).
  unfold field_distance. rewrite Hs, Hs1, Hlerp, lerp_error, Rabs_mult.
  f_equal. apply Rabs_right. lra.
Qed.

Lemma feed_seeded (raw : Transform.t) (n : nat) (s : state) (s0 : Smooth.t) :
  smooth s = Some s0 -> exists sn, smooth (feed raw n s) = Some sn.
Proof.
  intros Hs. destruct n as [| n]; [now exists s0 |].
  cbn [feed].
  destruct (applySmoothing_returns_state raw (feed raw n s)) as (s1 & Hs1 & _).
  now exists s1.
Qed.

(** Closed form of the distance after [n] calls. *)
Lemma field_distance_feed (f : scalar) (raw : Transform.t) (s : state)
      (s0 : Smooth.t) (n : nat) :
  smooth s = Some s0 ->
  0 < smoothingFactor s <= 1 ->
  field_distance f raw (feed raw n s) =
  field_distance f raw s * (1 - smoothingFactor s) ^ n.
Proof.
  intros Hs Ha. induction n as [| n IH]; [cbn; ring |].
  cbn [feed].
  destruct (feed_seeded raw n s s0 Hs) as (sn & Hsn).
  rewrite (field_distance_step f raw _ sn Hsn), feed_smoothingFactor, IH
    by (rewrite feed_smoothingFactor; exact Ha).
  cbn [pow]. ring.
Qed.

Lemma field_distance_nonneg (f : scalar) (raw : Transform.t) (s : state) :
  0 <= field_distance f raw s.
Proof.
  unfold field_distance. destruct (smooth s); [apply Rabs_pos | lra].
Qed.

(** C4.  In exact arithmetic, that is with the blend
    [a + (b - a) * t] computed without rounding: feed a seeded smoother
    the same raw pose again and again, with any blend factor in (0, 1].
    For each of the five scalar fields the distance to the raw value
    never grows from one call to the next, it shrinks strictly as long
    as it is not yet zero, and it tends to zero as the number of calls
    tends to infinity.  The descriptor a call hands back carries the
    field it has just persisted.  On binary64 the blend can come to
    rest one rounding step away from the raw value; the run is in the
    section on machine arithmetic. *)
Theorem smoothing_converges (f : scalar) (raw : Transform.t) (s : state)
        (s0 : Smooth.t) :
  smooth s = Some s0 ->
  0 < smoothingFactor s <= 1 ->
  (forall n,
      field_distance f raw (feed raw (S n) s) <=
      field_distance f raw (feed raw n s)) /\
  (forall n,
      0 < field_distance f raw (feed raw n s) ->
      field_distance f raw (feed raw (S n) s) <
      field_distance f raw (feed raw n s)) /\
  Un_cv (fun n => field_distance f raw (feed raw n s)) 0 /\
  (forall n,
      field_distance f raw (feed raw (S n) s) =
      Rabs (pose_field f (snd (applySmoothing raw (feed raw n s))) -
            raw_field f raw)).
Proof.
  intros Hs Ha.
  assert (Hstep : forall n,
             field_distance f raw (feed raw (S n) s) =
             field_distance f raw (feed raw n s) * (1 - smoothingFactor s)).
  { intros n. destruct (feed_seeded raw n s s0 Hs) as (sn & Hsn).
    cbn [feed].
    rewrite (field_distance_step f raw _ sn Hsn), feed_smoothingFactor
      by (rewrite feed_smoothingFactor; exact Ha).
    reflexivity. }
  split; [| split; [| split]].
  4: { intros n. cbn [feed]. unfold field_distance.
       destruct (applySmoothing_returns_state raw (feed raw n s))
         as (s1 & Hs1 & Hpose).
       now rewrite Hs1, Hpose, pose_field_buildSmoothed. }
  - intros n. rewrite Hstep.
    pose proof (field_distance_nonneg f raw (feed raw n s)). nra.
  - intros n Hpos. rewrite Hstep. nra.
  - intros eps Heps.
    pose proof (field_distance_nonneg f raw s) as Hd0.
    destruct (Req_dec (field_distance f raw s) 0) as [Hz | Hnz].
    + exists 0%nat. intros n _.
      rewrite (field_distance_feed f raw s s0 n Hs Ha), Hz.
      unfold R_dist. rewrite Rmult_0_l, Rminus_0_r, Rabs_R0. exact Heps.
    + assert (Hd : 0 < field_distance f raw s) by lra.
      destruct (pow_lt_1_zero (1 - smoothingFactor s)) with
        (y := eps / field_distance f raw s) as [N HN].
      * apply Rabs_def1; lra.
      * apply Rdiv_lt_0_compat; assumption.
      * exists N. intros n Hn.
        rewrite (field_distance_feed f raw s s0 n Hs Ha).
        unfold R_dist. rewrite Rminus_0_r, Rabs_mult.
        rewrite (Rabs_right (field_distance f raw s)) by lra.
        specialize (HN n Hn).
        apply Rmult_lt_compat_l with (r := field_distance f raw s) in HN;
          [| exact Hd].
        replace (field_distance f raw s * (eps / field_distance f raw s))
          with eps in HN by (field; lra).
        exact HN.
Qed.

Lemma smoothing_converges_witness :
  (forall n,
      field_distance Yaw Sample.raw (feed Sample.raw (S n) Sample.seeded) <=
      field_distance Yaw Sample.raw (feed Sample.raw n Sample.seeded)) /\
  Un_cv (fun n => field_distance Yaw Sample.raw (feed Sample.raw n Sample.seeded)) 0.
Proof.
  destruct (smoothing_converges Yaw Sample.raw Sample.seeded
              {| Smooth.centerX := 300;
                 Smooth.centerY := 200;
                 Smooth.eyeDistance := 100;
                 Smooth.roll := 0.25;
                 Smooth.yaw := -0.5;
                 Smooth.keypoints := Some Sample.mesh478 |})
    as (Hmono & _ & Hcv & _).
  - reflexivity.
  - cbn. lra.
  - split; assumption.
Defined.

End SmoothingClaims.

Section YawRange.

Import Main.

(** Whatever the extractor returns has its yaw clamped. *)
Lemma extract_yaw_clamped (keypoints : list Point.t) (t : Transform.t) :
  Face.extractFaceTransform keypoints = Ok t -> -1 <= Transform.yaw t <= 1.
Proof.
  unfold Face.extractFaceTransform.
  match goal with
  | |- context [bind ?m _] => destruct m as [[leftEye rightEye] | |]
  end; cbn [bind]; try discriminate.
  repeat match goal with
    | |- context [Js.index ?a ?i] =>
        destruct (Js.index a i); cbn [bind]; try discriminate
    end.
  rewrite yaw0_checked. cbn [bind].
  destruct (Point.z leftEye); [destruct (Point.z rightEye) |];
    try rewrite zYaw_checked; cbn [bind];
    intros H; injection H as <-; cbn [Transform.yaw];
    apply clamp_bounds; lra.
Qed.

(** A blend of two values of an interval stays in the interval. *)
Lemma lerp_between (lo hi a b t : R) :
  lo <= a <= hi -> lo <= b <= hi -> 0 <= t <= 1 -> lo <= lerp a b t <= hi.
Proof. unfold lerp. intros Ha Hb Ht. nra. Qed.

(** One call of the smoother keeps the yaw in range. *)
Lemma applySmoothing_yaw_range (raw : Transform.t) (s : state) :
  0 < smoothingFactor s <= 1 ->
  (forall s0, smooth s = Some s0 -> -1 <= Smooth.yaw s0 <= 1) ->
  -1 <= Transform.yaw raw <= 1 ->
  -1 <= Pose.yaw (snd (applySmoothing raw s)) <= 1 /\
  (forall s1, smooth (fst (applySmoothing raw s)) = Some s1 ->
              -1 <= Smooth.yaw s1 <= 1).
Proof.
  intros Ha Hs Hraw. unfold applySmoothing.
  destruct (smooth s) as [s0 |]; cbn.
  - assert (-1 <= lerp (Smooth.yaw s0) (Transform.yaw raw) (smoothingFactor s) <= 1)
      by (apply lerp_between; auto; lra).
    split; [assumption |]. intros s1 E. injection E as <-. assumption.
  - split; [assumption |]. intros s1 E. injection E as <-. assumption.
Qed.

Lemma descriptors_yaw_range (frames : list (list Point.t)) :
  forall s : state,
    0 < smoothingFactor s <= 1 ->
    (forall s0, smooth s = Some s0 -> -1 <= Smooth.yaw s0 <= 1) ->
    Forall (fun d => -1 <= Transform.yaw (fst d) <= 1 /\
                     -1 <= Pose.yaw (snd d) <= 1)
           (descriptors frames s).
Proof.
  induction frames as [| keypoints rest IH]; intros s Ha Hs; cbn [descriptors].
  - constructor.
  - destruct (Face.extractFaceTransform keypoints) as [raw | |] eqn:E;
      try (apply IH; assumption).
    pose proof (extract_yaw_clamped _ _ E) as Hraw.
    destruct (applySmoothing_yaw_range raw s Ha Hs Hraw) as [Hpose Hnext].
    pose proof (applySmoothing_smoothingFactor raw s) as Hfactor.
    destruct (applySmoothing raw s) as [s1 smoothed]. cbn [fst snd] in *.
    constructor; [split; assumption |].
    apply IH; [rewrite Hfactor; exact Ha | exact Hnext].
Qed.

(** C10.  Start from an empty smoothing state, with any blend factor in
    (0, 1], and run any sequence of detections through the extractor
    and the smoother: every descriptor that comes out, the raw one of
    the extractor and the smoothed one of the smoother, has its yaw in
    [-1, 1].  The extractor clamps; the smoother seeds with a raw value
    and then only blends values of the interval. *)
Theorem yaw_always_in_range (frames : list (list Point.t)) (s : state) :
  0 < smoothingFactor s <= 1 ->
  smooth s = None ->
  Forall (fun d => -1 <= Transform.yaw (fst d) <= 1 /\
                   -1 <= Pose.yaw (snd d) <= 1)
         (descriptors frames s).
Proof.
  intros Ha Hs. apply descriptors_yaw_range; [exact Ha |].
  intros s0 E. congruence.
Qed.

Lemma yaw_always_in_range_witness :
  Forall (fun d => -1 <= Transform.yaw (fst d) <= 1 /\
                   -1 <= Pose.yaw (snd d) <= 1)
         (descriptors [Sample.mesh478; Sample.mesh468; Sample.mesh478]
                      (initial_state 0)).
Proof.
  apply (yaw_always_in_range [Sample.mesh478; Sample.mesh468; Sample.mesh478]
           (initial_state 0)).
  - cbn. lra.
  - reflexivity.
Defined.

(** The same on the running page: the pose the loop draws and the
    persisted yaw are in range on every page the browser can reach. *)
Lemma reachable_yaw_in_range (t0 : R) (w : world) :
  reachable t0 w ->
  (forall s0, smooth (st w) = Some s0 -> -1 <= Smooth.yaw s0 <= 1) /\
  (forall t, lastRawTransform (st w) = Some t -> -1 <= Pose.yaw t <= 1).
Proof.
  intros Hreach.
  induction Hreach as [| w e w' effects Hreach [IHs IHt] Hstep].
  - split; intros ? E; discriminate.
  - pose proof (reachable_invariant t0 w Hreach) as [(_ & Halpha & _) _].
    destruct e; cbn in Hstep;
      try (injection Hstep as <- _; split; [exact IHs | exact IHt]).
    + injection Hstep as <- _. split; intros ? E; discriminate.
    + injection Hstep as Hs.
      destruct (renderLoop_keeps_pose now w) as (E1 & E2 & _).
      rewrite Hs in E1, E2. cbn [fst] in E1, E2. rewrite E1, E2.
      split; assumption.
    + destruct (inflight w); [discriminate |]. injection Hstep as <- _.
      destruct face as [f |]; [| split; assumption].
      destruct (Face.extractFaceTransform (Face.keypoints f)) as [raw | |] eqn:E;
        [| unfold runDetection_resume; rewrite E; split; assumption ..].
      rewrite (resume_face _ _ _ _ E).
      cbn [set_lastFaceTime set_lastRawTransform smooth lastRawTransform].
      destruct (applySmoothing_yaw_range raw (st w)) as [Hpose Hnext];
        [rewrite Halpha; lra | exact IHs | exact (extract_yaw_clamped _ _ E) |].
      split; [exact Hnext |]. intros t Ht. injection Ht as <-. exact Hpose.
Qed.

End YawRange.

Section LoopClaims.

Import Main.

(** C5.  On a running page that holds a pose and has the selected
    glasses loaded, with the grace period at 500 ms: the overlay is
    drawn by a run of the loop exactly when [now - lastFaceTime < 500]
    at that run (nothing else is consulted); a pose stamped at clock 0
    is drawn at clock 499 and not drawn at clock 501; after a detection
    that failed, the overlay is still drawn while the pose is young
    enough, with the very pose that was held; and the loop itself
    neither smooths nor restamps. *)
Theorem grace_period (now : R) (w : world) (t : Pose.t) (gl : asset) :
  running (st w) = true ->
  lastRawTransform (st w) = Some t ->
  nth_error (glassesAssets w) (currentFrameIndex (st w)) = Some gl ->
  faceTimeoutMs (st w) = 500 ->
  (overlay_drawn (snd (renderLoop now w)) = true <->
   now - lastFaceTime (st w) < 500) /\
  (lastFaceTime (st w) = 0 ->
   overlay_drawn (snd (renderLoop 499 w)) = true /\
   overlay_drawn (snd (renderLoop 501 w)) = false) /\
  (forall failedAt,
      now - lastFaceTime (st w) < 500 ->
      filter is_DrawGlasses
             (snd (renderLoop now (runDetection_resume None failedAt w))) =
      [DrawGlasses (halves gl) t (img gl)
                   (frameScaleMultiplier (st w)) (verticalOffset (st w))]) /\
  smooth (st (fst (renderLoop now w))) = smooth (st w) /\
  lastRawTransform (st (fst (renderLoop now w))) = Some t /\
  lastFaceTime (st (fst (renderLoop now w))) = lastFaceTime (st w).
Proof.
  intros Hrun Ht Hgl Htimeout.
  assert (Hiff : forall clock,
             overlay_drawn (snd (renderLoop clock w)) = true <->
             clock - lastFaceTime (st w) < 500).
  { intros clock. rewrite overlay_drawn_iff. unfold overlay_visible.
    rewrite Htimeout. split; [tauto | eauto 10]. }
  split; [apply Hiff |].
  split.
  { intros Hstamp. split.
    - apply Hiff. rewrite Hstamp. lra.
    - destruct (overlay_drawn (snd (renderLoop 501 w))) eqn:E; [| reflexivity].
      apply Hiff in E. rewrite Hstamp in E. lra. }
  split.
  { intros failedAt Hyoung. rewrite resume_none.
    apply (overlay_uses_held_pose now
             (set_detecting false (Nat.pred (inflight w)) w) t gl);
      cbn [set_detecting st glassesAssets]; try assumption.
    rewrite Htimeout. exact Hyoung. }
  destruct (renderLoop_keeps_pose now w) as (E1 & E2 & E3).
  rewrite E1, E2, E3. auto.
Qed.

Lemma grace_period_witness :
  overlay_drawn (snd (renderLoop 499 Sample.tracking)) = true /\
  overlay_drawn (snd (renderLoop 501 Sample.tracking)) = false /\
  filter is_DrawGlasses
         (snd (renderLoop 250 (runDetection_resume None 100 Sample.tracking))) =
  [DrawGlasses (halves Sample.glasses) Sample.pose (img Sample.glasses) 1.0 0].
Proof.
  destruct (grace_period 250 Sample.tracking Sample.pose Sample.glasses)
    as (_ & Hboundary & Hfrozen & _); try reflexivity.
  destruct Hboundary as [H499 H501]; [reflexivity |].
  split; [exact H499 |]. split; [exact H501 |].
  apply (Hfrozen 100). cbn. lra.
Defined.

(** When a run of the loop starts a detection. *)
Lemma renderLoop_starts_detection (now : R) (w : world) :
  detection_started (snd (renderLoop now w)) = true ->
  Js.mod_is_zero (S (frameCount (st w))) (detectionInterval (st w)) = true /\
  frameCount (st (fst (renderLoop now w))) = S (frameCount (st w)) /\
  detecting w = false /\
  inflight (fst (renderLoop now w)) = S (inflight w).
Proof.
  unfold detection_started.
  loop_cases now w; try discriminate;
    overlay_cases; cbn; intros H; try discriminate H;
    cbn in Emod; repeat split; auto.
Qed.

(** A run of the loop that starts no detection leaves the outstanding
    ones as they are. *)
Lemma renderLoop_without_detection (now : R) (w : world) :
  detection_started (snd (renderLoop now w)) = false ->
  inflight (fst (renderLoop now w)) = inflight w.
Proof.
  unfold detection_started.
  loop_cases now w; try reflexivity;
    overlay_cases; cbn; intros H; try discriminate H; reflexivity.
Qed.

(** The guard: while [detecting] is set, the loop starts nothing. *)
Lemma renderLoop_guarded (now : R) (w : world) :
  detecting w = true -> detection_started (snd (renderLoop now w)) = false.
Proof.
  intros Hdet.
  destruct (detection_started (snd (renderLoop now w))) eqn:E; [| reflexivity].
  apply renderLoop_starts_detection in E. destruct E as (_ & _ & E & _).
  congruence.
Qed.

(** C8.  On every page the browser can reach at most one detection is
    outstanding, and this stays so after any further callback.  A
    callback that starts a detection is an animation frame whose
    incremented [frameCount] is a multiple of 2, taken while the guard
    was clear and nothing was outstanding.  While the guard is set no
    callback starts a detection, and a callback that starts none does
    not add to the outstanding ones: a skipped request is dropped, not
    queued. *)
Theorem single_detection_in_flight (t0 : R) (w : world) :
  reachable t0 w ->
  (inflight w <= 1)%nat /\
  detectionInterval (st w) = 2%nat /\
  forall e w' effects,
    step e w = Some (w', effects) ->
    (inflight w' <= 1)%nat /\
    (detection_started effects = true ->
     (exists now, e = AnimationFrame now) /\
     frameCount (st w') = S (frameCount (st w)) /\
     Nat.modulo (frameCount (st w')) 2 = 0%nat /\
     detecting w = false /\ inflight w = 0%nat /\ inflight w' = 1%nat) /\
    (detecting w = true -> detection_started effects = false) /\
    (detection_started effects = false -> (inflight w' <= inflight w)%nat).
Proof.
  intros Hreach.
  destruct (reachable_invariant t0 w Hreach) as [(Hinterval & _) Hguard].
  assert (Hbound : forall v, reachable t0 v -> (inflight v <= 1)%nat).
  { intros v Hv. destruct (reachable_invariant t0 v Hv) as [_ Hg].
    unfold guard_consistent in Hg. destruct (detecting v); lia. }
  split; [now apply Hbound |]. split; [exact Hinterval |].
  intros e w' effects Hstep.
  split; [apply Hbound; eapply reachable_step; eassumption |].
  destruct e; cbn in Hstep;
    try (injection Hstep as <- <-;
         cbn [detection_started existsb is_DetectFace orb];
         split; [discriminate |]; split; [reflexivity |];
         intros _; cbn; lia).
  - injection Hstep as Hloop.
    assert (Ew : w' = fst (renderLoop now w)) by (now rewrite Hloop).
    assert (Ee : effects = snd (renderLoop now w)) by (now rewrite Hloop).
    subst w' effects. clear Hloop.
    split; [| split].
    + intros Hstart.
      destruct (renderLoop_starts_detection now w Hstart)
        as (Hmod & Hcount & Hdet & Hin).
      unfold guard_consistent in Hguard. rewrite Hdet in Hguard.
      rewrite Hinterval in Hmod. cbn [Js.mod_is_zero] in Hmod.
      apply Nat.eqb_eq in Hmod.
      split; [now exists now |]. rewrite Hcount, Hin, Hguard. auto.
    + apply renderLoop_guarded.
    + intros Hnone. rewrite (renderLoop_without_detection now w Hnone). lia.
  - destruct (inflight w) as [| k] eqn:Ein; [discriminate |].
    injection Hstep as <- <-.
    cbn [detection_started existsb].
    split; [discriminate |]. split; [reflexivity |]. intros _.
    destruct (resume_guard_cleared face now w) as (_ & Hi & _).
    rewrite Hi, Ein. cbn. lia.
Qed.

Lemma single_detection_in_flight_witness :
  inflight Sample.busy = 1%nat /\
  detecting Sample.busy = true /\
  forall now w' effects,
    step (AnimationFrame now) Sample.busy = Some (w', effects) ->
    detection_started effects = false /\ (inflight w' <= 1)%nat.
Proof.
  destruct busy_page as (Hreach & _ & Hdet & Hin & _).
  destruct (single_detection_in_flight 0 Sample.busy Hreach)
    as (_ & _ & Hnext).
  split; [exact Hin |]. split; [exact Hdet |].
  intros now w' effects Hstep.
  destruct (Hnext (AnimationFrame now) w' effects Hstep)
    as (Hbound & _ & Hguarded & _).
  split; [apply Hguarded; exact Hdet | exact Hbound].
Defined.







End LoopClaims.

(* ================================================================== *)
(** ** Properties of render.js *)
(* ================================================================== *)

Section RenderClaims.

(** The anchor span of an image that has a width is positive. *)
Lemma anchorSpan_positive (glassesImg : Render.image) :
  (0 < Render.width glassesImg)%Z -> 0 < Render.anchorSpan glassesImg.
Proof.
  intros Hw. unfold Render.anchorSpan, Render.ANCHOR_RIGHT_X, Render.ANCHOR_LEFT_X.
  apply IZR_lt in Hw. nra.
Qed.

Lemma baseScale_value (eyeDistance scaleMultiplier : R) (glassesImg : Render.image) :
  (0 < Render.width glassesImg)%Z ->
  Render.baseScale eyeDistance glassesImg scaleMultiplier =
  Ok (eyeDistance / Render.anchorSpan glassesImg * scaleMultiplier).
Proof.
  intros Hw. unfold Render.baseScale.
  pose proof (anchorSpan_positive glassesImg Hw).
  rewrite div_nonzero by lra. reflexivity.
Qed.

(** C6.  In exact arithmetic, for an image that has a width: the anchor
    span [(0.70 - 0.30) * width] is the distance between the points at
    30 % and at 70 % of the width, and [drawGlasses] scales by
    [baseScale = eyeDistance / anchorSpan * scaleMultiplier]: exactly 2
    when the eye distance is twice the anchor span and the multiplier
    is 1.0, and twice as much when the multiplier is doubled.  On
    binary64 the computed span can differ from that distance in the
    last place; the run is in the section on machine arithmetic. *)
Theorem baseScale_law (eyeDistance scaleMultiplier : R) (glassesImg : Render.image) :
  (0 < Render.width glassesImg)%Z ->
  Render.anchorSpan glassesImg =
    0.70 * IZR (Render.width glassesImg) - 0.30 * IZR (Render.width glassesImg) /\
  Render.baseScale eyeDistance glassesImg scaleMultiplier =
    Ok (eyeDistance / Render.anchorSpan glassesImg * scaleMultiplier) /\
  Render.baseScale (2 * Render.anchorSpan glassesImg) glassesImg 1.0 = Ok 2 /\
  Render.baseScale eyeDistance glassesImg (2 * scaleMultiplier) =
    Ok (2 * (eyeDistance / Render.anchorSpan glassesImg * scaleMultiplier)).
Proof.
  intros Hw. pose proof (anchorSpan_positive glassesImg Hw) as Hspan.
  split.
  { unfold Render.anchorSpan, Render.ANCHOR_RIGHT_X, Render.ANCHOR_LEFT_X. ring. }
  rewrite !baseScale_value by exact Hw.
  split; [reflexivity |].
  split; apply f_equal.
  - replace (2 * Render.anchorSpan glassesImg / Render.anchorSpan glassesImg)
      with 2 by (field; lra).
    lra.
  - ring.
Qed.

Lemma baseScale_law_witness :
  Render.baseScale 320 (Main.img Sample.glasses) 1.0 = Ok 2 /\
  Render.baseScale 320 (Main.img Sample.glasses) (2 * 1.0) = Ok (2 * 2).
Proof.
  destruct (baseScale_law 320 1.0 (Main.img Sample.glasses))
    as (Hspan & Hbase & Htwo & Hdouble); [reflexivity |].
  assert (E : Render.anchorSpan (Main.img Sample.glasses) = 160)
    by (rewrite Hspan; cbn; lra).
  rewrite E in *.
  replace (320 / 160 * 1.0) with 2 in * by lra.
  split; [exact Hbase | exact Hdouble].
Defined.

(** C7.  Once [baseScale] is known, [drawGlasses] draws the left half
    [halfW * (1 + yaw * 0.40)] wide and [glassesH * (1 + yaw * 0.12)]
    high, and the right half [halfW * (1 - yaw * 0.40)] wide and
    [glassesH * (1 - yaw * 0.12)] high.  For a yaw of 0.5 the width
    factors are 1.20 and 0.80; for a yaw of 0 the two halves get the
    same factors. *)
Theorem yaw_half_scaling (halves : Render.halves_t) (transform : Pose.t)
        (glassesImg : Render.image) (scaleMultiplier verticalOffset b : R) :
  Render.baseScale (Pose.eyeDistance transform) glassesImg scaleMultiplier = Ok b ->
  let yaw := Pose.yaw transform in
  let halfW := IZR (Render.width glassesImg) * b / 2 in
  let glassesH := IZR (Render.height glassesImg) * b in
  let anchorOffsetY := (0.45 - 0.5) * glassesH in
  Render.lWidthScale yaw = 1 + yaw * 0.40 /\
  Render.rWidthScale yaw = 1 - yaw * 0.40 /\
  Render.lHeightScale yaw = 1 + yaw * 0.12 /\
  Render.rHeightScale yaw = 1 - yaw * 0.12 /\
  Render.drawGlasses halves transform glassesImg scaleMultiplier verticalOffset =
    Ok [ Render.Save;
         Render.Translate (Point.x (Pose.center transform))
                          (Point.y (Pose.center transform) + verticalOffset);
         Render.Rotate (Pose.roll transform);
         Render.DrawImage (Render.left halves) 0 0
           (IZR (Render.width (Render.left halves)))
           (IZR (Render.height (Render.left halves)))
           (- (halfW * (1 + yaw * 0.40)))
           (- (glassesH * (1 + yaw * 0.12)) / 2 + anchorOffsetY)
           (halfW * (1 + yaw * 0.40))
           (glassesH * (1 + yaw * 0.12));
         Render.DrawImage (Render.right halves) 0 0
           (IZR (Render.width (Render.right halves)))
           (IZR (Render.height (Render.right halves)))
           0
           (- (glassesH * (1 - yaw * 0.12)) / 2 + anchorOffsetY)
           (halfW * (1 - yaw * 0.40))
           (glassesH * (1 - yaw * 0.12));
         Render.Restore ] /\
  (yaw = 0.5 -> Render.lWidthScale yaw = 1.20 /\ Render.rWidthScale yaw = 0.80) /\
  (yaw = 0 ->
   Render.lWidthScale yaw = Render.rWidthScale yaw /\
   Render.lHeightScale yaw = Render.rHeightScale yaw).
Proof.
  intros Hb. cbv zeta.
  repeat (split; [reflexivity |]).
  split.
  { unfold Render.drawGlasses. rewrite Hb. reflexivity. }
  unfold Render.lWidthScale, Render.rWidthScale, Render.lHeightScale,
    Render.rHeightScale, Render.YAW_WIDTH_FACTOR, Render.YAW_HEIGHT_FACTOR.
  split; intros ->; split; lra.
Qed.

Lemma yaw_half_scaling_witness :
  Render.lWidthScale (Pose.yaw Sample.pose) = 1.20 /\
  Render.rWidthScale (Pose.yaw Sample.pose) = 0.80.
Proof.
  destruct (yaw_half_scaling (Main.halves Sample.glasses) Sample.pose
              (Main.img Sample.glasses) 1.0 0 0.5)
    as (_ & _ & _ & _ & _ & Hhalf & _).
  - unfold Render.baseScale, Render.anchorSpan, Render.ANCHOR_RIGHT_X,
      Render.ANCHOR_LEFT_X. cbn.
    rewrite div_nonzero by lra. cbn [bind]. apply f_equal. lra.
  - apply Hhalf. reflexivity.
Defined.

End RenderClaims.

(* ================================================================== *)
(** ** The concrete cases on binary64 *)
(* ================================================================== *)

Section MachineArithmetic.

Import PrimFloat.
#[local] Set Warnings "-inexact-float".

(** An eye distance of twice the anchor span of the 400 px fallback
    image, with multiplier 1.0, gives the double 2 exactly; doubling
    the multiplier gives 4. *)
Example binary64_baseScale :
  Binary64.baseScale (2 * Binary64.anchorSpan 400)%float 400 1.0 = 2%float /\
  Binary64.baseScale (2 * Binary64.anchorSpan 400)%float 400 2.0 = 4%float.
Proof. split; reflexivity. Qed.

(** A yaw of 0.5 gives the doubles written 1.20 and 0.80; a yaw of 0
    gives both halves the factor 1. *)
Example binary64_yaw_scales :
  Binary64.lWidthScale 0.5 = 1.20%float /\
  Binary64.rWidthScale 0.5 = 0.80%float /\
  Binary64.lWidthScale 0 = Binary64.rWidthScale 0 /\
  Binary64.lHeightScale 0 = Binary64.rHeightScale 0.
Proof. repeat split; reflexivity. Qed.

(** Seeded at 0.5, the smoother fed 0.5 again stays at 0.5, and fed 1
    moves by 0.35 of the way. *)
Example binary64_lerp :
  Binary64.lerp 0.5 0.5 0.35 = 0.5%float /\
  Binary64.lerp 0.5 1 0.35 = 0.675%float.
Proof. split; reflexivity. Qed.

(** A pose stamped at clock 0 is inside the grace period of 500 ms at
    clock 499 and outside it at clock 501. *)
Example binary64_grace :
  Binary64.within_grace 499 0 500 = true /\
  Binary64.within_grace 501 0 500 = false.
Proof. split; reflexivity. Qed.

(** A value that one call leaves where it is stays there for ever. *)
Lemma binary64_feed_fixed (n : nat) (s raw a : float) :
  Binary64.lerp s raw a = s -> Binary64.feed n s raw a = s.
Proof.
  intros Hfix. induction n as [| n IH]; [reflexivity |].
  cbn [Binary64.feed]. now rewrite IH.
Qed.

Lemma binary64_feed_add (n m : nat) (s raw a : float) :
  Binary64.feed (n + m) s raw a = Binary64.feed n (Binary64.feed m s raw a) raw a.
Proof.
  induction n as [| n IH]; [reflexivity |].
  cbn [Nat.add Binary64.feed]. now rewrite IH.
Qed.

(** Where the wording of C4 fails: the smoother on binary64, seeded
    with a yaw of -0.5 and fed a yaw of 0.5 with the blend factor 0.35
    of the page.  After 86 calls the smoothed yaw is the double just
    below 0.5, and the blend of that double with 0.5 rounds back to it.
    From then on every call leaves the same distance [2 ^ -54] to the
    raw value: the distance neither shrinks nor tends to zero.  Up to
    there the distance has not grown at any call. *)
Lemma smoothing_converges_counterexample :
  Binary64.feed 86 (-0.5) 0.5 0.35 = 0.49999999999999994%float /\
  Binary64.lerp 0.49999999999999994 0.5 0.35 = 0.49999999999999994%float /\
  (forall n, (86 <= n)%nat ->
             Binary64.feed n (-0.5) 0.5 0.35 = 0.49999999999999994%float) /\
  (forall n, (86 <= n)%nat ->
             Binary64.distance (Binary64.feed n (-0.5) 0.5 0.35) 0.5 =
             5.551115123125783e-17%float) /\
  ltb 0 5.551115123125783e-17 = true /\
  forallb (fun n =>
             leb (Binary64.distance (Binary64.feed (S n) (-0.5) 0.5 0.35) 0.5)
                 (Binary64.distance (Binary64.feed n (-0.5) 0.5 0.35) 0.5))
          (seq 0 86) = true.
Proof.
  assert (H86 : Binary64.feed 86 (-0.5) 0.5 0.35 = 0.49999999999999994%float)
    by reflexivity.
  assert (Hfix : Binary64.lerp 0.49999999999999994 0.5 0.35 =
                 0.49999999999999994%float) by reflexivity.
  assert (Hall : forall n, (86 <= n)%nat ->
            Binary64.feed n (-0.5) 0.5 0.35 = 0.49999999999999994%float).
  { intros n Hn. replace n with ((n - 86) + 86)%nat by lia.
    rewrite binary64_feed_add, H86. now apply binary64_feed_fixed. }
  split; [exact H86 |]. split; [exact Hfix |]. split; [exact Hall |].
  split; [| split; [reflexivity | vm_compute; reflexivity]].
  intros n Hn. rewrite (Hall n Hn). reflexivity.
Qed.

(** Where the wording of C6 fails: the scale law on binary64, for an
    image 640 px wide.  The anchor points at 30 % and 70 % of the width
    are 256 px apart, but the span the code computes,
    [(0.70 - 0.30) * 640], is the double just below 256.  With an eye
    distance of twice the distance between the anchor points and the
    multiplier 1.0, [baseScale] is the double just above 2, not 2.  It
    is 2 for an eye distance of twice the span as the code computes
    it. *)
Lemma baseScale_law_counterexample :
  (0.70 * 640 - 0.30 * 640)%float = 256%float /\
  Binary64.anchorSpan 640 = 255.99999999999997%float /\
  Binary64.baseScale (2 * 256) 640 1.0 = 2.0000000000000004%float /\
  eqb (Binary64.baseScale (2 * 256) 640 1.0) 2 = false /\
  Binary64.baseScale (2 * Binary64.anchorSpan 640) 640 1.0 = 2%float.
Proof. repeat split; reflexivity. Qed.

End MachineArithmetic.

(* ================================================================== *)
(** ** Further properties of face.js *)
(* ================================================================== *)

Section ExtractorEdges.

Import Face.

(** X1.  [extractFaceTransform] returns a transform exactly when the
    keypoint sequence has more than 454 entries, that is when it reaches
    the right face edge; on every shorter sequence, the empty one
    included, it fails with a [TypeError] (a property of [undefined] is
    read); and on no sequence at all does it divide by zero. *)
Theorem extractFaceTransform_outcome (keypoints : list Point.t) :
  ((exists t, extractFaceTransform keypoints = Ok t) <->
   (454 < length keypoints)%nat) /\
  (extractFaceTransform keypoints = TypeError <->
   (length keypoints <= 454)%nat) /\
  extractFaceTransform keypoints <> DivByZero.
Proof.
  split; [| split].
  - split.
    + intros [t E]. exact (extract_ok_long _ _ E).
    + apply extract_full_mesh.
  - split.
    + intros E.
      destruct (le_lt_dec (length keypoints) 454) as [Hshort | Hlong];
        [exact Hshort |].
      destruct (extract_full_mesh keypoints Hlong) as [t Ht]. congruence.
    + apply extract_short.
  - apply extract_never_divides.
Qed.

Lemma yaw0_range (dLeft dRight : R) :
  0 <= dLeft -> 0 <= dRight -> -1 <= Spec.yaw0 dLeft dRight <= 1.
Proof.
  intros Hl Hr. unfold Spec.yaw0.
  destruct (Rlt_dec 0 (dLeft + dRight)) as [Hpos | _]; [| lra].
  assert (Hq : (dLeft - dRight) / (dLeft + dRight) * (dLeft + dRight) =
               dLeft - dRight) by (field; lra).
  split; nra.
Qed.

Lemma yaw0_sign (dLeft dRight : R) :
  0 <= dLeft -> 0 <= dRight ->
  (0 < Spec.yaw0 dLeft dRight <-> dRight < dLeft) /\
  (Spec.yaw0 dLeft dRight < 0 <-> dLeft < dRight).
Proof.
  intros Hl Hr. unfold Spec.yaw0.
  destruct (Rlt_dec 0 (dLeft + dRight)) as [Hpos | Hzero]; [| split; split; lra].
  assert (Hq : (dLeft - dRight) / (dLeft + dRight) * (dLeft + dRight) =
               dLeft - dRight) by (field; lra).
  split; split; intros H; nra.
Qed.

(** X3.  On keypoints that carry no depth, the yaw is the symmetry
    ratio [(dLeft - dRight) / (dLeft + dRight)] of the nose-to-edge
    distances itself (0 when both vanish): the ratio is within
    [[-1, 1]], so the final clamp changes nothing.  The yaw is positive
    exactly when the nose tip is farther from the left face edge than
    from the right one, and negative exactly in the opposite case. *)
Theorem extractFaceTransform_flat_yaw (keypoints : list Point.t) :
  (454 < length keypoints)%nat ->
  Forall (fun p => Point.z p = None) keypoints ->
  exists t noseTip leftEdge rightEdge,
    extractFaceTransform keypoints = Ok t /\
    nth_error keypoints LM.NOSE_TIP = Some noseTip /\
    nth_error keypoints LM.LEFT_FACE_EDGE = Some leftEdge /\
    nth_error keypoints LM.RIGHT_FACE_EDGE = Some rightEdge /\
    Transform.yaw t = Spec.yaw0 (dist noseTip leftEdge) (dist noseTip rightEdge) /\
    (0 < Transform.yaw t <-> dist noseTip rightEdge < dist noseTip leftEdge) /\
    (Transform.yaw t < 0 <-> dist noseTip leftEdge < dist noseTip rightEdge).
Proof.
  intros Hlong Hflat.
  destruct (eyes_selected keypoints Hlong) as (l & r & Heyes & Hiris & Hmid).
  destruct (index_in_range keypoints LM.NOSE_TIP) as [noseTip Hn];
    [unfold LM.NOSE_TIP; lia |].
  destruct (index_in_range keypoints LM.LEFT_FACE_EDGE) as [leftEdge Hl];
    [unfold LM.LEFT_FACE_EDGE; lia |].
  destruct (index_in_range keypoints LM.RIGHT_FACE_EDGE) as [rightEdge Hr];
    [unfold LM.RIGHT_FACE_EDGE; lia |].
  assert (Hz : Point.z l = None).
  { rewrite Forall_forall in Hflat.
    destruct (le_lt_dec (length keypoints) 473) as [Hle | Hgt].
    - destruct (Hmid Hle) as (lo & li & ri & ro & Elo & _ & _ & _ & -> & _).
      unfold midpoint. cbn [Point.z].
      now rewrite (Hflat lo (nth_error_In _ _ Elo)).
    - destruct (Hiris Hgt) as [El _]. exact (Hflat l (nth_error_In _ _ El)). }
  eexists. exists noseTip, leftEdge, rightEdge.
  split; [apply (extract_after_reads _ _ _ _ _ _ Heyes Hn Hl Hr) |].
  cbn [Transform.yaw]. unfold Spec.yaw. rewrite Hz.
  pose proof (dist_nonneg noseTip leftEdge) as H1.
  pose proof (dist_nonneg noseTip rightEdge) as H2.
  rewrite clamp_inside by (apply yaw0_range; assumption).
  repeat (split; [assumption || reflexivity |]).
  apply yaw0_sign; assumption.
Qed.

Lemma extractFaceTransform_flat_yaw_witness :
  exists t noseTip leftEdge rightEdge,
    extractFaceTransform Sample.mesh468 = Ok t /\
    nth_error Sample.mesh468 LM.NOSE_TIP = Some noseTip /\
    nth_error Sample.mesh468 LM.LEFT_FACE_EDGE = Some leftEdge /\
    nth_error Sample.mesh468 LM.RIGHT_FACE_EDGE = Some rightEdge /\
    Transform.yaw t = Spec.yaw0 (dist noseTip leftEdge) (dist noseTip rightEdge).
Proof.
  destruct (extractFaceTransform_flat_yaw Sample.mesh468)
    as (t & noseTip & leftEdge & rightEdge & Hok & Hn & Hl & Hr & Hyaw & _).
  - assert (L : length Sample.mesh468 = 468%nat) by reflexivity.
    rewrite L. lia.
  - unfold Sample.mesh468. apply Forall_map, Forall_forall.
    intros i _. reflexivity.
  - exists t, noseTip, leftEdge, rightEdge. auto.
Defined.

End ExtractorEdges.

Section DetectorFacts.

Import Face.

Lemma found_cons (r : option face) (rs : list (option face)) :
  found (r :: rs) = (match r with Some _ => 1 | None => 0 end + found rs)%nat.
Proof. unfold found. cbn [filter]. destruct r; reflexivity. Qed.

Lemma detectFace_counted (video : video_t) (run : detector_result)
      (d : detector_state) :
  counted d (detectFace video run d).
Proof.
  unfold counted, detectFace.
  destruct (negb (faceLandmarker d)); [cbn; lia |].
  destruct (Nat.ltb (readyState video) 2); [cbn; lia |].
  destruct (Req_dec_T (currentTime video) (lastVideoTime d)); [cbn; lia |].
  destruct run as [[[| first rest] |] |]; cbn; lia.
Qed.

Lemma tfjs_detectFace_counted (video : video_t) (run : Tfjs.estimate_result)
      (d : detector_state) :
  counted d (Tfjs.detectFace video run d).
Proof.
  unfold counted, Tfjs.detectFace.
  destruct (negb (faceLandmarker d)); [cbn; lia |].
  destruct (Nat.ltb (readyState video) 2); [cbn; lia |].
  destruct run as [[| first rest] |]; cbn; lia.
Qed.

Lemma detectAll_counters {C : Type}
      (detect : C -> detector_state -> detector_state * option face) :
  (forall c d, counted d (detect c d)) ->
  forall calls d,
    let out := detectAll detect calls d in
    length (snd out) = length calls /\
    (successes (diag (fst out)) = successes (diag d) + found (snd out))%nat /\
    (attempts (diag d) <= attempts (diag (fst out)) <=
     attempts (diag d) + length calls)%nat /\
    (attempts (diag d) + successes (diag (fst out)) + errors (diag (fst out)) <=
     attempts (diag (fst out)) + successes (diag d) + errors (diag d))%nat /\
    (errors (diag d) <= errors (diag (fst out)))%nat.
Proof.
  intros Hone calls.
  induction calls as [| c rest IH]; intros d; cbn [detectAll].
  - cbn. unfold found. cbn. lia.
  - pose proof (Hone c d) as H1. unfold counted in H1.
    destruct (detect c d) as [d1 r]. cbn [fst snd] in H1.
    specialize (IH d1). cbv zeta in IH.
    destruct (detectAll detect rest d1) as [d2 rs]. cbn [fst snd] in *.
    rewrite found_cons. cbn [length].
    destruct r; lia.
Qed.

(** X4.  Over any run of [detectFace] calls, in either revision of
    face.js and whatever the video and the detector do: every face
    handed back is counted exactly once in [diag.successes]; the
    attempts gained are at most the number of calls; and the successes
    and errors gained together never exceed the attempts gained.
    Starting from fresh counters this is
    [successes + errors <= attempts <= calls]. *)
Theorem detectFace_counters :
  (forall (calls : list (video_t * detector_result)) (d : detector_state),
      let out := detectAll (fun c => detectFace (fst c) (snd c)) calls d in
      (successes (diag (fst out)) = successes (diag d) + found (snd out))%nat /\
      (attempts (diag (fst out)) <= attempts (diag d) + length calls)%nat /\
      (attempts (diag d) + successes (diag (fst out)) + errors (diag (fst out)) <=
       attempts (diag (fst out)) + successes (diag d) + errors (diag d))%nat) /\
  (forall (calls : list (video_t * Tfjs.estimate_result)) (d : detector_state),
      let out := detectAll (fun c => Tfjs.detectFace (fst c) (snd c)) calls d in
      (successes (diag (fst out)) = successes (diag d) + found (snd out))%nat /\
      (attempts (diag (fst out)) <= attempts (diag d) + length calls)%nat /\
      (attempts (diag d) + successes (diag (fst out)) + errors (diag (fst out)) <=
       attempts (diag (fst out)) + successes (diag d) + errors (diag d))%nat).
Proof.
  split; intros calls d.
  - pose proof (detectAll_counters (fun c => detectFace (fst c) (snd c))
                  (fun c d0 => detectFace_counted (fst c) (snd c) d0) calls d) as H.
    cbv zeta in *. intuition lia.
  - pose proof (detectAll_counters (fun c => Tfjs.detectFace (fst c) (snd c))
                  (fun c d0 => tfjs_detectFace_counted (fst c) (snd c) d0) calls d) as H.
    cbv zeta in *. intuition lia.
Qed.

(** X5.  With the model loaded and the video ready, a second call of
    [detectFace] (tasks-vision revision) on a frame with the same media
    time as the call before is refused: it hands back no face whatever
    the detector would have answered, and it changes nothing but
    [diag.lastError].  This holds also when the first call threw or saw
    no face: the frame is marked as processed before the detector
    runs. *)
Theorem detectFace_duplicate_frame (video : video_t)
        (run run' : detector_result) (d : detector_state) :
  faceLandmarker d = true ->
  (2 <= readyState video)%nat ->
  detectFace video run' (fst (detectFace video run d)) =
  (set_lastError DuplicateFrame (fst (detectFace video run d)), None).
Proof.
  intros Hmodel Hready.
  assert (Hlast : lastVideoTime (fst (detectFace video run d)) = currentTime video
                  /\ faceLandmarker (fst (detectFace video run d)) = true).
  { unfold detectFace. rewrite Hmodel. cbn [negb].
    destruct (Nat.ltb (readyState video) 2) eqn:E;
      [apply Nat.ltb_lt in E; lia |].
    destruct (Req_dec_T (currentTime video) (lastVideoTime d)) as [Heq | Hne];
      [cbn; auto |].
    destruct run as [[[| first rest] |] |]; cbn; auto. }
  destruct Hlast as [Hlast Hm].
  unfold detectFace at 1. rewrite Hm. cbn [negb].
  destruct (Nat.ltb (readyState video) 2) eqn:E;
    [apply Nat.ltb_lt in E; lia |].
  rewrite Hlast.
  destruct (Req_dec_T (currentTime video) (currentTime video)) as [_ | Hne];
    [reflexivity | contradiction].
Qed.

Lemma detectFace_duplicate_frame_witness :
  detectFace Fixture.video Throws
    (fst (detectFace Fixture.video (Result (Some [Fixture.landmarks]))
                     Fixture.detector)) =
  (set_lastError DuplicateFrame
     (fst (detectFace Fixture.video (Result (Some [Fixture.landmarks]))
                      Fixture.detector)), None).
Proof.
  apply (detectFace_duplicate_frame Fixture.video
           (Result (Some [Fixture.landmarks])) Throws Fixture.detector).
  - reflexivity.
  - cbn. lia.
Defined.

(** Every keypoint of a face handed back by [detectFace] carries a
    depth, and there is one keypoint per landmark of the first face. *)
Lemma detectFace_keypoints (video : video_t) (run : detector_result)
      (d d' : detector_state) (f : face) :
  detectFace video run d = (d', Some f) ->
  exists first rest,
    run = Result (Some (first :: rest)) /\
    keypoints f =
      map (fun lm => {| Point.x := lm_x lm * videoWidth video;
                        Point.y := lm_y lm * videoHeight video;
                        Point.z := Some (lm_z lm * videoWidth video) |}) first.
Proof.
  unfold detectFace.
  destruct (negb (faceLandmarker d)); [discriminate |].
  destruct (Nat.ltb (readyState video) 2); [discriminate |].
  destruct (Req_dec_T (currentTime video) (lastVideoTime d)); [discriminate |].
  destruct run as [[[| first rest] |] |]; try discriminate.
  intros H. injection H as _ <-. exists first, rest. split; reflexivity.
Qed.

Lemma midpoint_depth (a b : Point.t) (az bz : R) :
  Point.z a = Some az -> Point.z b = Some bz ->
  Point.z (midpoint a b) = Some ((az + bz) / 2).
Proof. intros Ha Hb. unfold midpoint. cbn [Point.z]. now rewrite Ha, Hb. Qed.

(** X6.  The tasks-vision [detectFace] gives every keypoint a depth:
    the keypoints of the face it hands back are the landmarks of the
    first face, scaled to pixels, depth included.  So on such a face
    (with the landmarks up to the right face edge) the extractor
    succeeds, both eye positions of the eye-centre selection have a
    depth, and the depth signal is always blended in: the yaw is the
    clamp of [0.55 * ratio + 0.45 * zYaw], computed from the nose tip,
    the face edges and the eye positions of the input, never the ratio
    alone. *)
Theorem detectFace_then_extract (video : video_t) (run : detector_result)
        (d d' : detector_state) (f : face) :
  detectFace video run d = (d', Some f) ->
  (454 < length (keypoints f))%nat ->
  (exists first rest,
      run = Result (Some (first :: rest)) /\
      keypoints f =
        map (fun lm => {| Point.x := lm_x lm * videoWidth video;
                          Point.y := lm_y lm * videoHeight video;
                          Point.z := Some (lm_z lm * videoWidth video) |}) first) /\
  Forall (fun p => exists pz, Point.z p = Some pz) (keypoints f) /\
  exists t leftEye rightEye lz rz noseTip leftEdge rightEdge,
    extractFaceTransform (keypoints f) = Ok t /\
    Spec.eye_positions (keypoints f) = Some (leftEye, rightEye) /\
    Point.z leftEye = Some lz /\
    Point.z rightEye = Some rz /\
    nth_error (keypoints f) LM.NOSE_TIP = Some noseTip /\
    nth_error (keypoints f) LM.LEFT_FACE_EDGE = Some leftEdge /\
    nth_error (keypoints f) LM.RIGHT_FACE_EDGE = Some rightEdge /\
    Transform.yaw t =
      Spec.clamp (Spec.yaw0 (Spec.euclid noseTip leftEdge)
                            (Spec.euclid noseTip rightEdge) * 0.55 +
                  Spec.zYaw lz rz (Spec.euclid leftEye rightEye) * 0.45) (-1) 1.
Proof.
  intros Hdet Hlong.
  destruct (detectFace_keypoints _ _ _ _ _ Hdet) as (first & rest & Hrun & Hk).
  split; [exists first, rest; split; assumption |].
  assert (Hdepth : forall i p, nth_error (keypoints f) i = Some p ->
                               exists pz, Point.z p = Some pz).
  { intros i p Hp. rewrite Hk, nth_error_map in Hp.
    destruct (nth_error first i) as [lm |]; [| discriminate].
    injection Hp as <-. eexists. reflexivity. }
  split.
  { apply Forall_forall. intros p Hp.
    destruct (In_nth_error _ _ Hp) as [i Hi]. exact (Hdepth i p Hi). }
  destruct (eyes_selected (keypoints f) Hlong) as (l & r & Heyes & Hiris & Hmid).
  destruct (eye_positions_selected (keypoints f) Hlong)
    as (l' & r' & Heyes' & Hsel).
  rewrite Heyes in Heyes'. injection Heyes' as <- <-.
  destruct (index_in_range (keypoints f) LM.NOSE_TIP) as [noseTip Hn];
    [unfold LM.NOSE_TIP; lia |].
  destruct (index_in_range (keypoints f) LM.LEFT_FACE_EDGE) as [leftEdge Hl];
    [unfold LM.LEFT_FACE_EDGE; lia |].
  destruct (index_in_range (keypoints f) LM.RIGHT_FACE_EDGE) as [rightEdge Hr];
    [unfold LM.RIGHT_FACE_EDGE; lia |].
  assert (Hz : exists lz rz, Point.z l = Some lz /\ Point.z r = Some rz).
  { destruct (le_lt_dec (length (keypoints f)) 473) as [Hle | Hgt].
    - destruct (Hmid Hle) as (lo & li & ri & ro & Elo & Eli & Eri & Ero & -> & ->).
      destruct (Hdepth _ _ Elo) as [z1 H1], (Hdepth _ _ Eli) as [z2 H2],
        (Hdepth _ _ Eri) as [z3 H3], (Hdepth _ _ Ero) as [z4 H4].
      exists ((z1 + z2) / 2), ((z3 + z4) / 2).
      split; apply midpoint_depth; assumption.
    - destruct (Hiris Hgt) as [El Er].
      destruct (Hdepth _ _ El) as [z1 H1], (Hdepth _ _ Er) as [z2 H2].
      now exists z1, z2. }
  destruct Hz as (lz & rz & Hlz & Hrz).
  eexists. exists l, r, lz, rz, noseTip, leftEdge, rightEdge.
  split; [apply (extract_after_reads _ _ _ _ _ _ Heyes Hn Hl Hr) |].
  cbn [Transform.yaw].
  unfold Spec.yaw. rewrite Hlz, Hrz, !dist_euclid, clamp_spec by lra.
  auto 10.
Qed.

Lemma detectFace_then_extract_witness :
  Forall (fun p => exists pz, Point.z p = Some pz) (keypoints Fixture.detected) /\
  exists t leftEye rightEye lz rz,
    extractFaceTransform (keypoints Fixture.detected) = Ok t /\
    Spec.eye_positions (keypoints Fixture.detected) = Some (leftEye, rightEye) /\
    Point.z leftEye = Some lz /\
    Point.z rightEye = Some rz.
Proof.
  destruct (detectFace_then_extract Fixture.video
              (Result (Some [Fixture.landmarks])) Fixture.detector
              {| faceLandmarker := true;
                 lastVideoTime := 1;
                 diag := {| attempts := 1; successes := 1; errors := 0;
                            lastError := NoError |} |}
              Fixture.detected)
    as (_ & Hdepth & t & l & r & lz & rz & _ & _ & _ & Hok & Hsel & Hl & Hr & _).
  - unfold detectFace. cbn [negb Fixture.detector faceLandmarker Fixture.video
                            readyState Nat.ltb Nat.leb currentTime lastVideoTime].
    destruct (Req_dec_T 1 (-1)) as [Heq | _]; [lra |]. reflexivity.
  - assert (L : length (keypoints Fixture.detected) = 478%nat) by reflexivity.
    rewrite L. lia.
  - split; [exact Hdepth |]. exists t, l, r, lz, rz. auto.
Defined.

End DetectorFacts.

(* ================================================================== *)
(** ** Further properties of render.js *)
(* ================================================================== *)


Section OverlayGeometry.

Import Render.

(** X7.  [splitGlassesImage] cuts the image into two halves that cover
    it without overlap: the left half is the columns [0 .. halfW) with
    [halfW = ceil(width / 2)], the right half starts at column [halfW]
    and ends at the last column, both are copied pixel for pixel
    (destination size = source size = canvas size) over the full
    height, and the left half is as wide as the right one or one pixel
    wider. *)
Theorem splitGlassesImage_partition (img : image) :
  (0 <= width img)%Z ->
  exists halfW rightW : Z,
    (2 * halfW - 1 <= width img <= 2 * halfW)%Z /\
    (halfW + rightW = width img)%Z /\
    (0 <= rightW <= halfW)%Z /\ (halfW <= rightW + 1)%Z /\
    splitGlassesImage img =
      {| left := {| width := halfW; height := height img |};
         right := {| width := rightW; height := height img |} |} /\
    splitGlassesImage_calls img =
      (DrawImage img 0 0 (IZR halfW) (IZR (height img))
                 0 0 (IZR halfW) (IZR (height img)),
       DrawImage img (IZR halfW) 0 (IZR rightW) (IZR (height img))
                 0 0 (IZR rightW) (IZR (height img))).
Proof.
  intros Hw.
  exists ((width img + 1) / 2)%Z, (width img - (width img + 1) / 2)%Z.
  repeat split; try reflexivity; Z.div_mod_to_equations; lia.
Qed.

Lemma splitGlassesImage_partition_witness :
  exists halfW rightW : Z,
    (halfW + rightW = 401)%Z /\
    splitGlassesImage {| width := 401; height := 160 |} =
      {| left := {| width := halfW; height := 160 |};
         right := {| width := rightW; height := 160 |} |}.
Proof.
  destruct (splitGlassesImage_partition {| width := 401; height := 160 |})
    as (halfW & rightW & _ & Hsum & _ & _ & Hsplit & _).
  - cbn. lia.
  - exists halfW, rightW. split; [exact Hsum | exact Hsplit].
Defined.





End OverlayGeometry.

Section DebugLandmarks.

Import Render.

Lemma arc_radii_app (a b : list path_op) :
  arc_radii (a ++ b) = arc_radii a ++ arc_radii b.
Proof. unfold arc_radii. apply flat_map_app. Qed.

Lemma arc_radii_style (r g b : Z) (a : R) (ops : list path_op) :
  arc_radii (FillStyle r g b a :: ops) = arc_radii ops.
Proof. reflexivity. Qed.

Lemma arc_radii_small (keypoints : list Point.t) :
  arc_radii (flat_map (fun kp => dot (Point.x kp) (Point.y kp) 1.2) keypoints) =
  repeat 1.2 (length keypoints).
Proof.
  induction keypoints as [| kp rest IH]; [reflexivity |].
  cbn [flat_map length repeat]. rewrite arc_radii_app, IH. reflexivity.
Qed.

(** The guard [idx < keypoints.length] keeps every read of the second
    loop inside the sequence. *)
Lemma highlight_ok (keypoints : list Point.t) (indices : list nat) :
  exists ops,
    highlight keypoints indices = Ok ops /\
    arc_radii ops =
    repeat 3 (length (filter (fun idx => Nat.ltb idx (length keypoints)) indices)).
Proof.
  induction indices as [| idx rest (more & Hmore & Hradii)]; cbn [highlight filter].
  - exists []. split; reflexivity.
  - rewrite Hmore.
    destruct (Nat.ltb idx (length keypoints)) eqn:E.
    + apply Nat.ltb_lt in E.
      destruct (index_in_range keypoints idx E) as [kp Hkp].
      rewrite (index_nth_error _ _ _ Hkp). cbn [bind].
      eexists. split; [reflexivity |].
      rewrite arc_radii_app, Hradii. reflexivity.
    + cbn [bind]. exists more. split; [reflexivity | exact Hradii].
Qed.

(** X10.  [drawDebugLandmarks] never fails, whatever the keypoint
    sequence (the empty one included): it draws one dot of radius 1.2
    per keypoint, then one dot of radius 3 for each of the eleven key
    indices that lies inside the sequence and none for the others.  All
    eleven are highlighted on a sequence with the iris points (more
    than 473 entries), nine on the base topology of 468 points, and
    none on the empty sequence. *)
Theorem drawDebugLandmarks_total (keypoints : list Point.t) :
  exists ops,
    drawDebugLandmarks keypoints = Ok ops /\
    arc_radii ops =
      repeat 1.2 (length keypoints) ++
      repeat 3 (length (filter (fun idx => Nat.ltb idx (length keypoints))
                               KEY_INDICES)) /\
    ((473 < length keypoints)%nat ->
     arc_radii ops = repeat 1.2 (length keypoints) ++ repeat 3 11) /\
    (length keypoints = 468%nat ->
     arc_radii ops = repeat 1.2 468 ++ repeat 3 9) /\
    (keypoints = [] -> arc_radii ops = []).
Proof.
  destruct (highlight_ok keypoints KEY_INDICES) as (large & Hlarge & Hradii).
  unfold drawDebugLandmarks. rewrite Hlarge. cbn [bind].
  eexists. split; [reflexivity |].
  assert (Hall : arc_radii
            (FillStyle 0 255 128 0.45
             :: flat_map (fun kp => dot (Point.x kp) (Point.y kp) 1.2) keypoints ++
                FillStyle 255 60 60 0.9 :: large) =
          repeat 1.2 (length keypoints) ++
          repeat 3 (length (filter (fun idx => Nat.ltb idx (length keypoints))
                                   KEY_INDICES))).
  { rewrite arc_radii_style, arc_radii_app, arc_radii_small, arc_radii_style.
    now rewrite Hradii. }
  rewrite Hall. split; [reflexivity |].
  unfold KEY_INDICES. cbn [filter].
  split; [| split].
  - intros Hlen.
    repeat match goal with
      | |- context [Nat.ltb ?i ?n] =>
          destruct (Nat.ltb_spec i n); [| lia]
      end.
    reflexivity.
  - intros Hlen. rewrite Hlen. reflexivity.
  - intros ->. reflexivity.
Qed.

End DebugLandmarks.

(* ================================================================== *)
(** ** Further properties of main.js *)
(* ================================================================== *)

Section PageFacts.

Import Main.

Lemma resume_running (face : option Face.face) (now : R) (w : world) :
  running (st (runDetection_resume face now w)) = running (st w).
Proof.
  unfold runDetection_resume.
  destruct face as [f |]; [| reflexivity].
  destruct (Face.extractFaceTransform (Face.keypoints f)); try reflexivity.
  unfold applySmoothing. destruct (smooth (st w)); reflexivity.
Qed.

(** One callback on a page that does not run. *)
Lemma step_not_running (e : event) (w w' : world) (out : list effect) :
  running (st w) = false ->
  is_StartCamera e = false ->
  step e w = Some (w', out) ->
  running (st w') = false /\ out = [].
Proof.
  intros Hrun Hstart Hstep.
  destruct e; cbn in Hstep; try discriminate Hstart;
    try (injection Hstep as <- <-; split; [exact Hrun | reflexivity]).
  - injection Hstep as <- <-. split; reflexivity.
  - unfold renderLoop in Hstep. rewrite Hrun in Hstep. cbn in Hstep.
    injection Hstep as <- <-. split; [exact Hrun | reflexivity].
  - destruct (inflight w); [discriminate |].
    injection Hstep as <- <-. split; [| reflexivity].
    now rewrite resume_running.
Qed.

(** X11.  On a page that does not run (before the first start and
    after [stopCamera]) the loop is dead until the camera is started:
    whatever animation frames, completed detections, slider moves and
    clicks on Stop reach it, no video frame, overlay or landmark is
    painted, [detectFace] is not called and no animation frame is
    requested; and the page stays stopped.  (What the Stop handler
    itself does to the canvas and to the texts of the page is not among
    these calls.) *)
Theorem stopped_page_is_silent (events : list event) :
  forall w : world,
    running (st w) = false ->
    forallb (fun e => negb (is_StartCamera e)) events = true ->
    filter is_loop_call (effects_of events w) = [] /\
    running (st (after events w)) = false.
Proof.
  induction events as [| e rest IH]; intros w Hrun Hnone;
    cbn [effects_of after]; [split; [reflexivity | exact Hrun] |].
  cbn [forallb] in Hnone. apply andb_prop in Hnone as [He Hrest].
  apply negb_true_iff in He.
  destruct (step e w) as [[w' out] |] eqn:Hstep; [| now apply IH].
  destruct (step_not_running e w w' out Hrun He Hstep) as [Hrun' ->].
  cbn [app]. now apply IH.
Qed.

Lemma stopped_page_is_silent_witness :
  filter is_loop_call
    (effects_of [AnimationFrame 40; DetectionDone None 45; AnimationFrame 56;
                 ScaleSlider 1.2; StopCamera]
                (stopCamera Sample.busy)) = [] /\
  running (st (after [AnimationFrame 40; DetectionDone None 45;
                      AnimationFrame 56; ScaleSlider 1.2; StopCamera]
                     (stopCamera Sample.busy))) = false.
Proof.
  apply (stopped_page_is_silent
           [AnimationFrame 40; DetectionDone None 45; AnimationFrame 56;
            ScaleSlider 1.2; StopCamera]
           (stopCamera Sample.busy)); reflexivity.
Defined.

(** X12.  [stopCamera] does not cancel a detection that is under way.
    When that detection completes with a face after the stop, the
    continuation of [runDetection] finds the smoothing state empty and
    seeds it with the scalars of the raw transform, holds the pose made
    of these scalars and of the keypoints of the face, and stamps it,
    on a page that is stopped.  When the camera is started again the
    very next run of the loop draws the overlay exactly when the stamp
    is younger than the grace period and the selected glasses are
    loaded, and what it draws is that pose, which no detection since
    the restart has produced. *)
Theorem detection_outlives_stop (w : world) (face : Face.face)
        (raw : Transform.t) (now clock : R) :
  Face.extractFaceTransform (Face.keypoints face) = Ok raw ->
  let stopped := stopCamera w in
  let resumed := runDetection_resume (Some face) now stopped in
  let restarted := fst (startCamera resumed) in
  let held :=
    {| Pose.center := {| Point.x := Point.x (Transform.center raw);
                         Point.y := Point.y (Transform.center raw);
                         Point.z := None |};
       Pose.eyeDistance := Transform.eyeDistance raw;
       Pose.roll := Transform.roll raw;
       Pose.yaw := Transform.yaw raw;
       Pose.keypoints := Face.keypoints face |} in
  smooth (st stopped) = None /\ lastRawTransform (st stopped) = None /\
  running (st resumed) = false /\
  lastFaceTime (st resumed) = now /\
  smooth (st resumed) =
    Some {| Smooth.centerX := Point.x (Transform.center raw);
            Smooth.centerY := Point.y (Transform.center raw);
            Smooth.eyeDistance := Transform.eyeDistance raw;
            Smooth.roll := Transform.roll raw;
            Smooth.yaw := Transform.yaw raw;
            Smooth.keypoints := Some (Face.keypoints face) |} /\
  lastRawTransform (st resumed) = Some held /\
  (overlay_drawn (snd (renderLoop clock restarted)) = true <->
   clock - now < faceTimeoutMs (st w) /\
   exists gl, nth_error (glassesAssets w) (currentFrameIndex (st w)) = Some gl) /\
  (forall gl,
      nth_error (glassesAssets w) (currentFrameIndex (st w)) = Some gl ->
      clock - now < faceTimeoutMs (st w) ->
      filter is_DrawGlasses (snd (renderLoop clock restarted)) =
      [DrawGlasses (halves gl) held (img gl)
                   (frameScaleMultiplier (st w)) (verticalOffset (st w))]).
Proof.
  intros Hraw. cbv zeta.
  split; [reflexivity |]. split; [reflexivity |].
  split; [now rewrite resume_running |].
  pose proof (resume_face face raw now (stopCamera w) Hraw) as Hst.
  pose proof (extract_keypoints _ _ Hraw) as Hkeys.
  destruct (resume_guard_cleared (Some face) now (stopCamera w))
    as (_ & _ & _ & Hassets).
  unfold applySmoothing in Hst. cbn [stopCamera set_st st set_lastRawTransform
    set_smooth smooth] in Hst.
  cbn [fst snd buildSmoothed] in Hst. rewrite Hkeys in Hst.
  split; [now rewrite Hst |].
  split; [now rewrite Hst |].
  split; [now rewrite Hst |].
  split.
  - rewrite overlay_drawn_iff. unfold overlay_visible, startCamera.
    cbn [fst set_st st glassesAssets].
    rewrite Hassets, Hst. cbn.
    split.
    + intros (_ & _ & Hlt & Hgl). split; assumption.
    + intros (Hlt & Hgl). split; [reflexivity |].
      split; [eexists; reflexivity |]. split; assumption.
  - intros gl Hgl Hlt.
    set (restarted :=
           fst (startCamera (runDetection_resume (Some face) now (stopCamera w)))).
    assert (Hrs : st restarted =
                  set_frameCount 0
                    (set_running true
                       (st (runDetection_resume (Some face) now (stopCamera w)))))
      by reflexivity.
    assert (Has : glassesAssets restarted = glassesAssets w)
      by (unfold restarted, startCamera; cbn [fst set_st glassesAssets];
          now rewrite Hassets).
    rewrite Hst in Hrs.
    pose proof (overlay_uses_held_pose clock restarted) as Hdraw.
    rewrite Has, Hrs in Hdraw.
    cbn [set_frameCount set_running set_lastFaceTime set_lastRawTransform
         set_smooth running lastRawTransform currentFrameIndex lastFaceTime
         faceTimeoutMs frameScaleMultiplier verticalOffset buildSmoothed
         Smooth.centerX Smooth.centerY Smooth.eyeDistance Smooth.roll
         Smooth.yaw] in Hdraw.
    apply Hdraw; auto.
Qed.

Lemma detection_outlives_stop_witness :
  running (st (runDetection_resume (Some (Face.mkFace Sample.mesh478)) 20
                 (stopCamera Sample.busy))) = false /\
  (exists s1,
      smooth (st (runDetection_resume (Some (Face.mkFace Sample.mesh478)) 20
                    (stopCamera Sample.busy))) = Some s1 /\
      Smooth.keypoints s1 = Some Sample.mesh478) /\
  (overlay_drawn
     (snd (renderLoop 100
             (fst (startCamera
                     (runDetection_resume (Some (Face.mkFace Sample.mesh478)) 20
                        (stopCamera Sample.busy)))))) = true <->
   100 - 20 < faceTimeoutMs (st Sample.busy) /\
   exists gl, nth_error (glassesAssets Sample.busy)
                        (currentFrameIndex (st Sample.busy)) = Some gl).
Proof.
  destruct (extract_full_mesh Sample.mesh478) as (raw & Hraw);
    [assert (L : length Sample.mesh478 = 478%nat) by reflexivity;
     rewrite L; lia |].
  destruct (detection_outlives_stop Sample.busy (Face.mkFace Sample.mesh478)
              raw 20 100 Hraw)
    as (_ & _ & Hrun & _ & Hsmooth & _ & Hdrawn & _).
  split; [exact Hrun |]. split; [| exact Hdrawn].
  eexists. split; [exact Hsmooth | reflexivity].
Defined.

Lemma detection_started_app (a b : list effect) :
  detection_started (a ++ b) = detection_started a || detection_started b.
Proof. unfold detection_started. apply existsb_app. Qed.

Lemma renderLoop_keeps_guard (now : R) (w : world) :
  detecting w = true -> detecting (fst (renderLoop now w)) = true.
Proof. intros Hdet. loop_cases now w; try discriminate; assumption. Qed.

(** One callback other than a completed detection, on a page whose
    guard is set. *)
Lemma step_guarded (e : event) (w w' : world) (out : list effect) :
  detecting w = true ->
  is_DetectionDone e = false ->
  step e w = Some (w', out) ->
  detecting w' = true /\ detection_started out = false.
Proof.
  intros Hdet Hdone Hstep.
  destruct e; cbn in Hstep; try discriminate Hdone;
    try (injection Hstep as <- <-; split; [exact Hdet | reflexivity]).
  injection Hstep as Hs.
  assert (E1 : w' = fst (renderLoop now w)) by now rewrite Hs.
  assert (E2 : out = snd (renderLoop now w)) by now rewrite Hs.
  rewrite E1, E2. split; [now apply renderLoop_keeps_guard | now apply renderLoop_guarded].
Qed.

(** X13.  The guard [detecting] is cleared only by the continuation of
    [runDetection].  While a detection is under way and does not
    complete (the detector hangs), no sequence of other callbacks
    starts another detection, and the guard stays set: not even
    stopping and restarting the camera re-arms the detection. *)
Theorem hung_detection_blocks (events : list event) :
  forall w : world,
    detecting w = true ->
    forallb (fun e => negb (is_DetectionDone e)) events = true ->
    detection_started (effects_of events w) = false /\
    detecting (after events w) = true.
Proof.
  induction events as [| e rest IH]; intros w Hdet Hnone;
    cbn [effects_of after]; [split; [reflexivity | exact Hdet] |].
  cbn [forallb] in Hnone. apply andb_prop in Hnone as [He Hrest].
  apply negb_true_iff in He.
  destruct (step e w) as [[w' out] |] eqn:Hstep; [| now apply IH].
  destruct (step_guarded e w w' out Hdet He Hstep) as [Hdet' Hout].
  destruct (IH w' Hdet' Hrest) as [IH1 IH2].
  rewrite detection_started_app, Hout, IH1. split; [reflexivity | exact IH2].
Qed.

Lemma hung_detection_blocks_witness :
  detection_started
    (effects_of [AnimationFrame 32; AnimationFrame 48; StopCamera; StartCamera;
                 AnimationFrame 64; AnimationFrame 80] Sample.busy) = false /\
  detecting
    (after [AnimationFrame 32; AnimationFrame 48; StopCamera; StartCamera;
            AnimationFrame 64; AnimationFrame 80] Sample.busy) = true.
Proof.
  destruct busy_page as (_ & _ & Hdet & _).
  apply (hung_detection_blocks
           [AnimationFrame 32; AnimationFrame 48; StopCamera; StartCamera;
            AnimationFrame 64; AnimationFrame 80] Sample.busy Hdet).
  reflexivity.
Defined.

End PageFacts.

Section SmoothingRuns.

Import Main.




Lemma same_scalars_fields (s s' : state) (s0 s0' : Smooth.t) :
  same_scalars s s' -> smooth s = Some s0 -> smooth s' = Some s0' ->
  forall f, smoothed_field f s0 = smoothed_field f s0'.
Proof.
  intros [_ H] E E' f. specialize (H f). rewrite E, E' in H.
  cbn in H. congruence.
Qed.

(** One call of either revision, on states that smooth alike. *)
Lemma applySmoothing_png_same (raw : Transform.t) (s s' : state) :
  same_scalars s s' ->
  snd (applySmoothing_png raw s) = snd (applySmoothing raw s') /\
  same_scalars (fst (applySmoothing_png raw s)) (fst (applySmoothing raw s')).
Proof.
  intros Hsame. pose proof Hsame as [Ha Hf].
  unfold applySmoothing_png, applySmoothing.
  destruct (smooth s) as [s0 |] eqn:E, (smooth s') as [s0' |] eqn:E';
    try (specialize (Hf Yaw); discriminate Hf).
  - pose proof (same_scalars_fields s s' s0 s0' Hsame E E') as Heq.
    pose proof (Heq CenterX) as H1. pose proof (Heq CenterY) as H2.
    pose proof (Heq EyeDistance) as H3. pose proof (Heq Roll) as H4.
    pose proof (Heq Yaw) as H5. cbn in H1, H2, H3, H4, H5.
    rewrite Ha, H1, H2, H3, H4, H5. cbn [fst snd].
    split; [reflexivity |].
    split; [exact Ha |]. intros []; reflexivity.
  - cbn [fst snd]. split; [reflexivity |].
    split; [exact Ha |]. intros []; reflexivity.
Qed.

(** X16.  The two entry points smooth alike over a whole session.  From
    two states that hold the same blend factor and the same persisted
    scalars (in particular from the same state), and on the same run of
    raw transforms, the [applySmoothing] of the embedded (PNG) entry
    point and that of the standalone one hand back the same
    descriptors, call after call, although only the standalone one
    keeps the keypoints in [state.smooth]. *)
Theorem smoothAll_png_agrees (raws : list Transform.t) :
  forall s s' : state,
    same_scalars s s' ->
    smoothAll applySmoothing_png raws s = smoothAll applySmoothing raws s'.
Proof.
  induction raws as [| raw rest IH]; intros s s' Hsame; cbn [smoothAll];
    [reflexivity |].
  destruct (applySmoothing_png_same raw s s' Hsame) as [Hpose Hnext].
  destruct (applySmoothing_png raw s) as [s1 p].
  destruct (applySmoothing raw s') as [s1' p'].
  cbn [fst snd] in *. subst p'. f_equal. now apply IH.
Qed.

Lemma smoothAll_png_agrees_witness :
  smoothAll applySmoothing_png [Sample.raw; Sample.raw] Sample.seeded =
  smoothAll applySmoothing [Sample.raw; Sample.raw] Sample.seeded.
Proof.
  apply (smoothAll_png_agrees [Sample.raw; Sample.raw] Sample.seeded Sample.seeded).
  split; [reflexivity |]. intros f. reflexivity.
Defined.

End SmoothingRuns.

Section OverlayOnThePage.

Import Main.

(** What a run of the loop hands to [drawGlasses]. *)
Lemma renderLoop_draws (now : R) (w : world) (h : Render.halves_t) (t : Pose.t)
      (g : Render.image) (sm vo : R) :
  In (DrawGlasses h t g sm vo) (snd (renderLoop now w)) ->
  lastRawTransform (st w) = Some t /\
  exists gl,
    nth_error (glassesAssets w) (currentFrameIndex (st w)) = Some gl /\
    h = halves gl /\ g = img gl /\
    sm = frameScaleMultiplier (st w) /\ vo = verticalOffset (st w).
Proof.
  loop_cases now w; try (cbn [In]; intros H; contradiction);
    overlay_cases; cbn [In app];
    intros H;
    repeat (destruct H as [H | H]; try discriminate H);
    try contradiction;
    injection H as <- <- <- <- <-;
    (split; [reflexivity | eexists; repeat split; reflexivity]).
Qed.

(** X17.  Every overlay the loop draws can be drawn.  On every page the
    browser can reach, whenever a run of [renderLoop] calls
    [drawGlasses], the image is at least 20 px wide and high, the
    halves are those of that image and are each at least 10 px wide,
    the yaw of the pose is within [[-1, 1]], and [drawGlasses] goes
    through: its scale is defined (no division by zero) whatever the
    sliders say. *)
Theorem overlay_can_be_drawn (t0 now : R) (w : world) :
  reachable t0 w ->
  forall h t g sm vo,
    In (DrawGlasses h t g sm vo) (snd (renderLoop now w)) ->
    (20 <= Render.width g)%Z /\ (20 <= Render.height g)%Z /\
    h = Render.splitGlassesImage g /\
    (10 <= Render.width (Render.left h))%Z /\
    (10 <= Render.width (Render.right h))%Z /\
    -1 <= Pose.yaw t <= 1 /\
    exists ops, Render.drawGlasses h t g sm vo = Ok ops.
Proof.
  intros Hreach h t g sm vo Hin.
  destruct (renderLoop_draws now w h t g sm vo Hin)
    as (Ht & gl & Hgl & -> & -> & _ & _).
  pose proof (reachable_assets_sized t0 w Hreach) as Hsized.
  unfold assets_sized in Hsized. rewrite Forall_forall in Hsized.
  destruct (Hsized gl (nth_error_In _ _ Hgl)) as (Hw & Hh & Hhalves).
  destruct (reachable_yaw_in_range t0 w Hreach) as [_ Hyaw].
  split; [exact Hw |]. split; [exact Hh |]. split; [exact Hhalves |].
  rewrite Hhalves. unfold Render.splitGlassesImage.
  cbn [Render.left Render.right Render.width].
  split; [Z.div_mod_to_equations; lia |].
  split; [Z.div_mod_to_equations; lia |].
  split; [exact (Hyaw t Ht) |].
  unfold Render.drawGlasses.
  rewrite baseScale_value by lia. cbn [bind]. eexists. reflexivity.
Qed.

Lemma renderLoop_keeps_selection (now : R) (w : world) :
  currentFrameIndex (st (fst (renderLoop now w))) = currentFrameIndex (st w).
Proof. loop_cases now w; reflexivity. Qed.

Lemma busy_page_glasses :
  glassesAssets Sample.busy = loadGlassesAssets [None] /\
  currentFrameIndex (st Sample.busy) = 0%nat.
Proof.
  unfold Sample.busy, Sample.startup.
  erewrite after_step by reflexivity.
  erewrite after_step by reflexivity.
  rewrite !after_frame. cbn [after].
  rewrite !renderLoop_keeps_assets, !renderLoop_keeps_selection.
  split; reflexivity.
Qed.

(** Five milliseconds after the detection of the sample session has
    completed, the overlay is due. *)
Lemma tracked_page_visible : overlay_visible 25 Sample.tracked.
Proof.
  destruct busy_page as (Hreach & Hrun & _ & Hin & _).
  destruct busy_page_glasses as [Hassets Hidx].
  destruct (reachable_invariant 0 Sample.busy Hreach) as [(_ & _ & Htimeout) _].
  destruct (extract_full_mesh Sample.mesh478) as (raw & Hraw);
    [assert (L : length Sample.mesh478 = 478%nat) by reflexivity;
     rewrite L; lia |].
  destruct (resume_guard_cleared (Some (Face.mkFace Sample.mesh478)) 20 Sample.busy)
    as (_ & _ & _ & Hkeep).
  unfold overlay_visible, Sample.tracked. cbn [after step]. rewrite Hin.
  rewrite Hkeep, Hassets.
  split; [now rewrite resume_running |].
  rewrite (resume_face (Face.mkFace Sample.mesh478) raw 20 Sample.busy Hraw).
  rewrite applySmoothing_frame.
  cbn [set_lastFaceTime set_lastRawTransform set_smooth lastRawTransform
       lastFaceTime faceTimeoutMs currentFrameIndex].
  rewrite Htimeout, Hidx.
  split; [eexists; reflexivity |].
  split; [lra |]. eexists. reflexivity.
Qed.

Lemma overlay_can_be_drawn_witness :
  overlay_drawn (snd (renderLoop 25 Sample.tracked)) = true /\
  forall h t g sm vo,
    In (DrawGlasses h t g sm vo) (snd (renderLoop 25 Sample.tracked)) ->
    h = Render.splitGlassesImage g /\
    -1 <= Pose.yaw t <= 1 /\
    exists ops, Render.drawGlasses h t g sm vo = Ok ops.
Proof.
  split; [apply overlay_drawn_iff, tracked_page_visible |].
  intros h t g sm vo Hin.
  destruct tracked_page as (Hreach & _).
  destruct (overlay_can_be_drawn 0 25 Sample.tracked Hreach h t g sm vo Hin)
    as (_ & _ & Hsplit & _ & _ & Hyaw & Hops).
  auto.
Defined.

End OverlayOnThePage.

(* ================================================================== *)
(** ** Properties of render3d.js *)
(* ================================================================== *)

Section Render3DFacts.

Import Render3D.

(** The divisor [size.x || 1] is never 0. *)
Lemma width_or_one_nonzero (size : vec3) :
  (if Req_dec_T (vx size) 0 then 1 else vx size) <> 0.
Proof. destruct (Req_dec_T (vx size) 0); lra. Qed.



(** X19.  Where [update3DGlasses] puts the model.  When the model, the
    renderer, the scene and the camera are there, the model is moved to
    [(center.x - W / 2, - (center.y + verticalOffset - H / 2), 0)],
    whatever its position was (the centring done at load time is
    overwritten), turned by [- roll] about z, and leaned by
    [- yaw * PI * 0.28] about y; its x rotation is kept.  With a yaw in
    [[-1, 1]] the lean stays within 0.28 PI, short of a quarter turn,
    so the model is never seen edge-on.  With the camera that
    [init3DRenderer] creates for a [W] x [H] canvas, the model is
    inside the camera's frame exactly when the shifted eye centre is
    inside the canvas. *)
Theorem update3DGlasses_placement (s : t) (model : object3d) (r : renderer_t)
        (sc : scene_t) (cam : camera_t) (transform : Pose.t)
        (canvasWidth canvasHeight verticalOffset : R)
        (scaleMultiplier : option R) :
  glassesModel s = Some model -> renderer s = Some r ->
  scene s = Some sc -> camera s = Some cam ->
  exists s1 model1,
    update3DGlasses transform canvasWidth canvasHeight scaleMultiplier
                    (Some verticalOffset) s =
      (s1, [Render (if holds_model sc then Some model1 else None)]) /\
    glassesModel s1 = Some model1 /\
    position model1 =
      {| vx := Point.x (Pose.center transform) - canvasWidth / 2;
         vy := - (Point.y (Pose.center transform) + verticalOffset
                  - canvasHeight / 2);
         vz := 0 |} /\
    vx (rotation model1) = vx (rotation model) /\
    vy (rotation model1) = - Pose.yaw transform * PI * 0.28 /\
    vz (rotation model1) = - Pose.roll transform /\
    (-1 <= Pose.yaw transform <= 1 ->
     Rabs (vy (rotation model1)) <= 0.28 * PI /\
     - (PI / 2) < vy (rotation model1) < PI / 2) /\
    (camera (init3DRenderer canvasWidth canvasHeight 1 initial) = Some cam ->
     (cam_left cam <= vx (position model1) <= cam_right cam /\
      cam_bottom cam <= vy (position model1) <= cam_top cam <->
      0 <= Point.x (Pose.center transform) <= canvasWidth /\
      0 <= Point.y (Pose.center transform) + verticalOffset <= canvasHeight)).
Proof.
  intros Hm Hr Hs Hc. unfold update3DGlasses. rewrite Hm, Hr, Hs, Hc.
  do 2 eexists. split; [reflexivity |].
  cbn [glassesModel position rotation vx vy vz].
  repeat (split; [reflexivity |]).
  pose proof PI_RGT_0 as Hpi.
  split.
  - intros Hyaw. split.
    + apply Rabs_le. split; nra.
    + split; nra.
  - intros Hcam. cbn in Hcam. injection Hcam as <-.
    cbn [cam_left cam_right cam_top cam_bottom]. split; intros H; lra.
Qed.

Lemma update3DGlasses_placement_witness :
  exists s1 model1,
    update3DGlasses Sample.pose 640 480 None (Some 0)
      (fst (loadGLBModel (mkObject3d (mkVec3 0 0 0) (mkVec3 1 1 1) (mkVec3 0 0 0))
                         (mkVec3 0.14 0.05 0.15) (mkVec3 0 0.01 0)
                         (init3DRenderer 640 480 1 initial))) =
      (s1, [Render (Some model1)]) /\
    position model1 = {| vx := 320 - 640 / 2; vy := - (240 + 0 - 480 / 2); vz := 0 |} /\
    Rabs (vy (rotation model1)) <= 0.28 * PI.
Proof.
  assert (Hload :
    exists s0 model,
      loadGLBModel (mkObject3d (mkVec3 0 0 0) (mkVec3 1 1 1) (mkVec3 0 0 0))
                   (mkVec3 0.14 0.05 0.15) (mkVec3 0 0.01 0)
                   (init3DRenderer 640 480 1 initial) = (s0, Ok model) /\
      glassesModel s0 = Some model /\
      renderer s0 = Some {| size_width := 640; size_height := 480;
                            pixelRatio := Rmin 1 2 |} /\
      camera s0 = camera (init3DRenderer 640 480 1 initial) /\
      exists ls, scene s0 = Some {| lights := ls; holds_model := true |}).
  { unfold loadGLBModel. cbn [init3DRenderer initial renderer glassesModel scene].
    rewrite (div_nonzero 1 _ (width_or_one_nonzero _)).
    cbn [scene]. do 2 eexists. split; [reflexivity |].
    cbn. repeat split; eexists; reflexivity. }
  destruct Hload as (s0 & model & Hload & Hm & Hr & Hc & ls & Hs).
  rewrite Hload. cbn [fst].
  destruct (update3DGlasses_placement s0 model _ _ _ Sample.pose 640 480 0 None
              Hm Hr Hs Hc)
    as (s1 & model1 & Hupdate & _ & Hpos & _ & _ & _ & Hlean & _).
  exists s1, model1. split; [exact Hupdate |]. split; [exact Hpos |].
  apply Hlean. cbn. lra.
Defined.

Lemma dispose3DRenderer_initial (s : t) : dispose3DRenderer s = initial.
Proof.
  unfold dispose3DRenderer, initial.
  destruct (glassesModel s) eqn:Em; destruct (renderer s) eqn:Er;
    cbn; rewrite ?Em, ?Er; reflexivity.
Qed.

Lemma consistent_initial : consistent initial.
Proof.
  unfold consistent, initial. cbn.
  repeat split; auto; intros; discriminate.
Qed.

Lemma run_call_consistent (c : call) (s : t) :
  consistent s -> consistent (run_call c s).
Proof.
  intros (H1 & H2 & H3 & H4).
  destruct c; cbn [run_call].
  - unfold consistent, init3DRenderer. cbn.
    repeat split; try discriminate.
    intros sc0 E Hh. injection E as <-. discriminate.
  - unfold consistent, loadGLBModel.
    rewrite (div_nonzero 1 _ (width_or_one_nonzero _)).
    destruct (glassesModel s) as [old |] eqn:Em;
      destruct (scene s) as [sc0 |] eqn:Es; cbn;
      rewrite ?Em, ?Es;
      repeat split; auto; try discriminate;
      try (intros E; apply H1 in E; discriminate);
      try (intros ? ? ?; discriminate);
      try tauto.
  - unfold consistent, update3DGlasses.
    destruct (glassesModel s) as [m |] eqn:Em;
      destruct (renderer s) as [r |] eqn:Er;
      destruct (scene s) as [sc0 |] eqn:Es;
      destruct (camera s) as [cm |] eqn:Ec; cbn;
      try rewrite Em; try rewrite Er; try rewrite Es; try rewrite Ec;
      repeat split; auto; try discriminate; try tauto.
  - repeat split; tauto.
  - rewrite dispose3DRenderer_initial. apply consistent_initial.
Qed.

Lemma run_consistent (calls : list call) :
  forall s, consistent s -> consistent (run calls s).
Proof.
  induction calls as [| c rest IH]; intros s Hs; cbn [run]; [exact Hs |].
  apply IH, run_call_consistent, Hs.
Qed.

(** X20.  Whatever calls are made on the module, in whatever order:
    the renderer, the scene, the camera and the overlay canvas exist
    together or not at all; when the scene holds a model, a model is
    loaded; [is3DReady] tells exactly whether [update3DGlasses] renders
    (whatever its arguments); and [dispose3DRenderer] brings the module
    back to the state it was loaded in, scale unit included. *)
Theorem render3d_lifecycle (calls : list call) :
  let s := run calls initial in
  consistent s /\
  (is3DReady s = true <->
   forall transform w h sm vo, snd (update3DGlasses transform w h sm vo s) <> []) /\
  dispose3DRenderer s = initial.
Proof.
  cbv zeta.
  pose proof (run_consistent calls initial consistent_initial) as Hcons.
  split; [exact Hcons |]. split; [| apply dispose3DRenderer_initial].
  destruct Hcons as (H1 & H2 & _ & _).
  unfold is3DReady, update3DGlasses.
  destruct (renderer (run calls initial)) as [r |] eqn:Er.
  - destruct (scene (run calls initial)) as [sc |] eqn:Es;
      [| destruct H1 as [_ H1]; specialize (H1 eq_refl); discriminate].
    destruct (camera (run calls initial)) as [cm |] eqn:Ec;
      [| destruct H2 as [_ H2]; specialize (H2 eq_refl); discriminate].
    destruct (glassesModel (run calls initial)) as [m |] eqn:Em.
    + split; [intros _ ? ? ? ? ?; discriminate | reflexivity].
    + split; [discriminate |].
      intros H. exfalso.
      apply (H (Pose.make (Point.make 0 0 None) 0 0 0 []) 0 0 None None).
      reflexivity.
  - split; [destruct (glassesModel (run calls initial)); discriminate |].
    intros H. exfalso.
    apply (H (Pose.make (Point.make 0 0 None) 0 0 0 []) 0 0 None None).
    destruct (glassesModel (run calls initial)); reflexivity.
Qed.

(** X21.  Loading a model before the renderer is initialised.  On the
    module as loaded, [loadGLBModel] fails ([scene] is [null] when the
    model is to be added) but has already stored the model.  After
    [init3DRenderer], [is3DReady] answers true although the new scene
    does not hold that model: [update3DGlasses] renders a scene without
    glasses.  Loading the model again puts it in the scene. *)
Theorem load_before_init (gltf_scene : object3d) (size centre : vec3)
        (width height devicePixelRatio : R) (transform : Pose.t)
        (canvasWidth canvasHeight : R) (scaleMultiplier verticalOffset : option R) :
  let early := loadGLBModel gltf_scene size centre initial in
  let ready := init3DRenderer width height devicePixelRatio (fst early) in
  let again := loadGLBModel gltf_scene size centre ready in
  snd early = TypeError /\
  glassesModel (fst early) <> None /\
  is3DReady ready = true /\
  snd (update3DGlasses transform canvasWidth canvasHeight
                       scaleMultiplier verticalOffset ready) = [Render None] /\
  (exists model, snd again = Ok model) /\
  exists model1,
    snd (update3DGlasses transform canvasWidth canvasHeight
                         scaleMultiplier verticalOffset (fst again)) =
    [Render (Some model1)].
Proof.
  cbv zeta.
  assert (Hearly : exists model unit,
            loadGLBModel gltf_scene size centre initial =
            ({| scene := None; camera := None; renderer := None;
                glassesModel := Some model; overlayCanvas := None;
                normalizedWidthUnit := unit |}, TypeError)).
  { unfold loadGLBModel. cbn [initial glassesModel scene].
    rewrite (div_nonzero 1 _ (width_or_one_nonzero _)). cbn [scene].
    do 2 eexists. reflexivity. }
  destruct Hearly as (model & unit & ->). cbn [fst snd glassesModel].
  split; [reflexivity |]. split; [discriminate |].
  split; [reflexivity |].
  split; [destruct scaleMultiplier, verticalOffset; reflexivity |].
  unfold loadGLBModel.
  cbn [init3DRenderer renderer glassesModel scene].
  rewrite (div_nonzero 1 _ (width_or_one_nonzero _)). cbn [fst snd scene].
  split; [eexists; reflexivity |].
  eexists. destruct scaleMultiplier, verticalOffset; reflexivity.
Qed.

End Render3DFacts.

(* ================================================================== *)
(** ** Properties of editor.js *)
(* ================================================================== *)

Section HistoryFacts.

Import Editor.

(** [redraw] touches the size of the display canvas only. *)
Lemma redraw_state (cw ch : Z) (e : editor) :
  fst (redraw cw ch e) = e \/ fst (redraw cw ch e) = set_editorCanvas cw ch e.
Proof.
  unfold redraw. destruct (imageLoaded e); cbn [negb fst]; auto.
Qed.

Lemma redraw_keeps (cw ch : Z) (e : editor) :
  workCanvas (fst (redraw cw ch e)) = workCanvas e /\
  originalImageData (fst (redraw cw ch e)) = originalImageData e /\
  history (fst (redraw cw ch e)) = history e /\
  histIndex (fst (redraw cw ch e)) = histIndex e /\
  view (fst (redraw cw ch e)) = view e /\
  imageLoaded (fst (redraw cw ch e)) = imageLoaded e.
Proof.
  destruct (redraw_state cw ch e) as [-> | ->]; repeat split; reflexivity.
Qed.

Lemma redraw_never_throws (cw ch : Z) (e : editor) :
  ~ In Throws (snd (redraw cw ch e)).
Proof.
  unfold redraw. destruct (negb (imageLoaded e)); cbn [snd]; [intros [] |].
  intros Hin. apply in_map_iff in Hin. destruct Hin as (op & Hop & _).
  discriminate.
Qed.

(** The tail shared by [undo] and [redo]: repaint, then refresh the
    buttons. *)
Lemma repaint_state (cw ch : Z) (e : editor) :
  fst (let '(e3, painted) := redraw cw ch e in
       (e3, painted ++ [Buttons (updateButtons e3)])) = fst (redraw cw ch e) /\
  ~ In Throws (snd (let '(e3, painted) := redraw cw ch e in
                    (e3, painted ++ [Buttons (updateButtons e3)]))).
Proof.
  pose proof (redraw_never_throws cw ch e) as H.
  destruct (redraw cw ch e) as [e3 painted]. cbn [fst snd] in *.
  split; [reflexivity |].
  rewrite in_app_iff. intros [Hin | [Hin | []]]; [contradiction | discriminate].
Qed.

Lemma splice_prefix {A : Type} (start : Z) (arr : list A) :
  (0 <= start <= Z.of_nat (length arr))%Z ->
  splice start arr = firstn (Z.to_nat start) arr /\
  length (splice start arr) = Z.to_nat start.
Proof.
  intros H. unfold splice.
  destruct (Z.ltb start 0) eqn:E; [lia |].
  split; [reflexivity |]. rewrite length_firstn. lia.
Qed.

(** What [saveHistory] leaves. *)
Lemma saveHistory_state (e : editor) :
  history_ok e ->
  let kept := firstn (Z.to_nat (histIndex e + 1)) (history e) in
  let e1 := fst (saveHistory e) in
  history e1 =
    (if Nat.ltb MAX_HISTORY (length (kept ++ [snapshot e]))
     then tl (kept ++ [snapshot e]) else kept ++ [snapshot e]) /\
  histIndex e1 = (Z.of_nat (length (history e1)) - 1)%Z /\
  workCanvas e1 = workCanvas e /\
  history_ok e1.
Proof.
  intros [Hi Hlen]. cbv zeta. unfold saveHistory. fold (snapshot e).
  destruct (splice_prefix (histIndex e + 1) (history e)) as [-> Hk]; [lia |].
  cbn [fst set_history history histIndex workCanvas].
  split; [reflexivity |]. split; [reflexivity |]. split; [reflexivity |].
  unfold history_ok. cbn [set_history history histIndex].
  set (kept := firstn (Z.to_nat (histIndex e + 1)) (history e)).
  assert (Hkept : length kept = Z.to_nat (histIndex e + 1))
    by (unfold kept; rewrite length_firstn; lia).
  assert (L : length (kept ++ [snapshot e]) = S (length kept))
    by (rewrite length_app; cbn [length]; lia).
  unfold MAX_HISTORY in *.
  destruct (Nat.ltb 30 (length (kept ++ [snapshot e]))) eqn:E.
  - apply Nat.ltb_lt in E.
    destruct (kept ++ [snapshot e]) as [| first rest];
      cbn [tl length] in *; lia.
  - apply Nat.ltb_ge in E. lia.
Qed.

(** What [undo] leaves when there is something to undo. *)
Lemma undo_state (cw ch : Z) (e : editor) :
  history_ok e -> (0 < histIndex e)%Z ->
  exists img,
    nth_error (history e) (Z.to_nat (histIndex e - 1)) = Some img /\
    history (fst (undo cw ch e)) = history e /\
    histIndex (fst (undo cw ch e)) = (histIndex e - 1)%Z /\
    workCanvas (fst (undo cw ch e)) = putImageData img 0 0 (workCanvas e) /\
    ~ In Throws (snd (undo cw ch e)).
Proof.
  intros [Hi Hlen] Hpos. unfold undo.
  destruct (Z.leb (histIndex e) 0) eqn:E; [lia |].
  cbn [set_histIndex history histIndex].
  destruct (index_in_range (history e) (Z.to_nat (histIndex e - 1))) as [img Himg];
    [lia |].
  exists img. rewrite Himg. split; [reflexivity |].
  match goal with
  | |- context [redraw cw ch ?x] =>
      destruct (repaint_state cw ch x) as [Hfst Hsnd];
      destruct (redraw_keeps cw ch x) as (H1 & _ & H3 & H4 & _)
  end.
  rewrite Hfst, H1, H3, H4. cbn [set_workCanvas set_histIndex history
    histIndex workCanvas].
  repeat split; try reflexivity. exact Hsnd.
Qed.

(** What [redo] leaves when there is something to redo. *)
Lemma redo_state (cw ch : Z) (e : editor) :
  history_ok e -> (histIndex e < Z.of_nat (length (history e)) - 1)%Z ->
  exists img,
    nth_error (history e) (Z.to_nat (histIndex e + 1)) = Some img /\
    history (fst (redo cw ch e)) = history e /\
    histIndex (fst (redo cw ch e)) = (histIndex e + 1)%Z /\
    workCanvas (fst (redo cw ch e)) = putImageData img 0 0 (workCanvas e) /\
    ~ In Throws (snd (redo cw ch e)).
Proof.
  intros [Hi Hlen] Hnext. unfold redo.
  destruct (Z.leb (Z.of_nat (length (history e)) - 1) (histIndex e)) eqn:E; [lia |].
  cbn [set_histIndex history histIndex].
  destruct (Z.ltb (histIndex e + 1) 0) eqn:E0; [lia |].
  destruct (index_in_range (history e) (Z.to_nat (histIndex e + 1))) as [img Himg];
    [lia |].
  exists img. rewrite Himg. split; [reflexivity |].
  match goal with
  | |- context [redraw cw ch ?x] =>
      destruct (repaint_state cw ch x) as [Hfst Hsnd];
      destruct (redraw_keeps cw ch x) as (H1 & _ & H3 & H4 & _)
  end.
  rewrite Hfst, H1, H3, H4. cbn [set_workCanvas set_histIndex history
    histIndex workCanvas].
  repeat split; try reflexivity. exact Hsnd.
Qed.

Lemma undo_idle (cw ch : Z) (e : editor) :
  (histIndex e <= 0)%Z -> undo cw ch e = (e, []).
Proof.
  intros H. unfold undo. destruct (Z.leb (histIndex e) 0) eqn:E; [reflexivity | lia].
Qed.

Lemma redo_idle (cw ch : Z) (e : editor) :
  (Z.of_nat (length (history e)) - 1 <= histIndex e)%Z -> redo cw ch e = (e, []).
Proof.
  intros H. unfold redo.
  destruct (Z.leb (Z.of_nat (length (history e)) - 1) (histIndex e)) eqn:E;
    [reflexivity | lia].
Qed.

Lemma run_edit_ok (cw ch : Z) (c : edit) (e : editor) :
  history_ok e -> history_ok (run_edit cw ch c e).
Proof.
  intros Hok. destruct c as [canvas | |]; cbn [run_edit].
  - apply (saveHistory_state (set_workCanvas canvas e)). exact Hok.
  - destruct (Z_le_gt_dec (histIndex e) 0) as [Hle | Hgt].
    + now rewrite undo_idle.
    + destruct (undo_state cw ch e Hok) as (img & _ & Hh & Hi & _); [lia |].
      destruct Hok as [Hidx Hlen]. unfold history_ok. rewrite Hh, Hi.
      split; [lia | exact Hlen].
  - destruct (Z_le_gt_dec (Z.of_nat (length (history e)) - 1) (histIndex e))
      as [Hle | Hgt].
    + now rewrite redo_idle.
    + destruct (redo_state cw ch e Hok) as (img & _ & Hh & Hi & _); [lia |].
      destruct Hok as [Hidx Hlen]. unfold history_ok. rewrite Hh, Hi.
      split; [lia | exact Hlen].
Qed.

Lemma run_ok (cw ch : Z) (edits : list edit) :
  forall e, history_ok e -> history_ok (run cw ch edits e).
Proof.
  induction edits as [| c rest IH]; intros e Hok; cbn [run]; [exact Hok |].
  apply IH, run_edit_ok, Hok.
Qed.

(** X22.  The undo history stays well formed.  Once an image is loaded
    ([loadImageFile] leaves one snapshot and [histIndex = 0]), whatever
    edits, undos and redos follow: the history holds between 1 and 30
    snapshots and [histIndex] points at one of them, so neither [undo]
    nor [redo] ever reads past the history; and the Undo (Redo) button
    is disabled exactly when [undo] ([redo]) would do nothing. *)
Theorem history_stays_well_formed (cw ch : Z) (edits : list edit) (e0 : editor) :
  history_ok e0 ->
  let e := run cw ch edits e0 in
  history_ok e /\
  (1 <= length (history e) <= 30)%nat /\
  ~ In Throws (snd (undo cw ch e)) /\
  ~ In Throws (snd (redo cw ch e)) /\
  (btnUndo (updateButtons e) = true <-> undo cw ch e = (e, [])) /\
  (btnRedo (updateButtons e) = true <-> redo cw ch e = (e, [])) /\
  (forall bitmap e1 e2 effects,
      loadImageFile (Some bitmap) cw ch e1 = Ok (e2, effects) ->
      history_ok e2 /\ histIndex e2 = 0%Z /\ length (history e2) = 1%nat).
Proof.
  intros Hok0. cbv zeta.
  pose proof (run_ok cw ch edits e0 Hok0) as Hok.
  set (e := run cw ch edits e0) in *.
  split; [exact Hok |].
  split; [destruct Hok as [Hi Hlen]; unfold MAX_HISTORY in Hlen; lia |].
  split.
  { destruct (Z_le_gt_dec (histIndex e) 0) as [Hle | Hgt].
    - rewrite undo_idle by exact Hle. intros [].
    - destruct (undo_state cw ch e Hok) as (img & _ & _ & _ & _ & H); [lia | exact H]. }
  split.
  { destruct (Z_le_gt_dec (Z.of_nat (length (history e)) - 1) (histIndex e))
      as [Hle | Hgt].
    - rewrite redo_idle by exact Hle. intros [].
    - destruct (redo_state cw ch e Hok) as (img & _ & _ & _ & _ & H); [lia | exact H]. }
  split.
  { unfold updateButtons. cbn [btnUndo]. split.
    - intros H. apply undo_idle. lia.
    - intros H. destruct (Z_le_gt_dec (histIndex e) 0) as [Hle | Hgt]; [lia |].
      destruct (undo_state cw ch e Hok) as (img & _ & _ & Hi & _); [lia |].
      rewrite H in Hi. cbn [fst] in Hi. lia. }
  split.
  { unfold updateButtons. cbn [btnRedo]. split.
    - intros H. apply redo_idle. lia.
    - intros H.
      destruct (Z_le_gt_dec (Z.of_nat (length (history e)) - 1) (histIndex e))
        as [Hle | Hgt]; [lia |].
      destruct (redo_state cw ch e Hok) as (img & _ & _ & Hi & _); [lia |].
      rewrite H in Hi. cbn [fst] in Hi. lia. }
  intros bitmap e1 e2 effects. unfold loadImageFile.
  match goal with
  | |- context [saveHistory ?x] => destruct (saveHistory x) as [e4 saved] eqn:Es
  end.
  unfold saveHistory in Es. injection Es as <- _.
  destruct (fitToView cw ch _) as [[e6 fitted] | |] eqn:Ef; cbn [bind];
    try discriminate.
  intros H. injection H as <- _.
  unfold fitToView in Ef. cbn [set_imageLoaded imageLoaded negb] in Ef.
  repeat match type of Ef with
    | context [Js.div ?a ?b] => destruct (Js.div a b); cbn [bind] in Ef;
                                try discriminate
    end.
  injection Ef as <- _.
  unfold history_ok, MAX_HISTORY. cbn. repeat split; lia.
Qed.

Lemma history_stays_well_formed_witness :
  history_ok (run 800 600 [Undo; Undo; SaveHistory Fixture.blank; Redo; Undo]
                  Fixture.editing) /\
  ~ In Throws (snd (undo 800 600
                      (run 800 600 [Undo; Undo; SaveHistory Fixture.blank; Redo; Undo]
                           Fixture.editing))).
Proof.
  destruct (history_stays_well_formed 800 600
              [Undo; Undo; SaveHistory Fixture.blank; Redo; Undo] Fixture.editing)
    as (Hok & _ & Hundo & _).
  - unfold history_ok, MAX_HISTORY. cbn. lia.
  - split; [exact Hok | exact Hundo].
Defined.

End HistoryFacts.

Section Bitmaps.

Import Editor.

Lemma nth_error_blocks {A B : Type} (g : A -> list B) (n : nat) (l : list A) :
  (forall a, length (g a) = n) ->
  forall i j,
    (j < n)%nat ->
    nth_error (flat_map g l) (i * n + j) =
    match nth_error l i with
    | Some a => nth_error (g a) j
    | None => None
    end.
Proof.
  intros Hn. induction l as [| a rest IH]; intros i j Hj.
  - cbn [flat_map]. destruct i; cbn; now rewrite ?nth_error_nil.
  - cbn [flat_map]. destruct i as [| i].
    + cbn [Nat.mul Nat.add nth_error]. apply nth_error_app1. now rewrite Hn.
    + cbn [nth_error].
      replace (S i * n + j)%nat with (length (g a) + (i * n + j))%nat
        by (rewrite Hn; lia).
      rewrite nth_error_app2 by lia.
      replace (length (g a) + (i * n + j) - length (g a))%nat
        with (i * n + j)%nat by lia.
      now apply IH.
Qed.

Lemma length_blocks {A B : Type} (g : A -> list B) (n : nat) (l : list A) :
  (forall a, length (g a) = n) -> length (flat_map g l) = (length l * n)%nat.
Proof.
  intros Hn. induction l as [| a rest IH]; [reflexivity |].
  cbn [flat_map length]. rewrite length_app, Hn, IH. lia.
Qed.

Lemma nth_error_seq0 (n i : nat) : (i < n)%nat -> nth_error (seq 0 n) i = Some i.
Proof.
  intros H. rewrite (nth_error_nth' _ 0%nat) by (now rewrite length_seq).
  now rewrite seq_nth.
Qed.

(** Reading the data of a bitmap at [(y * w + x) * 4 + c]. *)
Lemma bitmap_data (w h : nat) (f : nat -> nat -> nat -> Z) (x y c : nat) :
  (x < w)%nat -> (y < h)%nat -> (c < 4)%nat ->
  nth_error (data (bitmap w h f)) (offset w x y c) = Some (f x y c).
Proof.
  intros Hx Hy Hc. unfold bitmap, offset. cbn [data].
  replace ((y * w + x) * 4 + c)%nat with (y * (w * 4) + (x * 4 + c))%nat by lia.
  rewrite (nth_error_blocks _ (w * 4));
    [| intros a; rewrite (length_blocks _ 4) by reflexivity;
       now rewrite length_seq | lia].
  rewrite nth_error_seq0 by exact Hy.
  rewrite (nth_error_blocks _ 4) by (reflexivity || lia).
  rewrite nth_error_seq0 by exact Hx.
  destruct c as [| [| [| [| c]]]]; try reflexivity; lia.
Qed.


Lemma channel_bitmap (w h : nat) (f : nat -> nat -> nat -> Z) (x y c : nat) :
  (x < w)%nat -> (y < h)%nat -> (c < 4)%nat ->
  channel (bitmap w h f) x y c = f x y c.
Proof.
  intros Hx Hy Hc. unfold channel.
  change (width (bitmap w h f)) with w. change (height (bitmap w h f)) with h.
  destruct (Nat.ltb_spec x w); [| lia]. destruct (Nat.ltb_spec y h); [| lia].
  cbn [andb]. apply nth_error_nth. now apply bitmap_data.
Qed.

Lemma channel_outside (img : ImageData) (x y c : nat) :
  (width img <= x)%nat \/ (height img <= y)%nat -> channel img x y c = 0%Z.
Proof.
  intros H. unfold channel.
  destruct (Nat.ltb_spec x (width img)); destruct (Nat.ltb_spec y (height img));
    cbn [andb]; try reflexivity; lia.
Qed.

(** [getImageData] copies the rectangle. *)
Lemma channel_getImageData (canvas : ImageData) (sx sy sw sh x y c : nat) :
  (x < sw)%nat -> (y < sh)%nat -> (c < 4)%nat ->
  channel (getImageData canvas sx sy sw sh) x y c = channel canvas (sx + x) (sy + y) c.
Proof. intros. unfold getImageData. now rewrite channel_bitmap. Qed.

(** [putImageData] replaces the pixels the image falls on, and no
    other. *)
Lemma channel_putImageData (img canvas : ImageData) (dx dy x y c : nat) :
  (x < width canvas)%nat -> (y < height canvas)%nat -> (c < 4)%nat ->
  channel (putImageData img dx dy canvas) x y c =
  if Nat.leb dx x && Nat.ltb x (dx + width img) &&
     Nat.leb dy y && Nat.ltb y (dy + height img)
  then channel img (x - dx) (y - dy) c
  else channel canvas x y c.
Proof. intros. unfold putImageData. now rewrite channel_bitmap. Qed.

Lemma putImageData_size (img canvas : ImageData) (dx dy : nat) :
  width (putImageData img dx dy canvas) = width canvas /\
  height (putImageData img dx dy canvas) = height canvas.
Proof. split; reflexivity. Qed.

End Bitmaps.

Section UndoRedo.

Import Editor.

(** X23.  Undo and redo are inverse to each other.  With a well-formed
    history: when there is something to undo, [undo] steps back one
    snapshot and paints it on the work canvas, and a [redo] right after
    it brings [histIndex] back and paints the snapshot [histIndex]
    pointed at, the history itself being untouched; likewise a [redo]
    followed by an [undo].  Wherever a snapshot covers the canvas, the
    canvas shows exactly the pixels of that snapshot. *)
Theorem undo_redo_round_trip (cw ch : Z) (e : editor) :
  history_ok e ->
  ((0 < histIndex e)%Z ->
   let e1 := fst (undo cw ch e) in
   let e2 := fst (redo cw ch e1) in
   exists before current,
     nth_error (history e) (Z.to_nat (histIndex e - 1)) = Some before /\
     nth_error (history e) (Z.to_nat (histIndex e)) = Some current /\
     histIndex e1 = (histIndex e - 1)%Z /\
     workCanvas e1 = putImageData before 0 0 (workCanvas e) /\
     history e2 = history e /\ histIndex e2 = histIndex e /\
     workCanvas e2 = putImageData current 0 0 (workCanvas e1) /\
     forall x y c,
       (x < width (workCanvas e))%nat -> (y < height (workCanvas e))%nat ->
       (c < 4)%nat ->
       (x < width current)%nat -> (y < height current)%nat ->
       channel (workCanvas e2) x y c = channel current x y c) /\
  ((histIndex e < Z.of_nat (length (history e)) - 1)%Z ->
   let e1 := fst (redo cw ch e) in
   let e2 := fst (undo cw ch e1) in
   history e2 = history e /\ histIndex e2 = histIndex e /\
   histIndex e1 = (histIndex e + 1)%Z).
Proof.
  intros Hok. split.
  - intros Hpos. cbv zeta.
    destruct (undo_state cw ch e Hok Hpos) as (before & Hb & Hh1 & Hi1 & Hw1 & _).
    assert (Hok1 : history_ok (fst (undo cw ch e))).
    { destruct Hok as [Hi Hlen]. unfold history_ok. rewrite Hh1, Hi1.
      split; [lia | exact Hlen]. }
    destruct (redo_state cw ch (fst (undo cw ch e)) Hok1)
      as (current & Hc & Hh2 & Hi2 & Hw2 & _);
      [rewrite Hh1, Hi1; destruct Hok; lia |].
    rewrite Hh1, Hi1 in Hc.
    replace (histIndex e - 1 + 1)%Z with (histIndex e) in Hc by lia.
    exists before, current.
    repeat (split; [first [assumption | congruence | lia] |]).
    intros x y c Hx Hy Hcc Hxc Hyc.
    rewrite Hw2, channel_putImageData; [| rewrite Hw1; assumption ..| assumption].
    destruct (Nat.ltb_spec x (0 + width current)); [| lia].
    destruct (Nat.ltb_spec y (0 + height current)); [| lia].
    cbn [Nat.leb andb]. now rewrite !Nat.sub_0_r.
  - intros Hnext. cbv zeta.
    destruct (redo_state cw ch e Hok Hnext) as (img & _ & Hh1 & Hi1 & _).
    assert (Hok1 : history_ok (fst (redo cw ch e))).
    { destruct Hok as [Hi Hlen]. unfold history_ok. rewrite Hh1, Hi1.
      split; [lia | exact Hlen]. }
    destruct (undo_state cw ch (fst (redo cw ch e)) Hok1)
      as (img2 & _ & Hh2 & Hi2 & _);
      [rewrite Hi1; destruct Hok; lia |].
    split; [congruence |]. split; [lia | exact Hi1].
Qed.

Lemma undo_redo_round_trip_witness :
  exists before current,
    nth_error (history Fixture.editing) 1 = Some before /\
    nth_error (history Fixture.editing) 2 = Some current /\
    history (fst (redo 800 600 (fst (undo 800 600 Fixture.editing)))) =
      history Fixture.editing /\
    histIndex (fst (redo 800 600 (fst (undo 800 600 Fixture.editing)))) = 2%Z.
Proof.
  destruct (undo_redo_round_trip 800 600 Fixture.editing) as [Hundo _].
  - unfold history_ok, MAX_HISTORY. cbn. lia.
  - destruct Hundo as (before & current & Hb & Hc & _ & _ & Hh & Hi & _).
    + cbn. lia.
    + exists before, current. auto.
Defined.

(** X24.  Saving drops the states that were undone.  With a well-formed
    history, [saveHistory] keeps the snapshots up to [histIndex], adds
    a snapshot of the work canvas as the last one and points
    [histIndex] at it, so [redo] does nothing afterwards: the states
    after [histIndex] are gone for good.  When 30 snapshots are kept
    already the oldest one is dropped as well, so the history never
    holds more than 30 and at most 29 edits can be undone.  The
    snapshot holds the pixels of the canvas. *)
Theorem saveHistory_drops_redo (cw ch : Z) (e : editor) :
  history_ok e ->
  let e1 := fst (saveHistory e) in
  history_ok e1 /\
  redo cw ch e1 = (e1, []) /\
  btnRedo (updateButtons e1) = true /\
  nth_error (history e1) (Z.to_nat (histIndex e1)) = Some (snapshot e) /\
  ((histIndex e < 29)%Z ->
   history e1 = firstn (Z.to_nat (histIndex e + 1)) (history e) ++ [snapshot e] /\
   histIndex e1 = (histIndex e + 1)%Z) /\
  ((histIndex e = 29)%Z ->
   history e1 = tl (history e) ++ [snapshot e] /\ histIndex e1 = 29%Z) /\
  (forall x y c,
      (x < width (workCanvas e))%nat -> (y < height (workCanvas e))%nat ->
      (c < 4)%nat ->
      channel (snapshot e) x y c = channel (workCanvas e) x y c).
Proof.
  intros Hok. cbv zeta.
  destruct (saveHistory_state e Hok) as (Hh & Hi & _ & Hok1).
  pose proof Hok as [Hidx Hlen]. unfold MAX_HISTORY in *.
  set (kept := firstn (Z.to_nat (histIndex e + 1)) (history e)) in *.
  assert (Hkept : length kept = Z.to_nat (histIndex e + 1))
    by (unfold kept; rewrite length_firstn; lia).
  assert (L : length (kept ++ [snapshot e]) = S (length kept))
    by (rewrite length_app; cbn [length]; lia).
  split; [exact Hok1 |].
  split; [apply redo_idle; lia |].
  split; [unfold updateButtons; cbn [btnRedo]; lia |].
  split.
  { rewrite Hi, Hh.
    destruct (Nat.ltb 30 (length (kept ++ [snapshot e]))) eqn:E.
    - apply Nat.ltb_lt in E.
      destruct kept as [| first rest] eqn:Ek; [cbn in *; lia |].
      cbn [app tl length] in *.
      replace (Z.to_nat (Z.of_nat (length (rest ++ [snapshot e])) - 1))
        with (length rest) by (rewrite length_app; cbn [length]; lia).
      rewrite nth_error_app2 by lia. now rewrite Nat.sub_diag.
    - replace (Z.to_nat (Z.of_nat (length (kept ++ [snapshot e])) - 1))
        with (length kept) by lia.
      rewrite nth_error_app2 by lia. now rewrite Nat.sub_diag. }
  split.
  { intros Hroom. rewrite Hi, Hh.
    destruct (Nat.ltb 30 (length (kept ++ [snapshot e]))) eqn:E;
      [apply Nat.ltb_lt in E; lia |].
    split; [reflexivity | lia]. }
  split.
  { intros Hfull. rewrite Hi, Hh.
    assert (Hall : kept = history e).
    { unfold kept. apply firstn_all2. lia. }
    destruct (Nat.ltb 30 (length (kept ++ [snapshot e]))) eqn:E;
      [| apply Nat.ltb_ge in E; lia].
    rewrite Hall in *.
    destruct (history e) as [| first rest]; [cbn in *; lia |].
    cbn [app tl length] in *. split; [reflexivity |].
    rewrite length_app. cbn [length]. lia. }
  intros x y c Hx Hy Hc. unfold snapshot.
  now rewrite channel_getImageData.
Qed.

Lemma saveHistory_drops_redo_witness :
  history (fst (saveHistory (fst (undo 800 600 Fixture.editing)))) =
    [Fixture.dots; Fixture.blank; snapshot (fst (undo 800 600 Fixture.editing))] /\
  redo 800 600 (fst (saveHistory (fst (undo 800 600 Fixture.editing)))) =
    (fst (saveHistory (fst (undo 800 600 Fixture.editing))), []).
Proof.
  assert (Hok : history_ok (fst (undo 800 600 Fixture.editing))).
  { apply (run_edit_ok 800 600 Undo Fixture.editing).
    unfold history_ok, MAX_HISTORY. cbn. lia. }
  destruct (saveHistory_drops_redo 800 600 (fst (undo 800 600 Fixture.editing)) Hok)
    as (_ & Hredo & _ & _ & Hroom & _).
  split; [| exact Hredo].
  destruct (undo_state 800 600 Fixture.editing) as (img & _ & Hh0 & Hi0 & _);
    [unfold history_ok, MAX_HISTORY; cbn; lia | cbn; lia |].
  destruct Hroom as [Hh _]; [rewrite Hi0; cbn; lia |].
  rewrite Hh, Hh0, Hi0. reflexivity.
Defined.

End UndoRedo.

Section ViewFacts.

Import Editor.













End ViewFacts.

Section ContentBounds.

Import Editor.

Lemma fold_left_flat_map {A B C : Type} (f : A -> C -> A) (g : B -> list C)
      (l : list B) :
  forall a, fold_left f (flat_map g l) a =
            fold_left (fun a x => fold_left f (g x) a) l a.
Proof.
  induction l as [| x rest IH]; intros a; [reflexivity |].
  cbn [flat_map fold_left]. now rewrite fold_left_app, IH.
Qed.

Lemma fold_left_map {A B C : Type} (f : A -> C -> A) (g : B -> C) (l : list B) :
  forall a, fold_left f (map g l) a = fold_left (fun a x => f a (g x)) l a.
Proof.
  induction l as [| x rest IH]; intros a; [reflexivity |].
  cbn [map fold_left]. apply IH.
Qed.

(** The two loops of [getContentBounds] visit the pixels row by row. *)
Lemma scan_pixels (d : list Z) (W H : nat) (a : extent) :
  scan d W H a =
  fold_left (fun a p => grow d W a (snd p) (fst p))
            (list_prod (seq 0 H) (seq 0 W)) a.
Proof.
  unfold scan.
  assert (E : forall (ys : list nat) a0,
             fold_left (fun a p => grow d W a (snd p) (fst p))
                       (list_prod ys (seq 0 W)) a0 =
             fold_left (fun a y => fold_left (fun a x => grow d W a x y)
                                             (seq 0 W) a) ys a0).
  { induction ys as [| y rest IH]; intros a0; [reflexivity |].
    cbn [list_prod fold_left]. rewrite fold_left_app, fold_left_map. apply IH. }
  now rewrite E.
Qed.

(** What a run of the inner loop body over a list of pixels leaves in
    the four extremes; [lit] tells the pixels that count. *)
Lemma grow_run (d : list Z) (W : nat) (lit : nat * nat -> bool)
      (l : list (nat * nat)) :
  (forall p, In p l ->
     forall a, grow d W a (snd p) (fst p) =
       if lit p then
         {| minX := if Z.ltb (Z.of_nat (snd p)) (minX a)
                    then Z.of_nat (snd p) else minX a;
            maxX := if Z.ltb (maxX a) (Z.of_nat (snd p))
                    then Z.of_nat (snd p) else maxX a;
            minY := if Z.ltb (Z.of_nat (fst p)) (minY a)
                    then Z.of_nat (fst p) else minY a;
            maxY := if Z.ltb (maxY a) (Z.of_nat (fst p))
                    then Z.of_nat (fst p) else maxY a |}
       else a) ->
  forall a,
    let r := fold_left (fun a p => grow d W a (snd p) (fst p)) l a in
    (minX r <= minX a /\ maxX a <= maxX r /\
     minY r <= minY a /\ maxY a <= maxY r)%Z /\
    (forall p, In p l -> lit p = true ->
       (minX r <= Z.of_nat (snd p) <= maxX r /\
        minY r <= Z.of_nat (fst p) <= maxY r)%Z) /\
    (minX r = minX a \/
     exists p, In p l /\ lit p = true /\ Z.of_nat (snd p) = minX r) /\
    (maxX r = maxX a \/
     exists p, In p l /\ lit p = true /\ Z.of_nat (snd p) = maxX r) /\
    (minY r = minY a \/
     exists p, In p l /\ lit p = true /\ Z.of_nat (fst p) = minY r) /\
    (maxY r = maxY a \/
     exists p, In p l /\ lit p = true /\ Z.of_nat (fst p) = maxY r) /\
    ((forall p, In p l -> lit p = false) -> r = a).
Proof.
  induction l as [| q rest IH]; intros Hgrow a; cbv zeta; cbn [fold_left].
  - split; [lia |]. split; [intros p [] |].
    repeat (split; [now left |]). auto.
  - assert (Hrest : forall p, In p rest -> forall a0,
              grow d W a0 (snd p) (fst p) =
              if lit p then
                {| minX := if Z.ltb (Z.of_nat (snd p)) (minX a0)
                           then Z.of_nat (snd p) else minX a0;
                   maxX := if Z.ltb (maxX a0) (Z.of_nat (snd p))
                           then Z.of_nat (snd p) else maxX a0;
                   minY := if Z.ltb (Z.of_nat (fst p)) (minY a0)
                           then Z.of_nat (fst p) else minY a0;
                   maxY := if Z.ltb (maxY a0) (Z.of_nat (fst p))
                           then Z.of_nat (fst p) else maxY a0 |}
              else a0)
      by (intros p Hp; apply Hgrow; now right).
    specialize (IH Hrest (grow d W a (snd q) (fst q))). cbv zeta in IH.
    set (r := fold_left (fun a p => grow d W a (snd p) (fst p)) rest
                        (grow d W a (snd q) (fst q))) in *.
    destruct IH as (Hmono & Hin & HminX & HmaxX & HminY & HmaxY & Hnone).
    rewrite (Hgrow q (or_introl eq_refl) a) in *.
    destruct (lit q) eqn:Eq.
    + set (a1 := {| minX := if Z.ltb (Z.of_nat (snd q)) (minX a)
                            then Z.of_nat (snd q) else minX a;
                    maxX := if Z.ltb (maxX a) (Z.of_nat (snd q))
                            then Z.of_nat (snd q) else maxX a;
                    minY := if Z.ltb (Z.of_nat (fst q)) (minY a)
                            then Z.of_nat (fst q) else minY a;
                    maxY := if Z.ltb (maxY a) (Z.of_nat (fst q))
                            then Z.of_nat (fst q) else maxY a |}) in *.
      assert (H1 : (minX a1 <= minX a /\ minX a1 <= Z.of_nat (snd q) /\
                    (minX a1 = minX a \/ minX a1 = Z.of_nat (snd q)))%Z)
        by (unfold a1; cbn [minX];
            destruct (Z.ltb_spec (Z.of_nat (snd q)) (minX a)); lia).
      assert (H2 : (maxX a <= maxX a1 /\ Z.of_nat (snd q) <= maxX a1 /\
                    (maxX a1 = maxX a \/ maxX a1 = Z.of_nat (snd q)))%Z)
        by (unfold a1; cbn [maxX];
            destruct (Z.ltb_spec (maxX a) (Z.of_nat (snd q))); lia).
      assert (H3 : (minY a1 <= minY a /\ minY a1 <= Z.of_nat (fst q) /\
                    (minY a1 = minY a \/ minY a1 = Z.of_nat (fst q)))%Z)
        by (unfold a1; cbn [minY];
            destruct (Z.ltb_spec (Z.of_nat (fst q)) (minY a)); lia).
      assert (H4 : (maxY a <= maxY a1 /\ Z.of_nat (fst q) <= maxY a1 /\
                    (maxY a1 = maxY a \/ maxY a1 = Z.of_nat (fst q)))%Z)
        by (unfold a1; cbn [maxY];
            destruct (Z.ltb_spec (maxY a) (Z.of_nat (fst q))); lia).
      clearbody a1.
      split; [lia |].
      split; [intros p [<- | Hp] Hl; [lia | now apply Hin] |].
      split.
      { destruct HminX as [E | (p & Hp & Hl & E)];
          [| right; exists p; split; [now right | split; assumption]].
        destruct H1 as (_ & _ & [E1 | E1]); [left; lia |].
        right. exists q. split; [now left |]. split; [exact Eq | lia]. }
      split.
      { destruct HmaxX as [E | (p & Hp & Hl & E)];
          [| right; exists p; split; [now right | split; assumption]].
        destruct H2 as (_ & _ & [E1 | E1]); [left; lia |].
        right. exists q. split; [now left |]. split; [exact Eq | lia]. }
      split.
      { destruct HminY as [E | (p & Hp & Hl & E)];
          [| right; exists p; split; [now right | split; assumption]].
        destruct H3 as (_ & _ & [E1 | E1]); [left; lia |].
        right. exists q. split; [now left |]. split; [exact Eq | lia]. }
      split.
      { destruct HmaxY as [E | (p & Hp & Hl & E)];
          [| right; exists p; split; [now right | split; assumption]].
        destruct H4 as (_ & _ & [E1 | E1]); [left; lia |].
        right. exists q. split; [now left |]. split; [exact Eq | lia]. }
      intros Hall. specialize (Hall q (or_introl eq_refl)). congruence.
    + split; [exact Hmono |].
      split; [intros p [<- | Hp] Hl; [congruence | now apply Hin] |].
      split; [destruct HminX as [E | (p & Hp & Hl & E)];
              [now left | right; exists p; split; [now right | split; assumption]] |].
      split; [destruct HmaxX as [E | (p & Hp & Hl & E)];
              [now left | right; exists p; split; [now right | split; assumption]] |].
      split; [destruct HminY as [E | (p & Hp & Hl & E)];
              [now left | right; exists p; split; [now right | split; assumption]] |].
      split; [destruct HmaxY as [E | (p & Hp & Hl & E)];
              [now left | right; exists p; split; [now right | split; assumption]] |].
      intros Hall. apply Hnone. intros p Hp. apply Hall. now right.
Qed.

(** The extremes [getContentBounds] ends with, in terms of the pixels
    of the work canvas whose alpha is above 8. *)
Lemma getContentBounds_scan (e : editor) :
  let W := width (workCanvas e) in
  let H := height (workCanvas e) in
  let lit := fun x y => (8 < channel (workCanvas e) x y 3)%Z in
  exists a,
    getContentBounds e =
      (if Z.ltb (maxX a) (minX a) then None
       else Some {| b_x := minX a; b_y := minY a;
                    b_w := maxX a - minX a + 1; b_h := maxY a - minY a + 1 |}) /\
    (minX a <= Z.of_nat W /\ 0 <= maxX a /\ minY a <= Z.of_nat H /\ 0 <= maxY a)%Z /\
    (forall x y, (x < W)%nat -> (y < H)%nat -> lit x y ->
       (minX a <= Z.of_nat x <= maxX a /\ minY a <= Z.of_nat y <= maxY a)%Z) /\
    (minX a = Z.of_nat W \/
     exists x y, (x < W)%nat /\ (y < H)%nat /\ lit x y /\ Z.of_nat x = minX a) /\
    (maxX a = 0%Z \/
     exists x y, (x < W)%nat /\ (y < H)%nat /\ lit x y /\ Z.of_nat x = maxX a) /\
    (minY a = Z.of_nat H \/
     exists x y, (x < W)%nat /\ (y < H)%nat /\ lit x y /\ Z.of_nat y = minY a) /\
    (maxY a = 0%Z \/
     exists x y, (x < W)%nat /\ (y < H)%nat /\ lit x y /\ Z.of_nat y = maxY a) /\
    ((forall x y, (x < W)%nat -> (y < H)%nat -> ~ lit x y) ->
     a = {| minX := Z.of_nat W; minY := Z.of_nat H; maxX := 0; maxY := 0 |}).
Proof.
  cbv zeta. unfold getContentBounds. rewrite scan_pixels.
  set (W := width (workCanvas e)). set (H := height (workCanvas e)).
  set (d := data (getImageData (workCanvas e) 0 0 W H)).
  set (init := {| minX := Z.of_nat W; minY := Z.of_nat H; maxX := 0; maxY := 0 |}).
  set (lit := fun p : nat * nat => Z.ltb 8 (channel (workCanvas e) (snd p) (fst p) 3)).
  assert (Hread : forall p, In p (list_prod (seq 0 H) (seq 0 W)) ->
            (fst p < H)%nat /\ (snd p < W)%nat /\
            nth_error d (offset W (snd p) (fst p) 3) =
            Some (channel (workCanvas e) (snd p) (fst p) 3)).
  { intros [y x] Hp. apply in_prod_iff in Hp. destruct Hp as [Hy Hx].
    apply in_seq in Hy, Hx. cbn [fst snd].
    split; [lia |]. split; [lia |].
    unfold d, getImageData. rewrite bitmap_data by lia. reflexivity. }
  destruct (grow_run d W lit (list_prod (seq 0 H) (seq 0 W))) with (a := init)
    as (Hmono & Hin & HminX & HmaxX & HminY & HmaxY & Hnone).
  { intros p Hp a. destruct (Hread p Hp) as (_ & _ & E).
    unfold grow. rewrite E. unfold lit. reflexivity. }
  set (a := fold_left (fun a p => grow d W a (snd p) (fst p))
                      (list_prod (seq 0 H) (seq 0 W)) init) in *.
  assert (Hpix : forall x y, (x < W)%nat -> (y < H)%nat ->
            In (y, x) (list_prod (seq 0 H) (seq 0 W))).
  { intros x y Hx Hy. apply in_prod_iff. split; apply in_seq; lia. }
  assert (Hex : forall P : nat * nat -> Prop,
            (exists p, In p (list_prod (seq 0 H) (seq 0 W)) /\ lit p = true /\ P p) ->
            exists x y, (x < W)%nat /\ (y < H)%nat /\
                        (8 < channel (workCanvas e) x y 3)%Z /\ P (y, x)).
  { intros P ([y x] & Hp & Hl & HP). destruct (Hread _ Hp) as (Hy & Hx & _).
    cbn [fst snd] in *. exists x, y. unfold lit in Hl. cbn [fst snd] in Hl.
    repeat split; auto; lia. }
  exists a. split; [reflexivity |].
  cbn [minX maxX minY maxY init] in *.
  split; [lia |].
  split.
  { intros x y Hx Hy Hl. apply (Hin (y, x) (Hpix x y Hx Hy)).
    unfold lit. cbn [fst snd]. lia. }
  split; [destruct HminX as [E | Hx]; [now left | right];
          apply (Hex (fun p => Z.of_nat (snd p) = minX a)); exact Hx |].
  split; [destruct HmaxX as [E | Hx]; [now left | right];
          apply (Hex (fun p => Z.of_nat (snd p) = maxX a)); exact Hx |].
  split; [destruct HminY as [E | Hx]; [now left | right];
          apply (Hex (fun p => Z.of_nat (fst p) = minY a)); exact Hx |].
  split; [destruct HmaxY as [E | Hx]; [now left | right];
          apply (Hex (fun p => Z.of_nat (fst p) = maxY a)); exact Hx |].
  intros Hall. apply Hnone. intros p Hp.
  destruct (Hread p Hp) as (Hy & Hx & _).
  unfold lit. specialize (Hall (snd p) (fst p) Hx Hy). lia.
Qed.

(** X28.  [getContentBounds] finds the bounding box of the content.  On
    a work canvas that is at least one pixel wide: it answers [null]
    exactly when no pixel has an alpha above 8; otherwise the box it
    answers lies inside the canvas, holds every pixel whose alpha is
    above 8, and is tight: each of its four sides holds such a pixel. *)
Theorem getContentBounds_tight (e : editor) :
  (0 < width (workCanvas e))%nat ->
  let W := width (workCanvas e) in
  let H := height (workCanvas e) in
  let lit := fun x y => (8 < channel (workCanvas e) x y 3)%Z in
  (getContentBounds e = None <->
   forall x y, (x < W)%nat -> (y < H)%nat -> ~ lit x y) /\
  (forall b, getContentBounds e = Some b ->
     (0 <= b_x b /\ 0 <= b_y b /\ 1 <= b_w b /\ 1 <= b_h b /\
      b_x b + b_w b <= Z.of_nat W /\ b_y b + b_h b <= Z.of_nat H)%Z /\
     (forall x y, (x < W)%nat -> (y < H)%nat -> lit x y ->
        (b_x b <= Z.of_nat x < b_x b + b_w b /\
         b_y b <= Z.of_nat y < b_y b + b_h b)%Z) /\
     (exists y, (y < H)%nat /\ lit (Z.to_nat (b_x b)) y) /\
     (exists y, (y < H)%nat /\ lit (Z.to_nat (b_x b + b_w b - 1)) y) /\
     (exists x, (x < W)%nat /\ lit x (Z.to_nat (b_y b))) /\
     (exists x, (x < W)%nat /\ lit x (Z.to_nat (b_y b + b_h b - 1)))).
Proof.
  intros HW. cbv zeta.
  destruct (getContentBounds_scan e)
    as (a & -> & Hrange & Hin & HminX & HmaxX & HminY & HmaxY & Hnone).
  cbv zeta in *.
  set (W := width (workCanvas e)) in *. set (H := height (workCanvas e)) in *.
  split.
  - split.
    + intros Hnull x y Hx Hy Hl.
      destruct (Z.ltb_spec (maxX a) (minX a)); [| discriminate].
      specialize (Hin x y Hx Hy Hl). lia.
    + intros Hall. rewrite (Hnone Hall). cbn [minX maxX].
      destruct (Z.ltb_spec 0 (Z.of_nat W)); [reflexivity | lia].
  - intros b Hb.
    destruct (Z.ltb_spec (maxX a) (minX a)) as [Hlt | Hle]; [discriminate |].
    injection Hb as <-. cbn [b_x b_y b_w b_h].
    assert (Hsome : exists x y, (x < W)%nat /\ (y < H)%nat /\
                                (8 < channel (workCanvas e) x y 3)%Z).
    { destruct HminX as [E | (x & y & Hx & Hy & Hl & _)]; [| eauto].
      destruct HmaxX as [E' | (x & y & Hx & Hy & Hl & _)]; [lia | eauto]. }
    destruct Hsome as (x0 & y0 & Hx0 & Hy0 & Hl0).
    pose proof (Hin x0 y0 Hx0 Hy0 Hl0) as Hbox.
    assert (HX1 : exists x y, (x < W)%nat /\ (y < H)%nat /\
              (8 < channel (workCanvas e) x y 3)%Z /\ Z.of_nat x = minX a)
      by (destruct HminX as [E | Hx]; [lia | exact Hx]).
    assert (HX2 : exists x y, (x < W)%nat /\ (y < H)%nat /\
              (8 < channel (workCanvas e) x y 3)%Z /\ Z.of_nat x = maxX a).
    { destruct HmaxX as [E | Hx]; [| exact Hx].
      exists x0, y0. repeat split; auto; lia. }
    assert (HY1 : exists x y, (x < W)%nat /\ (y < H)%nat /\
              (8 < channel (workCanvas e) x y 3)%Z /\ Z.of_nat y = minY a)
      by (destruct HminY as [E | Hx]; [lia | exact Hx]).
    assert (HY2 : exists x y, (x < W)%nat /\ (y < H)%nat /\
              (8 < channel (workCanvas e) x y 3)%Z /\ Z.of_nat y = maxY a).
    { destruct HmaxY as [E | Hx]; [| exact Hx].
      exists x0, y0. repeat split; auto; lia. }
    destruct HX1 as (x1 & y1 & Hx1 & Hy1 & Hl1 & E1).
    destruct HX2 as (x2 & y2 & Hx2 & Hy2 & Hl2 & E2).
    destruct HY1 as (x3 & y3 & Hx3 & Hy3 & Hl3 & E3).
    destruct HY2 as (x4 & y4 & Hx4 & Hy4 & Hl4 & E4).
    split; [lia |].
    split; [intros x y Hx Hy Hl; specialize (Hin x y Hx Hy Hl); lia |].
    split; [exists y1; split; [exact Hy1 |];
            replace (Z.to_nat (minX a)) with x1 by lia; exact Hl1 |].
    split; [exists y2; split; [exact Hy2 |];
            replace (Z.to_nat (minX a + (maxX a - minX a + 1) - 1)) with x2 by lia;
            exact Hl2 |].
    split; [exists x3; split; [exact Hx3 |];
            replace (Z.to_nat (minY a)) with y3 by lia; exact Hl3 |].
    exists x4. split; [exact Hx4 |].
    replace (Z.to_nat (minY a + (maxY a - minY a + 1) - 1)) with y4 by lia.
    exact Hl4.
Qed.

Lemma getContentBounds_tight_witness :
  getContentBounds Fixture.editing <> None /\
  forall b, getContentBounds Fixture.editing = Some b ->
            (0 <= b_x b /\ b_x b + b_w b <= 2)%Z.
Proof.
  destruct (getContentBounds_tight Fixture.editing) as [Hnull Hbox];
    [cbn; lia |].
  split.
  - intros E. destruct Hnull as [Hn _]. apply (Hn E 0%nat 0%nat); cbn; lia.
  - intros b Hb. destruct (Hbox b Hb) as (Hin & _). cbn in Hin. lia.
Defined.

End ContentBounds.

Section AutoCrop.

Import Editor.

Lemma ceil_nonneg (x : R) : 0 <= x -> (0 <= ceil x)%Z.
Proof.
  intros Hx. unfold ceil.
  destruct (base_Int_part (- x)) as [Hle _].
  assert (H : IZR (Int_part (- x)) <= IZR 0) by (cbn; lra).
  apply le_IZR in H. lia.
Qed.

(** [fitToView] goes through on a canvas that has a size, and touches
    the view and the display canvas only. *)
Lemma fitToView_ok (cw ch : Z) (e : editor) :
  (0 < width (workCanvas e))%nat -> (0 < height (workCanvas e))%nat ->
  exists e1 effects,
    fitToView cw ch e = Ok (e1, effects) /\
    workCanvas e1 = workCanvas e /\
    originalImageData e1 = originalImageData e /\
    history e1 = history e /\
    histIndex e1 = histIndex e.
Proof.
  intros HW HH. apply lt_0_INR in HW, HH. unfold fitToView.
  destruct (imageLoaded e); cbn [negb].
  - rewrite !div_nonzero by lra. cbn [bind].
    match goal with
    | |- context [Ok (redraw cw ch ?x)] =>
        exists (fst (redraw cw ch x)), (snd (redraw cw ch x));
        split; [now rewrite <- surjective_pairing |];
        destruct (redraw_keeps cw ch x) as (H1 & H2 & H3 & H4 & _)
    end.
    rewrite H1, H2, H3, H4. repeat split; reflexivity.
  - exists e, []. repeat split; reflexivity.
Qed.

(** The box [getContentBounds] answers lies inside the canvas and holds
    every pixel whose alpha is above 8. *)
Lemma getContentBounds_covers (e : editor) (b : bounds) :
  (0 < width (workCanvas e))%nat ->
  getContentBounds e = Some b ->
  (0 <= b_x b /\ 0 <= b_y b /\ 1 <= b_w b /\ 1 <= b_h b /\
   b_x b + b_w b <= Z.of_nat (width (workCanvas e)) /\
   b_y b + b_h b <= Z.of_nat (height (workCanvas e)))%Z /\
  (forall x y,
     (x < width (workCanvas e))%nat -> (y < height (workCanvas e))%nat ->
     (8 < channel (workCanvas e) x y 3)%Z ->
     (b_x b <= Z.of_nat x < b_x b + b_w b /\
      b_y b <= Z.of_nat y < b_y b + b_h b)%Z).
Proof.
  intros HW.
  destruct (getContentBounds_scan e)
    as (a & -> & Hrange & Hin & HminX & HmaxX & HminY & HmaxY & _).
  cbv zeta in *.
  destruct (Z.ltb_spec (maxX a) (minX a)) as [Hlt | Hle]; [discriminate |].
  intros Hb. injection Hb as <-. cbn [b_x b_y b_w b_h].
  assert (Hsome : exists x y, (x < width (workCanvas e))%nat /\
                              (y < height (workCanvas e))%nat /\
                              (8 < channel (workCanvas e) x y 3)%Z).
  { destruct HminX as [E | (x & y & Hx & Hy & Hl & _)]; [| eauto].
    destruct HmaxX as [E' | (x & y & Hx & Hy & Hl & _)]; [lia | eauto]. }
  destruct Hsome as (x0 & y0 & Hx0 & Hy0 & Hl0).
  pose proof (Hin x0 y0 Hx0 Hy0 Hl0) as Hbox.
  split.
  - destruct HminX as [E1 | (x1 & y1 & Hx1 & Hy1 & _ & E1)];
      destruct HmaxX as [E2 | (x2 & y2 & Hx2 & Hy2 & _ & E2)];
      destruct HminY as [E3 | (x3 & y3 & Hx3 & Hy3 & _ & E3)];
      destruct HmaxY as [E4 | (x4 & y4 & Hx4 & Hy4 & _ & E4)]; lia.
  - intros x y Hx Hy Hl. specialize (Hin x y Hx Hy Hl). lia.
Qed.

(** X29.  Auto-crop never cuts content off.  When the work canvas holds
    a pixel whose alpha is above 8, [autoCrop] goes through; the
    rectangle it keeps lies inside the canvas and holds the whole
    bounding box of the content; the new work canvas has the size of
    that rectangle and its pixels are those of the rectangle, so every
    pixel whose alpha is above 8 is still there, moved by the corner of
    the rectangle.  The copy kept for the Restore brush is dropped and
    the cropped canvas is saved in the history. *)
Theorem autoCrop_keeps_content (cw ch : Z) (e : editor) (b : bounds) :
  (0 < width (workCanvas e))%nat ->
  history_ok e ->
  getContentBounds e = Some b ->
  let c := crop_rect b (Z.of_nat (width (workCanvas e)))
                       (Z.of_nat (height (workCanvas e))) in
  exists e1 effects,
    autoCrop cw ch e = Ok (e1, effects) /\
    (0 <= b_x c <= b_x b /\ 0 <= b_y c <= b_y b /\
     b_x b + b_w b <= b_x c + b_w c <= Z.of_nat (width (workCanvas e)) /\
     b_y b + b_h b <= b_y c + b_h c <= Z.of_nat (height (workCanvas e)))%Z /\
    width (workCanvas e1) = Z.to_nat (b_w c) /\
    height (workCanvas e1) = Z.to_nat (b_h c) /\
    (forall i j k,
       (i < Z.to_nat (b_w c))%nat -> (j < Z.to_nat (b_h c))%nat -> (k < 4)%nat ->
       channel (workCanvas e1) i j k =
       channel (workCanvas e) (Z.to_nat (b_x c) + i) (Z.to_nat (b_y c) + j) k) /\
    (forall x y k,
       (x < width (workCanvas e))%nat -> (y < height (workCanvas e))%nat ->
       (8 < channel (workCanvas e) x y 3)%Z -> (k < 4)%nat ->
       (Z.to_nat (b_x c) <= x)%nat /\ (Z.to_nat (b_y c) <= y)%nat /\
       channel (workCanvas e1) (x - Z.to_nat (b_x c)) (y - Z.to_nat (b_y c)) k =
       channel (workCanvas e) x y k) /\
    originalImageData e1 = None /\
    history_ok e1 /\
    redo cw ch e1 = (e1, []).
Proof.
  intros HW Hok Hb. cbv zeta.
  destruct (getContentBounds_covers e b HW Hb) as [Hbox Hcover].
  set (W := Z.of_nat (width (workCanvas e))) in *.
  set (H := Z.of_nat (height (workCanvas e))) in *.
  assert (Hpad : (0 <= ceil (IZR (Z.max (b_w b) (b_h b)) * 0.05))%Z).
  { apply ceil_nonneg.
    assert (0 <= IZR (Z.max (b_w b) (b_h b))) by (apply IZR_le; lia). lra. }
  set (c := crop_rect b W H).
  assert (Hc : (0 <= b_x c <= b_x b /\ 0 <= b_y c <= b_y b /\
                b_x b + b_w b <= b_x c + b_w c <= W /\
                b_y b + b_h b <= b_y c + b_h c <= H)%Z).
  { unfold c, crop_rect. cbn [b_x b_y b_w b_h].
    set (pad := ceil (IZR (Z.max (b_w b) (b_h b)) * 0.05)) in *. lia. }
  unfold autoCrop. rewrite Hb. fold W H c.
  set (cropped := getImageData (workCanvas e) (Z.to_nat (b_x c)) (Z.to_nat (b_y c))
                               (Z.to_nat (b_w c)) (Z.to_nat (b_h c))).
  set (canvas := putImageData cropped 0 0
                   (resized (Z.to_nat (b_w c)) (Z.to_nat (b_h c)))).
  set (e2 := set_originalImageData None (set_workCanvas canvas e)).
  assert (Hok2 : history_ok e2) by exact Hok.
  destruct (saveHistory_state e2 Hok2) as (_ & Hi3 & Hw3 & Hok3).
  destruct (saveHistory e2) as [e3 saved] eqn:Es. cbn [fst] in *.
  assert (Ho3 : originalImageData e3 = None).
  { unfold saveHistory in Es. injection Es as <- _. reflexivity. }
  destruct (fitToView_ok cw ch e3) as (e4 & fitted & -> & Hw4 & Ho4 & Hh4 & Hi4);
    [rewrite Hw3; cbn; lia | rewrite Hw3; cbn; lia |].
  cbn [bind]. do 2 eexists. split; [reflexivity |].
  split; [exact Hc |].
  rewrite Hw4, Hw3. cbn [e2 set_originalImageData set_workCanvas workCanvas].
  split; [reflexivity |]. split; [reflexivity |].
  assert (Hpixel : forall i j k,
            (i < Z.to_nat (b_w c))%nat -> (j < Z.to_nat (b_h c))%nat -> (k < 4)%nat ->
            channel canvas i j k =
            channel (workCanvas e) (Z.to_nat (b_x c) + i) (Z.to_nat (b_y c) + j) k).
  { intros i j k Hi Hj Hk. unfold canvas.
    rewrite channel_putImageData by (cbn; assumption).
    change (width cropped) with (Z.to_nat (b_w c)).
    change (height cropped) with (Z.to_nat (b_h c)).
    destruct (Nat.ltb_spec i (0 + Z.to_nat (b_w c))); [| lia].
    destruct (Nat.ltb_spec j (0 + Z.to_nat (b_h c))); [| lia].
    cbn [Nat.leb andb]. rewrite !Nat.sub_0_r.
    unfold cropped. now rewrite channel_getImageData. }
  split; [exact Hpixel |].
  split.
  { intros x y k Hx Hy Hl Hk.
    destruct (Hcover x y Hx Hy Hl) as [Hxb Hyb].
    split; [lia |]. split; [lia |].
    rewrite Hpixel by lia. f_equal; lia. }
  split; [congruence |].
  split.
  { destruct Hok3 as [Hidx Hlen]. unfold history_ok. rewrite Hh4, Hi4.
    split; assumption. }
  apply redo_idle. rewrite Hh4, Hi4, Hi3. lia.
Qed.

Lemma autoCrop_keeps_content_witness :
  exists b e1 effects,
    getContentBounds Fixture.editing = Some b /\
    autoCrop 800 600 Fixture.editing = Ok (e1, effects) /\
    originalImageData e1 = None.
Proof.
  destruct (getContentBounds Fixture.editing) as [b |] eqn:Eb.
  - destruct (autoCrop_keeps_content 800 600 Fixture.editing b)
      as (e1 & effects & Hcrop & _ & _ & _ & _ & _ & Ho & _).
    + cbn. lia.
    + unfold history_ok, MAX_HISTORY. cbn. lia.
    + exact Eb.
    + exists b, e1, effects. auto.
  - exfalso.
    destruct (getContentBounds_scan Fixture.editing) as (a & Ea & _ & Hin & _).
    rewrite Eb in Ea. cbv zeta in Hin.
    destruct (Z.ltb_spec (maxX a) (minX a)) as [Hlt |]; [| discriminate].
    specialize (Hin 0%nat 0%nat). cbn in Hin. lia.
Defined.

End AutoCrop.

Section Eraser.

Import Editor.













End Eraser.
